(** * Recovery controller (bootable/recovery/recovery.cpp): a shallow embedding

    The development follows the source file function by function:
    - C strings and the BSD string routines used on the control block;
    - the bootloader control block and [get_args];
    - the log copy, [finish_recovery] and [erase_volume];
    - the ext4 superblock reader and [get_fs_total_size];
    - the clone fallback [clone_data_if_exist];
    - the menu loop [get_menu_selection];
    - the FAT32 label writer [set_fat32_volumename];
    - the messages of the sdcard update, [load_locale_from_cache],
      [wipe_data], the listing of [update_directory] and the path block of
      [main].

    Integers of the C code are [Z] with the wrap-around written out where the
    code relies on a width; [char] arrays are lists of [ascii] of the array's
    length; text files are lists of [ascii]; raw devices are lists of byte
    values in [Z].  Calls that leave the C semantics (a null [FILE*] or a null
    string handed to the C library, an out-of-bounds store) end a run in
    [Undefined]. *)

From Stdlib Require Import ZArith Lia Ascii String.
From stdpp Require Import base gmap strings list.

Local Open Scope Z_scope.

(** ** Outcomes of a run *)

Inductive ub : Type :=
| NullString      (* a null [char*] passed to strdup/strlen *)
| NullFile        (* a null [FILE*] passed to fwrite/fclose *)
| OutOfBounds.    (* a store outside an array *)

Inductive outcome (A : Type) : Type :=
| Done (a : A)
| Undefined (u : ub).
Arguments Done {A} a.
Arguments Undefined {A} u.

Definition bind {A B} (m : outcome A) (k : A -> outcome B) : outcome B :=
  match m with
  | Done a => k a
  | Undefined u => Undefined u
  end.

Notation "'let*' x := m 'in' k" := (bind m (fun x => k))
  (at level 10, x pattern, m at level 100, k at level 200).

(** ** C strings *)

Module CStr.

Definition cstring := list ascii.

Definition NUL : ascii := "000"%char.
Definition LF : ascii := "010"%char.
Definition CR : ascii := "013"%char.

Definition lit (s : string) : cstring := list_ascii_of_string s.

Definition is_nul (c : ascii) : bool := Ascii.eqb c NUL.

(** Longest prefix whose elements satisfy [p], and what follows it. *)
Fixpoint span {A} (p : A -> bool) (l : list A) : list A * list A :=
  match l with
  | [] => ([], [])
  | x :: l' =>
      if p x then let '(a, b) := span p l' in (x :: a, b) else ([], l)
  end.

(** The string held by a [char] array: the bytes before the first NUL. *)
Definition cstr (buf : list ascii) : cstring :=
  fst (span (fun c => negb (is_nul c)) buf).

Definition strlen (buf : list ascii) : nat := length (cstr buf).

Definition cstring_eqb (a b : cstring) : bool :=
  bool_decide (a = b).

(** [strcmp(a, b) == 0] on two arrays. *)
Definition streq (a b : list ascii) : bool := cstring_eqb (cstr a) (cstr b).

(** [memset(buf, 0, n)] over a whole array of [n] bytes. *)
Definition zeroed (n : nat) : list ascii := replicate n NUL.

(** [dst[i] = c]; a store outside the array is not modelled here, callers
    check the index. *)
Definition store (dst : list ascii) (i : nat) (c : ascii) : list ascii :=
  <[i := c]> dst.

(** [strlcpy(dst, src, size)] with [size = sizeof dst]: copies at most
    [size - 1] bytes of [src] and terminates the result; bytes of [dst] after
    the terminator keep their old value.  Nothing is written when [size = 0]. *)
Definition strlcpy (dst : list ascii) (src : cstring) : list ascii :=
  match length dst with
  | O => dst
  | S room =>
      let n := Nat.min (length src) room in
      take n src ++ NUL :: drop (S n) dst
  end.

(** [strlcat(dst, src, size)] with [size = sizeof dst]: appends at most
    [size - strlen(dst) - 1] bytes and terminates the result.  When [dst]
    holds no NUL within [size] bytes nothing is written. *)
Definition strlcat (dst : list ascii) (src : cstring) : list ascii :=
  let dlen := strlen dst in
  if (length dst <=? dlen)%nat then dst
  else
    let room := (length dst - dlen - 1)%nat in
    let n := Nat.min (length src) room in
    take dlen dst ++ take n src ++ NUL :: drop (S (dlen + n)) dst.

(** *** strtok

    The array being tokenised is kept as a zipper: [tb_done] is what lies
    before the saved pointer, [tb_rest] what lies from the saved pointer to the
    end of the array.  A call skips leading delimiters, returns [None] (NULL)
    at the terminator, and otherwise returns the token and overwrites the
    delimiter that ends it with NUL. *)

Record tokbuf : Type := TokBuf { tb_done : list ascii; tb_rest : list ascii }.

Definition tb_array (tb : tokbuf) : list ascii := tb_done tb ++ tb_rest tb.

Definition is_delim (delim : list ascii) (c : ascii) : bool :=
  negb (is_nul c) && existsb (Ascii.eqb c) delim.

Definition in_token (delim : list ascii) (c : ascii) : bool :=
  negb (is_nul c) && negb (existsb (Ascii.eqb c) delim).

Definition strtok (delim : list ascii) (tb : tokbuf) : option cstring * tokbuf :=
  let '(skipped, r1) := span (is_delim delim) (tb_rest tb) in
  match r1 with
  | [] => (None, TokBuf (tb_done tb ++ skipped) [])
  | c :: _ =>
      if is_nul c then (None, TokBuf (tb_done tb ++ skipped) r1)
      else
        let '(tok, r2) := span (in_token delim) r1 in
        match r2 with
        | [] => (Some tok, TokBuf (tb_done tb ++ skipped ++ tok) [])
        | d :: r3 =>
            if is_nul d
            then (Some tok, TokBuf (tb_done tb ++ skipped ++ tok) r2)
            else (Some tok, TokBuf (tb_done tb ++ skipped ++ tok ++ [NUL]) r3)
        end
  end.

(** [fgets(buf, size, fp)] with [room = size - 1]: reads up to [room] bytes,
    stopping after a newline.  Returns the bytes read and the rest of the
    stream; the caller tests for the empty read (NULL at end of file). *)
Fixpoint fgets (room : nat) (stream : list ascii) : list ascii * list ascii :=
  match room, stream with
  | O, _ => ([], stream)
  | _, [] => ([], [])
  | S room', c :: stream' =>
      if Ascii.eqb c LF then ([c], stream')
      else let '(a, b) := fgets room' stream' in (c :: a, b)
  end.

End CStr.

Import CStr.

(** ** The bootloader control block and the world around the program *)

(** [struct bootloader_message] of bootloader.h: three [char] arrays.  The
    header is not part of the sources, so the array sizes are parameters. *)
Class BcbLayout : Type := {
  command_size : nat;
  status_size : nat;
  recovery_size : nat
}.

Record bootloader_message : Type := BootMsg {
  command : list ascii;
  status : list ascii;
  recovery : list ascii
}.

Definition set_command (b : bootloader_message) (c : list ascii) :=
  BootMsg c (status b) (recovery b).
Definition set_recovery (b : bootloader_message) (r : list ascii) :=
  BootMsg (command b) (status b) r.

(** [memset(&boot, 0, sizeof(boot))] *)
Definition zero_message `{BcbLayout} : bootloader_message :=
  BootMsg (zeroed command_size) (zeroed status_size) (zeroed recovery_size).

Definition COMMAND_FILE : string := "/cache/recovery/command".
Definition FLAG_FILE : string := "/cache/recovery/last_flag".
Definition INTENT_FILE : string := "/cache/recovery/intent".
Definition LOG_FILE : string := "/cache/recovery/log".
Definition LAST_LOG_FILE : string := "/cache/recovery/last_log".
Definition LAST_INSTALL_FILE : string := "/cache/recovery/last_install".
Definition LOCALE_FILE : string := "/cache/recovery/last_locale".
Definition CACHE_ROOT : string := "/cache".
Definition TEMPORARY_LOG_FILE : string := "/tmp/recovery.log".
Definition TEMPORARY_INSTALL_FILE : string := "/tmp/last_install".

Definition MAX_ARG_LENGTH : nat := 4096.
Definition MAX_ARGS : nat := 100.

Inductive loglevel : Type := LogI | LogW | LogE.

Inductive fmode : Type := ModeR | ModeW | ModeA.

(** What the program does to the outside, in order. *)
Inductive event : Type :=
| EvLog (lvl : loglevel) (fmt : string) (args : list cstring)
| EvGetBcb
| EvSetBcb (m : bootloader_message)
| EvMount (path : string) (status : Z)
| EvUnmount (path : string)
| EvFopen (path : string) (mode : fmode) (ok : bool)
| EvUnlink (path : string) (ok : bool)
| EvUi (what : string) (arg : string)
| EvFormat (volume : string) (status : Z)
| EvSync.

(** The state a run works on: the control block in its storage slot, the
    regular files (those under /cache are reachable only while the cache
    volume is mounted), their permission bits and owners, the answers of the
    volume manager and of the formatter (roots.cpp is not part of the sources:
    [mount_ok] says whether [ensure_path_mounted] succeeds, [format_ok] whether
    [format_volume] does), the globals of recovery.cpp, and the trace. *)
Record World : Type := MkWorld {
  bcb : bootloader_message;
  files : gmap string (list ascii);
  modes : gmap string Z;
  owners : gmap string (Z * Z);
  cache_mounted : bool;
  mount_ok : bool;
  format_ok : bool;
  tmplog_offset : Z;
  locale : option cstring;
  bAutoUpdateComplete : bool;
  bClearbootmessage : bool;
  updatepath : cstring;
  trace : list event
}.

Definition with_bcb (w : World) (b : bootloader_message) : World :=
  MkWorld b (files w) (modes w) (owners w) (cache_mounted w) (mount_ok w)
    (format_ok w) (tmplog_offset w) (locale w) (bAutoUpdateComplete w)
    (bClearbootmessage w) (updatepath w) (trace w).
Definition with_files (w : World) (f : gmap string (list ascii)) : World :=
  MkWorld (bcb w) f (modes w) (owners w) (cache_mounted w) (mount_ok w)
    (format_ok w) (tmplog_offset w) (locale w) (bAutoUpdateComplete w)
    (bClearbootmessage w) (updatepath w) (trace w).
Definition with_modes (w : World) (m : gmap string Z) : World :=
  MkWorld (bcb w) (files w) m (owners w) (cache_mounted w) (mount_ok w)
    (format_ok w) (tmplog_offset w) (locale w) (bAutoUpdateComplete w)
    (bClearbootmessage w) (updatepath w) (trace w).
Definition with_owners (w : World) (o : gmap string (Z * Z)) : World :=
  MkWorld (bcb w) (files w) (modes w) o (cache_mounted w) (mount_ok w)
    (format_ok w) (tmplog_offset w) (locale w) (bAutoUpdateComplete w)
    (bClearbootmessage w) (updatepath w) (trace w).
Definition with_mounted (w : World) (m : bool) : World :=
  MkWorld (bcb w) (files w) (modes w) (owners w) m (mount_ok w)
    (format_ok w) (tmplog_offset w) (locale w) (bAutoUpdateComplete w)
    (bClearbootmessage w) (updatepath w) (trace w).
Definition with_offset (w : World) (o : Z) : World :=
  MkWorld (bcb w) (files w) (modes w) (owners w) (cache_mounted w) (mount_ok w)
    (format_ok w) o (locale w) (bAutoUpdateComplete w)
    (bClearbootmessage w) (updatepath w) (trace w).
Definition with_auto (w : World) (a : bool) : World :=
  MkWorld (bcb w) (files w) (modes w) (owners w) (cache_mounted w) (mount_ok w)
    (format_ok w) (tmplog_offset w) (locale w) a
    (bClearbootmessage w) (updatepath w) (trace w).
Definition with_trace (w : World) (t : list event) : World :=
  MkWorld (bcb w) (files w) (modes w) (owners w) (cache_mounted w) (mount_ok w)
    (format_ok w) (tmplog_offset w) (locale w) (bAutoUpdateComplete w)
    (bClearbootmessage w) (updatepath w) t.

Definition emit (e : event) (w : World) : World := with_trace w (trace w ++ [e]).

(** The LOGI/LOGW/LOGE macros of common.h: one trace event per call.  ([main]
    reopens stdout and stderr on a serial console, so the macros do not write
    into the temporary log file.) *)
Definition LOG (lvl : loglevel) (fmt : string) (args : list cstring) (w : World)
  : World := emit (EvLog lvl fmt args) w.

(** *** The platform accessors of the control block (bootloader.cpp) *)

Definition get_bootloader_message (w : World) : bootloader_message * World :=
  (bcb w, emit EvGetBcb w).

Definition set_bootloader_message (b : bootloader_message) (w : World) : World :=
  emit (EvSetBcb b) (with_bcb w b).

(** *** The volume manager (roots.cpp) *)

Definition under_cache (path : string) : bool :=
  String.eqb path "/cache" || String.prefix "/cache/" path.

Definition ensure_path_mounted (path : string) (w : World) : Z * World :=
  if mount_ok w
  then (0, emit (EvMount path 0)
             (if under_cache path then with_mounted w true else w))
  else (-1, emit (EvMount path (-1)) w).

Definition ensure_path_unmounted (path : string) (w : World) : Z * World :=
  (0, emit (EvUnmount path)
        (if under_cache path then with_mounted w false else w)).

(** *** stdio on the modelled files *)

Definition visible (w : World) (path : string) : bool :=
  if under_cache path then cache_mounted w else true.

Definition read_file (w : World) (path : string) : option (list ascii) :=
  if visible w path then files w !! path else None.

(** An open stream: the path it was opened on and, for reading, what is left
    to read. *)
Record FILE : Type := MkFILE { f_path : string; f_left : list ascii }.

Definition fopen (path : string) (mode : fmode) (w : World) : option FILE * World :=
  if visible w path then
    match mode with
    | ModeR =>
        match files w !! path with
        | Some content => (Some (MkFILE path content), emit (EvFopen path mode true) w)
        | None => (None, emit (EvFopen path mode false) w)
        end
    | ModeW =>
        (Some (MkFILE path []),
         emit (EvFopen path mode true) (with_files w (<[path := []]> (files w))))
    | ModeA =>
        (Some (MkFILE path []),
         emit (EvFopen path mode true)
           (with_files w (<[path := default [] (files w !! path)]> (files w))))
    end
  else (None, emit (EvFopen path mode false) w).

(** [fputs(s, fp)] / [fwrite]: the bytes go to the end of the file. *)
Definition fwrite (s : list ascii) (fp : FILE) (w : World) : World :=
  with_files w (<[f_path fp := default [] (files w !! f_path fp) ++ s]> (files w)).

(** [fputs] writes the C string held by its argument. *)
Definition fputs (s : list ascii) (fp : FILE) (w : World) : World :=
  fwrite (cstr s) fp w.

(** open a given path, mounting partitions as necessary *)
Definition fopen_path (path : string) (mode : fmode) (w : World)
  : option FILE * World :=
  let '(r, w) := ensure_path_mounted path w in
  if negb (r =? 0) then
    (None, LOG LogE "Can't mount %s\n" [lit path] w)
  else
    (* dirCreateHierarchy for "w" and "a": directories are not modelled *)
    fopen path mode w.

(** ** get_args *)

(** [buf[0] != 0 && buf[0] != 255] ([char] is unsigned on the target ABI) *)
Definition first_byte_set (buf : list ascii) : bool :=
  match buf with
  | c :: _ => negb (is_nul c) && negb (Ascii.eqb c "255"%char)
  | [] => false
  end.

(** The loop over the control block:
    [for (n iterations) { if ((arg = strtok(NULL, "\n")) == NULL) break; ... }] *)
Fixpoint bcb_arguments (n : nat) (tb : tokbuf) : list cstring * tokbuf :=
  match n with
  | O => ([], tb)
  | S n' =>
      match strtok [LF] tb with
      | (None, tb') => ([], tb')
      | (Some arg, tb') =>
          let '(l, tb'') := bcb_arguments n' tb' in (arg :: l, tb'')
      end
  end.

(** The loop over the command file:
    [for (n iterations) { if (!fgets(buf, sizeof(buf), fp)) break;
                          argv[argc] = strdup(strtok(buf, "\r\n")); }]
    [strdup] of the NULL that [strtok] returns for a line without a token
    leaves the C semantics. *)
Fixpoint command_file_arguments (n : nat) (stream : list ascii)
  : outcome (list cstring) :=
  match n with
  | O => Done []
  | S n' =>
      let '(buf, rest) := fgets (MAX_ARG_LENGTH - 1) stream in
      match buf with
      | [] => Done []
      | _ :: _ =>
          match fst (strtok [CR; LF] (TokBuf [] (buf ++ [NUL]))) with
          | None => Undefined NullString
          | Some tok =>
              let* l := command_file_arguments n' rest in Done (tok :: l)
          end
      end
  end.

(** [for (i = 1; i < argc; ++i) { strlcat(rec, argv[i]); strlcat(rec, "\n"); }]
    over the entries from index 1 on. *)
Fixpoint append_arguments (rec : list ascii) (args : list (option cstring))
  : outcome (list ascii) :=
  match args with
  | [] => Done rec
  | None :: _ => Undefined NullString
  | Some a :: args' => append_arguments (strlcat (strlcat rec a) [LF]) args'
  end.

Section GetArgs.
Context `{L : BcbLayout}.

(** The tier of the control block: taken only when [*argc <= 1]. *)
Definition args_from_bcb (boot : bootloader_message) (argv : list (option cstring))
    (w : World) : list (option cstring) * bootloader_message * World :=
  if (length argv <=? 1)%nat then
    let rec := store (recovery boot) (recovery_size - 1) NUL in
    let '(arg, tb) := strtok [LF] (TokBuf [] rec) in
    if match arg with
       | Some a => cstring_eqb a (lit "recovery")
       | None => false
       end
    then
      let '(l, tb') := bcb_arguments (MAX_ARGS - 1) tb in
      (arg :: map Some l, set_recovery boot (tb_array tb'),
       LOG LogI "Got arguments from boot message\n" [] w)
    else
      let rec' := tb_array tb in
      (argv, set_recovery boot rec',
       if first_byte_set rec'
       then LOG LogE "Bad boot message\n%.20s\n" [take 20 (cstr rec')] w
       else w)
  else (argv, boot, w).

(** The tier of the command file: taken only when [*argc <= 1] still. *)
Definition args_from_command_file (argv : list (option cstring)) (w : World)
  : outcome (list (option cstring) * World) :=
  if (length argv <=? 1)%nat then
    let '(fp, w) := fopen_path COMMAND_FILE ModeR w in
    match fp with
    | Some fp =>
        let argv0 := nth 0 argv None in
        let* l := command_file_arguments (MAX_ARGS - 1) (f_left fp) in
        Done (argv0 :: map Some l,
              LOG LogI "Got arguments from %s\n" [lit COMMAND_FILE] w)
    | None => Done (argv, w)
    end
  else Done (argv, w).

Definition get_args (argv : list (option cstring)) (w : World)
  : outcome (list (option cstring) * World) :=
  let '(boot, w) := get_bootloader_message w in
  let w := if first_byte_set (command boot)
           then LOG LogI "Boot command: %.*s\n" [cstr (command boot)] w else w in
  let w := if first_byte_set (status boot)
           then LOG LogI "Boot status: %.*s\n" [cstr (status boot)] w else w in
  let '(argv, boot, w) := args_from_bcb boot argv w in
  let* (argv, w) := args_from_command_file argv w in
  let boot := set_command boot (strlcpy (command boot) (lit "boot-recovery")) in
  let boot := set_recovery boot (strlcpy (recovery boot) (lit "recovery" ++ [LF])) in
  let* rec := append_arguments (recovery boot) (drop 1 argv) in
  Done (argv, set_bootloader_message (set_recovery boot rec) w).

End GetArgs.

(** ** copy_log_file, finish_recovery, erase_volume *)

(** [while (fgets(buf, sizeof(buf), tmplog)) fputs(buf, log);] with
    [char buf[4096]].  Every turn takes at least one byte off the stream, so
    [fuel = length stream] turns reach its end. *)
Fixpoint copy_lines (fuel : nat) (stream : list ascii) (log : FILE) (w : World)
  : World :=
  match fuel with
  | O => w
  | S fuel' =>
      let '(buf, rest) := fgets 4095 stream in
      match buf with
      | [] => w
      | _ :: _ => copy_lines fuel' rest log (fputs buf log w)
      end
  end.

(** [fseek(tmplog, offset, SEEK_SET)]: a negative offset is refused and the
    position stays at the start. *)
Definition fseek_set (offset : Z) : nat := Z.to_nat offset.

(** [ftell] once [fgets] has returned NULL: the end of the file, or the
    position sought when that lies beyond the end. *)
Definition ftell_at_eof (pos : nat) (content : list ascii) : Z :=
  Z.of_nat (Nat.max pos (length content)).

Definition copy_log_file (source destination : string) (append : bool) (w : World)
  : World :=
  let '(log, w) := fopen_path destination (if append then ModeA else ModeW) w in
  match log with
  | None => LOG LogE "Can't open %s\n" [lit destination] w
  | Some log =>
      let '(tmplog, w) := fopen source ModeR w in
      match tmplog with
      | Some tmplog =>
          let pos := if append then fseek_set (tmplog_offset w) else O in
          let stream := drop pos (f_left tmplog) in
          let w := copy_lines (length stream) stream log w in
          if append
          then with_offset w (ftell_at_eof pos (f_left tmplog))
          else w
      | None => w
      end
  end.

Definition file_exists (w : World) (path : string) : bool :=
  match read_file w path with Some _ => true | None => false end.

Definition chmod (path : string) (mode : Z) (w : World) : World :=
  if file_exists w path then with_modes w (<[path := mode]> (modes w)) else w.

Definition chown (path : string) (uid gid : Z) (w : World) : World :=
  if file_exists w path then with_owners w (<[path := (uid, gid)]> (owners w)) else w.

(** [unlink(path)]: [true] when the call returns 0.  The only failure of the
    model is ENOENT. *)
Definition unlink (path : string) (w : World) : bool * World :=
  if file_exists w path
  then (true, emit (EvUnlink path true) (with_files w (delete path (files w))))
  else (false, emit (EvUnlink path false) w).

(** [char strflag[160] = "success$path="; strcat(strflag, updatepath);]
    The array is written out whole, padding included. *)
Definition strflag (path : cstring) : outcome (list ascii) :=
  let s := lit "success$path=" ++ path in
  if (160 <=? length s)%nat then Undefined OutOfBounds
  else Done (s ++ zeroed (160 - length s)).

(** The blocks of [finish_recovery], in the order of the source. *)

(** [if (send_intent != NULL) { ... }] *)
Definition record_intent (send_intent : option cstring) (w : World) : World :=
  match send_intent with
  | Some intent =>
      let '(fp, w) := fopen_path INTENT_FILE ModeW w in
      match fp with
      | None => LOG LogE "Can't open %s\n" [lit INTENT_FILE] w
      | Some fp => fputs intent fp w
      end
  | None => w
  end.

(** [if (locale != NULL) { ... }]: the result of [fopen_path] goes to
    [fwrite] unchecked. *)
Definition save_locale (w : World) : outcome World :=
  match locale w with
  | Some loc =>
      let w := LOG LogI "Saving locale %s\n" [loc] w in
      let '(fp, w) := fopen_path LOCALE_FILE ModeW w in
      match fp with
      | None => Undefined NullFile
      | Some fp => Done (fwrite (cstr loc) fp w)
      end
  | None => Done w
  end.

(** Copy logs to cache so the system can find out what happened. *)
Definition copy_logs (w : World) : World :=
  let w := copy_log_file TEMPORARY_LOG_FILE LOG_FILE true w in
  let w := copy_log_file TEMPORARY_LOG_FILE LAST_LOG_FILE false w in
  let w := copy_log_file TEMPORARY_INSTALL_FILE LAST_INSTALL_FILE false w in
  let w := chmod LOG_FILE 384 w in          (* 0600 *)
  let w := chown LOG_FILE 1000 1000 w in    (* system user *)
  let w := chmod LAST_LOG_FILE 416 w in     (* 0640 *)
  chmod LAST_INSTALL_FILE 420 w.            (* 0644 *)

Section Finish.
Context `{L : BcbLayout}.

(** Reset to normal system boot so recovery won't cycle indefinitely; the
    preprocessor test [TARGET_BOARD_PLATFORM == rockchip] compares two
    undefined identifiers and holds, so the guarded branch is the one built. *)
Definition reset_bcb (w : World) : World :=
  if negb (bClearbootmessage w)
  then set_bootloader_message zero_message w else w.

(** [if (bAutoUpdateComplete == true) { ... }]: after the test for NULL the
    stream goes to [fwrite] all the same. *)
Definition write_flag (w : World) : outcome World :=
  if bAutoUpdateComplete w then
    let '(fp, w) := fopen_path FLAG_FILE ModeW w in
    match fp with
    | None =>
        let w := LOG LogE "Can't open %s\n" [lit FLAG_FILE] w in
        Undefined NullFile
    | Some fp =>
        let* flag := strflag (updatepath w) in
        Done (with_auto (fwrite flag fp w) false)
    end
  else Done w.

(** Remove the command file, so recovery won't repeat indefinitely; then
    unmount the cache volume and sync. *)
Definition remove_command_file (w : World) : World :=
  let '(r, w) := ensure_path_mounted COMMAND_FILE w in
  let w :=
    if negb (r =? 0) then LOG LogW "Can't unlink %s\n" [lit COMMAND_FILE] w
    else
      (* unlink(COMMAND_FILE) && errno != ENOENT *)
      snd (unlink COMMAND_FILE w) in
  let '(_, w) := ensure_path_unmounted CACHE_ROOT w in
  emit EvSync w.

Definition finish_recovery (send_intent : option cstring) (w : World)
  : outcome World :=
  let w := record_intent send_intent w in
  let* w := save_locale w in
  let w := copy_logs w in
  let w := reset_bcb w in
  let* w := write_flag w in
  Done (remove_command_file w).

End Finish.

(** [format_volume] of roots.cpp: on success the files of the cache volume
    are gone when the volume is the cache volume (other volumes hold no
    modelled files); on failure nothing changes. *)
Definition keep_outside_cache {A} (m : gmap string A) : gmap string A :=
  filter (fun kv => under_cache kv.1 = false) m.

Definition format_volume (volume : string) (w : World) : Z * World :=
  if format_ok w then
    (0, emit (EvFormat volume 0)
          (if String.eqb volume CACHE_ROOT
           then with_owners
                  (with_modes
                     (with_files w (keep_outside_cache (files w)))
                     (keep_outside_cache (modes w)))
                  (keep_outside_cache (owners w))
           else w))
  else (-1, emit (EvFormat volume (-1)) w).

Definition erase_volume (volume : string) (w : World) : Z * World :=
  let w := emit (EvUi "SetBackground" "ERASING") w in
  let w := emit (EvUi "SetProgressType" "INDETERMINATE") w in
  let w := emit (EvUi "Print" ("Formatting " ++ volume ++ "...")) w in
  let '(_, w) := ensure_path_unmounted volume w in
  let w :=
    if String.eqb volume "/cache"
    then
      (* Any part of the log we'd copied to cache is now gone. *)
      with_offset w 0
    else w in
  format_volume volume w.

(** ** Fixed-width integers *)

Definition wrap_unsigned (bits : Z) (x : Z) : Z := x mod 2 ^ bits.

Definition wrap_signed (bits : Z) (x : Z) : Z :=
  let u := x mod 2 ^ bits in
  if u <? 2 ^ (bits - 1) then u else u - 2 ^ bits.

Definition u8 : Z -> Z := wrap_unsigned 8.
Definition u16 : Z -> Z := wrap_unsigned 16.
Definition u32 : Z -> Z := wrap_unsigned 32.
Definition s32 : Z -> Z := wrap_signed 32.
Definition s64 : Z -> Z := wrap_signed 64.

(** ** The ext4 superblock reader *)

Module Ext4.

(** The two fields of [struct ext4_super_block] that recovery.cpp reads. *)
Record ext4_super_block : Type := SuperBlock {
  s_magic : Z;
  s_state : Z;
  sb_bytes : list Z
}.

(** The fields of the globals [info] and [aux_info] that [read_ext] uses. *)
Record fs_info : Type := FsInfo {
  len : Z;
  block_size : Z
}.

Record fs_aux_info : Type := FsAuxInfo {
  first_data_block : Z;
  bg_desc_blocks : Z
}.

(** What ext4.h and ext4_utils, which are not part of the sources, provide:
    the size and layout of the superblock structure, the two constants, and
    [ext4_parse_sb], which fills [info] and [aux_info] from a superblock.
    [size_t_bits] is the width of [size_t] on the target. *)
Class Ext4Lib : Type := {
  sizeof_sb : Z;
  sb_of_bytes : list Z -> ext4_super_block;
  EXT4_SUPER_MAGIC : Z;
  EXT4_VALID_FS : Z;
  ext4_parse_sb : ext4_super_block -> fs_info * fs_aux_info;
  size_t_bits : Z
}.

Inductive io : Type :=
| IoSeek (offset : Z)
| IoRead (count : Z) (got : Z)
| IoLog (msg : string).

(** An open descriptor on a raw device: its bytes, the position, and what
    has been done through it. *)
Record fd_state : Type := Fd {
  fd_bytes : list Z;
  fd_pos : Z;
  fd_io : list io
}.

Definition io_emit (e : io) (f : fd_state) : fd_state :=
  Fd (fd_bytes f) (fd_pos f) (fd_io f ++ [e]).

Definition LOGE (msg : string) (f : fd_state) : fd_state := io_emit (IoLog msg) f.

(** [lseek64(fd, offset, SEEK_SET)] *)
Definition lseek64 (offset : Z) (f : fd_state) : Z * fd_state :=
  if offset <? 0 then (-1, io_emit (IoSeek offset) f)
  else (offset, io_emit (IoSeek offset) (Fd (fd_bytes f) offset (fd_io f))).

(** [read(fd, buf, count)]: the bytes from the position on, short at the end
    of the device. *)
Definition read (count : Z) (f : fd_state) : list Z * Z * fd_state :=
  let data := take (Z.to_nat count) (drop (Z.to_nat (fd_pos f)) (fd_bytes f)) in
  let got := Z.of_nat (length data) in
  (data, got, io_emit (IoRead count got) (Fd (fd_bytes f) (fd_pos f + got) (fd_io f))).

Section ReadExt.
Context `{E : Ext4Lib}.

Definition test_sb (sb : ext4_super_block) (f : fd_state) : Z * fd_state :=
  if negb (s_magic sb =? EXT4_SUPER_MAGIC) then
    (-1, LOGE "superblock magic incorrect\n" f)
  else if negb (Z.land (s_state sb) EXT4_VALID_FS =? EXT4_VALID_FS) then
    (-1, LOGE "filesystem state not valid\n" f)
  else (0, f).

Definition read_ext (f : fd_state) : Z * fd_state :=
  let '(ret, f) := lseek64 1024 f in
  if ret <? 0 then (-1, LOGE "read_ext failed to seek to superblock\n" f) else
  let '(bytes, ret, f) := read sizeof_sb f in
  if ret <? 0 then (-1, LOGE "read_ext->failed to read superblock\n" f) else
  if negb (ret =? sizeof_sb) then
    (-1, LOGE "read_ext->failed to read all of superblock\n" f) else
  let sb := sb_of_bytes bytes in
  let '(bad, f) := test_sb sb f in
  if negb (bad =? 0) then (-1, f) else
  let '(info, aux_info) := ext4_parse_sb sb in
  let '(ret, f) := lseek64 (s64 (len info)) f in
  if ret <? 0 then
    (-1, LOGE "read_ext->failed to seek to end of input image\n" f) else
  let '(ret, f) :=
    lseek64 (u32 (block_size info * (first_data_block aux_info + 1))) f in
  if ret <? 0 then
    (-1, LOGE "read_ext->failed to seek to block group descriptors\n" f) else
  let '(_, ret, f) := read (u32 (block_size info * bg_desc_blocks aux_info)) f in
  if ret <? 0 then
    (-1, LOGE "read_ext->failed to read block group descriptors\n" f) else
  if negb (ret =? s32 (s32 (block_size info) * s32 (bg_desc_blocks aux_info))) then
    (-1, LOGE "read_ext->failed to read all of block group descriptors\n" f) else
  let f := LOGE "Found filesystem with parameters:\n" f in
  (* int read_ext(...) { ... return info.len; } *)
  (s32 (len info), f).

Definition to_size_t (x : Z) : Z := wrap_unsigned size_t_bits x.

(** [device] is what [open(devname, O_RDONLY)] gives: [None] when it fails. *)
Definition get_fs_total_size (device : option (list Z)) : Z :=
  match device with
  | None =>
      (* LOGE("failed to open input image\n"); return -1; *)
      to_size_t (-1)
  | Some bytes =>
      let size := to_size_t (fst (read_ext (Fd bytes 0 []))) in
      if size <? 0 then
        (* LOGE("failed to get fs size\n"); return -1; *)
        to_size_t (-1)
      else size
  end.

End ReadExt.

End Ext4.

(** ** The clone fallback *)

Module Clone.

Record MtdPartition : Type := Mtd {
  device_index : Z;
  size : Z;
  erase_size : Z;
  name : string
}.

Definition DATA_PARTITION_NAME : string := "userdata".
Definition DATABK_PARTITION_NAME : string := "databk".

Inductive ev : Type :=
| EvLog (lvl : loglevel) (msg : string)
| EvScan (found : Z)
| EvSimg2img (input output : string) (status : Z).

(** The platform as the routine sees it: /proc/mtd ([None] when it cannot be
    opened), the partition table that [mtd_scan_partitions] finds ([None] when
    the scan fails), and the status [simg2img] returns. *)
Record Env : Type := MkEnv {
  proc_mtd : option (list ascii);
  mtd_table : option (list MtdPartition);
  simg2img_status : Z;
  events : list ev
}.

Definition emit (e : ev) (env : Env) : Env :=
  MkEnv (proc_mtd env) (mtd_table env) (simg2img_status env) (events env ++ [e]).

Definition mtd_scan_partitions (env : Env) : Z * Env :=
  let found :=
    match mtd_table env with
    | Some t => Z.of_nat (length t)
    | None => -1
    end in
  (found, emit (EvScan found) env).

Definition mtd_find_partition_by_name (n : string) (env : Env)
  : option MtdPartition :=
  match mtd_table env with
  | Some t => List.find (fun p => String.eqb (name p) n) t
  | None => None
  end.

Definition simg2img (input output : string) (env : Env) : Z * Env :=
  (simg2img_status env, emit (EvSimg2img input output (simg2img_status env)) env).

Definition start_to_clone (data_devname databk_devname : string) (env : Env)
  : Z * Env :=
  let '(r, env) := simg2img databk_devname data_devname env in
  if negb (r =? 0) then
    (-1, emit (EvLog LogE "null of databk ->failed to clone\n") env)
  else (0, emit (EvLog LogI "Cloning %s to %s\n") env).

(** [sprintf(buf, "/dev/block/mtdblock%d", index)] *)
Definition mtdblock (index : Z) : string :=
  "/dev/block/mtdblock" ++ pretty.pretty index.

Definition clone_data_if_exist (env : Env) : outcome (Z * Env) :=
  (* nbytes = read(fd, buf, sizeof(buf) - 1); buf[nbytes] = '\0'; *)
  let nbytes :=
    match proc_mtd env with
    | Some content => Z.of_nat (Nat.min (length content) 2047)
    | None => -1
    end in
  if nbytes <? 0 then Undefined OutOfBounds else
  let env := emit (EvLog LogI "%s") env in
  let '(found, env) := mtd_scan_partitions env in
  if found <=? 0 then
    Done (-1, emit (EvLog LogE "clone_data_if_exist->error scanning partitions\n") env)
  else
  match mtd_find_partition_by_name DATABK_PARTITION_NAME env with
  | None =>
      Done (-1, emit (EvLog LogE "clone_data_if_exist->can't find %s partition\n") env)
  | Some databk_partition =>
      match mtd_find_partition_by_name DATA_PARTITION_NAME env with
      | None =>
          Done (-1, emit (EvLog LogE "clone_data_if_exist->can't find %s partition\n") env)
      | Some data_partition =>
          let data_devname := mtdblock (device_index data_partition) in
          let databk_devname := mtdblock (device_index databk_partition) in
          let '(r, env) := start_to_clone data_devname databk_devname env in
          if negb (r =? 0) then
            Done (-1, emit (EvLog LogE "clone_data_if_exist->error clone data\n") env)
          else Done (0, env)
      end
  end.

End Clone.

(** ** The menu loop *)

Module Menu.

(** The operations of [RecoveryUI] and [Device] that [get_menu_selection]
    calls, over a state [S] that stands for the UI and the device together
    (ui.h and device.h are not part of the sources).  The four [k...]
    constants are the negative action codes of [Device]. *)
Class Interface (S : Type) : Type := {
  FlushKeys : S -> S;
  StartMenu : list string -> list string -> Z -> S -> S;
  WaitKey : S -> Z * S;
  IsTextVisible : S -> bool;
  WasTextEverVisible : S -> bool;
  SelectMenu : Z -> S -> Z * S;
  EndMenu : S -> S;
  HandleMenuKey : Z -> Z -> S -> Z * S;
  LOGI : string -> S -> S;
  kNoAction : Z;
  kHighlightUp : Z;
  kHighlightDown : Z;
  kInvokeItem : Z
}.

Section Loop.
Context {S : Type} `{I : Interface S}.

(** The local variables of the loop. *)
Record locals : Type := Locals { selected : Z; chosen_item : Z }.

(** One turn of [while (chosen_item < 0) { ... }]: either the function
    returns, or the loop test is evaluated again. *)
Inductive turn : Type :=
| Return (value : Z) (s : S)
| Again (l : locals) (s : S).

Definition loop_body (menu_only : Z) (l : locals) (s : S) : turn :=
  let '(key, s) := WaitKey s in
  let visible := if IsTextVisible s then 1 else 0 in
  if key =? -1 then
    (* ui_wait_key() timed out *)
    if WasTextEverVisible s then Again l s
    else
      let s := LOGI "timed out waiting for key input; rebooting.\n" s in
      Return 0 (EndMenu s)
  else
    let '(action, s) := HandleMenuKey key visible s in
    if action <? 0 then
      if action =? kHighlightUp then
        let '(sel, s) := SelectMenu (selected l - 1) s in
        Again (Locals sel (chosen_item l)) s
      else if action =? kHighlightDown then
        let '(sel, s) := SelectMenu (selected l + 1) s in
        Again (Locals sel (chosen_item l)) s
      else if action =? kInvokeItem then
        Again (Locals (selected l) (selected l)) s
      else
        (* kNoAction, or no case of the switch *)
        Again l s
    else if menu_only =? 0 then
      Again (Locals (selected l) action) s
    else Again l s.

(** The loop; [None] when [fuel] turns were not enough to leave it. *)
Fixpoint menu_loop (fuel : nat) (menu_only : Z) (l : locals) (s : S)
  : option (Z * S) :=
  if chosen_item l <? 0 then
    match fuel with
    | O => None
    | Datatypes.S fuel' =>
        match loop_body menu_only l s with
        | Return v s' => Some (v, s')
        | Again l' s' => menu_loop fuel' menu_only l' s'
        end
    end
  else Some (chosen_item l, EndMenu s).

Definition get_menu_selection (fuel : nat) (headers items : list string)
    (menu_only initial_selection : Z) (s : S) : option (Z * S) :=
  let s := FlushKeys s in
  let s := StartMenu headers items initial_selection s in
  menu_loop fuel menu_only (Locals initial_selection (-1)) s.

End Loop.

End Menu.

(** ** The FAT32 label writer *)

Module Fat32.

Inductive ev : Type :=
| EvLog (lvl : loglevel) (msg : string)
| EvUnmount (volume : string)
| EvOpen (path : string) (ok : bool)
| EvSeek (offset : Z)
| EvRead (got : Z)
| EvWrite (at_pos : Z)
| EvClose.

(** The platform as the routine sees it: the status of
    [ensure_path_unmounted], the volume table, the partition table (both
    answer by name), the bytes of the raw device ([None] when [open] fails),
    the position of the descriptor, and the trace. *)
Record Env : Type := MkEnv {
  unmount_status : Z;
  volume_for_path : string -> option string;
  partition_index : string -> option Z;
  disk : option (list Z);
  pos : Z;
  events : list ev
}.

Definition emit (e : ev) (env : Env) : Env :=
  MkEnv (unmount_status env) (volume_for_path env) (partition_index env)
    (disk env) (pos env) (events env ++ [e]).

Definition with_pos (env : Env) (p : Z) : Env :=
  MkEnv (unmount_status env) (volume_for_path env) (partition_index env)
    (disk env) p (events env).

Definition with_disk (env : Env) (d : list Z) : Env :=
  MkEnv (unmount_status env) (volume_for_path env) (partition_index env)
    (Some d) (pos env) (events env).

Definition LOG (lvl : loglevel) (msg : string) (env : Env) : Env :=
  emit (EvLog lvl msg) env.

Definition disk_bytes (env : Env) : list Z := default [] (disk env).

(** [read(fd, buf, 512)] *)
Definition read512 (env : Env) : list Z * Z * Env :=
  let data := take 512 (drop (Z.to_nat (pos env)) (disk_bytes env)) in
  let got := Z.of_nat (length data) in
  (data, got, emit (EvRead got) (with_pos env (pos env + got))).

(** [lseek(fd, offset, SEEK_SET)] with the 32-bit [off_t] of the target: the
    unsigned argument is converted, and a negative offset is refused. *)
Definition lseek_set (offset : Z) (env : Env) : Env :=
  let off := s32 offset in
  emit (EvSeek off) (if off <? 0 then env else with_pos env off).

(** [lseek(fd, -512, SEEK_CUR)] *)
Definition lseek_back (env : Env) : Env :=
  let p := pos env - 512 in
  emit (EvSeek p) (if p <? 0 then env else with_pos env p).

(** [write(fd, buf, 512)] inside the device. *)
Definition write512 (buf : list Z) (env : Env) : Env :=
  let p := Z.to_nat (pos env) in
  let d := disk_bytes env in
  emit (EvWrite (pos env))
    (with_pos (with_disk env (take p d ++ buf ++ drop (p + 512) d)) (pos env + 512)).

Definition byte_at (buf : list Z) (i : Z) : Z := nth (Z.to_nat i) buf 0.

(** The [unsigned short] and the [unsigned int] stored at [buf + i], on the
    little-endian target. *)
Definition u16_at (buf : list Z) (i : Z) : Z :=
  byte_at buf i + 256 * byte_at buf (i + 1).
Definition u32_at (buf : list Z) (i : Z) : Z :=
  byte_at buf i + 256 * byte_at buf (i + 1)
  + 65536 * byte_at buf (i + 2) + 16777216 * byte_at buf (i + 3).

Definition code (c : ascii) : Z := Z.of_N (N_of_ascii c).

Definition toupper (c : Z) : Z :=
  if (97 <=? c) && (c <=? 122) then c - 32 else c.

(** [memset(volumeName, 0x20, 11); for (i < j) volumeName[i] = toupper(name[i]);]
    with [j = min(strlen(name), 11)]. *)
Definition volume_name (name : CStr.cstring) : list Z :=
  let up := map (fun c => toupper (code c)) (take 11 name) in
  up ++ replicate (11 - length up) 32.

(** [for (j = 0; j < 16; j++)]: the first directory entry that is empty or
    carries the volume attribute. *)
Fixpoint find_entry (n : nat) (j : Z) (buf : list Z) : option Z :=
  match n with
  | O => None
  | S n' =>
      let p := j * 32 in
      if byte_at buf p =? 0 then Some j
      else if negb (Z.land (byte_at buf (p + 11)) 8 =? 0) then Some j
      else find_entry n' (j + 1) buf
  end.

(** [memset(p, 0, 32); memcpy(p, volumeName, 11); p[11] = 8;] *)
Definition patch_entry (buf : list Z) (j : Z) (label : list Z) : list Z :=
  let p := Z.to_nat (j * 32) in
  take p buf ++ label ++ [8] ++ replicate 20 0 ++ drop (p + 32) buf.

Inductive scan : Type := Found | NotFound | ReadFailed.

(** [for (i = 0; i < nSecPerCluster; i++)] *)
Fixpoint scan_cluster (sectors : nat) (label : list Z) (env : Env) : scan * Env :=
  match sectors with
  | O => (NotFound, env)
  | S sectors' =>
      let '(buf, nRead, env) := read512 env in
      if negb (nRead =? 512) then
        (ReadFailed, LOG LogE "Read sector in find volume entry failed!\n" env)
      else
        match find_entry 16 0 buf with
        | Some j =>
            let buf := patch_entry buf j label in
            (Found, write512 buf (lseek_back env))
        | None => scan_cluster sectors' label env
        end
  end.

(** [while (clusterNo != 0)]: the status to return and the environment, or
    [None] when [fuel] clusters were not enough to end the chain. *)
Fixpoint walk_chain (fuel : nat) (nSecPerCluster nReservedSec clusterStartLba : Z)
    (label : list Z) (clusterNo : Z) (env : Env) : option (Z * Env) :=
  if clusterNo =? 0 then
    Some (-11, LOG LogE "Find volume entry failed!\n" env)
  else
    match fuel with
    | O => None
    | S fuel' =>
        let currentSec := u32 ((clusterNo - 2) * nSecPerCluster + clusterStartLba) in
        let env := lseek_set (u32 (currentSec * 512)) env in
        match scan_cluster (Z.to_nat nSecPerCluster) label env with
        | (ReadFailed, env) => Some (-9, env)
        | (Found, env) => Some (0, env)
        | (NotFound, env) =>
            (* next cluster *)
            let currentSec := u32 (u32 (clusterNo * 4) / 512 + nReservedSec) in
            let env := lseek_set (u32 (currentSec * 512)) env in
            let '(buf, nRead, env) := read512 env in
            if negb (nRead =? 512) then
              Some (-10, LOG LogE "Read sector in find next cluster failed!\n" env)
            else
              let next := u32_at buf (u32 (clusterNo * 4) mod 512) in
              walk_chain fuel' nSecPerCluster nReservedSec clusterStartLba label
                (if next =? 268435455 then 0 else next) env   (* 0xFFFFFFF *)
        end
    end.

(** [if (p = strstr(device, "/dev/block/mtd/by-name/")) strcpy(mtdName, p+23);
     else strcpy(mtdName, device);] *)
Definition mtd_name (device : string) : string :=
  match String.index 0 "/dev/block/mtd/by-name/" device with
  | Some i => String.substring (i + 23) (String.length device - (i + 23)) device
  | None => device
  end.

(** The part after the descriptor is open; [close(fd)] follows at the exit
    label. *)
Definition label_device (fuel : nat) (name : CStr.cstring) (env : Env)
  : option (Z * Env) :=
  (* 1. check fat32 dbr *)
  let '(buf, nRead, env) := read512 env in
  if negb (nRead =? 512) then
    Some (-5, LOG LogE "Read fat32 dbr failed!\n" env)
  else if negb (bool_decide (take 5 (drop 82 buf) = [70; 65; 84; 51; 50])) then
    Some (-6, LOG LogE "check system id in dbr failed\n" env)
  else if negb (byte_at buf 510 =? 85) || negb (byte_at buf 511 =? 170) then
    Some (-7, LOG LogE "check end flag in dbr failed!\n" env)
  else
    (* 2. get data from dbr *)
    let nSecPerCluster := byte_at buf 13 in
    let nReservedSec := u16_at buf 14 in
    let nFatNum := byte_at buf 16 in
    let nSecPerFat := u32_at buf 36 in
    let nRootCluster := u32_at buf 44 in
    let clusterStartLba := u32 (nReservedSec + nFatNum * nSecPerFat) in
    (* 3. find volume entry *)
    let j := Z.of_nat (CStr.strlen name) in
    if j <=? 0 then
      Some (-8, LOG LogE "Volume name is empty!\n" env)
    else
      walk_chain fuel nSecPerCluster nReservedSec clusterStartLba
        (volume_name name) nRootCluster env.

Definition set_fat32_volumename (fuel : nat) (volume : string)
    (name : CStr.cstring) (env : Env) : outcome (option (Z * Env)) :=
  let env := LOG LogI "set_fat32_volumename in\n" env in
  let finish (r : Z) (env : Env) :=
    Done (Some (r, LOG LogI "set_fat32_volumename out\n" env)) in
  let env := emit (EvUnmount volume) env in
  if negb (unmount_status env =? 0) then
    finish (-1) (LOG LogE "Can't unmount!\n" env)
  else
    match volume_for_path env volume with
    | None => finish (-2) (LOG LogE "Get volume failed!\n" env)
    | Some device =>
        let mtdName := mtd_name device in
        (* char mtdName[32] *)
        if (32 <=? String.length mtdName)%nat then Undefined OutOfBounds else
        match partition_index env mtdName with
        | None => finish (-3) (LOG LogE "failed to find partition\n" env)
        | Some index =>
            let path := ("/dev/mtd/mtd" ++ pretty.pretty index)%string in
            match disk env with
            | None =>
                finish (-4) (LOG LogE "Can't open\n" (emit (EvOpen path false) env))
            | Some _ =>
                let env := with_pos (emit (EvOpen path true) env) 0 in
                match label_device fuel name env with
                | None => Done None
                | Some (r, env) => finish r (emit EvClose env)
                end
            end
        end
    end.

End Fat32.

(** ** The messages of the sdcard update *)

Section SdcardMessage.
Context `{L : BcbLayout}.

(** [char cmd[100] = "recovery\n--update_package="; strcat(cmd, package_path);]
    The literal takes 26 bytes of the array, so a path of 74 bytes or more
    is stored past its end. *)
Definition set_sdcard_update_bootloader_message (package_path : option cstring)
    (w : World) : outcome World :=
  let boot := zero_message in
  let boot := set_command boot (strlcpy (command boot) (lit "boot-recovery")) in
  match package_path with
  | None =>
      let boot :=
        set_recovery boot (strlcpy (recovery boot) (lit "recovery" ++ [LF])) in
      Done (set_bootloader_message boot w)
  | Some package_path =>
      let cmd := lit "recovery" ++ [LF] ++ lit "--update_package="
                 ++ cstr package_path in
      if (100 <=? length cmd)%nat then Undefined OutOfBounds else
      let boot := set_recovery boot (strlcpy (recovery boot) cmd) in
      Done (set_bootloader_message boot w)
  end.

Definition set_sdcard_update_img_bootloader_message
    (package_path : option cstring) (w : World) : outcome World :=
  let boot := zero_message in
  let boot := set_command boot (strlcpy (command boot) (lit "boot-recovery")) in
  match package_path with
  | None =>
      let boot :=
        set_recovery boot (strlcpy (recovery boot) (lit "recovery" ++ [LF])) in
      Done (set_bootloader_message boot w)
  | Some package_path =>
      let cmd := lit "recovery" ++ [LF] ++ lit "--update_rkimage="
                 ++ cstr package_path in
      if (100 <=? length cmd)%nat then Undefined OutOfBounds else
      let boot := set_recovery boot (strlcpy (recovery boot) cmd) in
      Done (set_bootloader_message boot w)
  end.

End SdcardMessage.

(** ** load_locale_from_cache *)

Definition with_locale (w : World) (l : option cstring) : World :=
  MkWorld (bcb w) (files w) (modes w) (owners w) (cache_mounted w) (mount_ok w)
    (format_ok w) (tmplog_offset w) l (bAutoUpdateComplete w)
    (bClearbootmessage w) (updatepath w) (trace w).

(** [isspace] in the C locale: space, and the controls from tab to carriage
    return. *)
Definition isspace (c : ascii) : bool :=
  let n := nat_of_ascii c in
  (n =? 32)%nat || ((9 <=? n)%nat && (n <=? 13)%nat).

(** [for (i = 0; i < sizeof(buffer) && buffer[i]; ++i)
       if (!isspace(buffer[i])) buffer[j++] = buffer[i];]
    from the pair [(i, j)] on; the result is [j] and the array. *)
Fixpoint strip_spaces (fuel : nat) (i j : nat) (buffer : list ascii)
  : nat * list ascii :=
  match fuel with
  | O => (j, buffer)
  | S fuel' =>
      let c := nth i buffer NUL in
      if (i <? length buffer)%nat && negb (is_nul c) then
        if negb (isspace c)
        then strip_spaces fuel' (S i) (S j) (store buffer j c)
        else strip_spaces fuel' (S i) j buffer
      else (j, buffer)
  end.

(** [char buffer[80]] is not initialised: [stack] is what the 80 bytes hold
    when the function is entered.  The result of [fgets] is not tested, so
    at the end of the file the loop runs over those bytes; [buffer[j] = 0]
    with [j = 80] is a store past the array. *)
Definition load_locale_from_cache (stack : list ascii) (w : World)
  : outcome World :=
  let '(fp, w) := fopen_path LOCALE_FILE ModeR w in
  match fp with
  | Some fp =>
      let '(line, _) := fgets 79 (f_left fp) in
      let buffer :=
        match line with
        | [] => stack
        | _ :: _ => line ++ NUL :: drop (S (length line)) stack
        end in
      let '(j, buffer) := strip_spaces (length buffer) 0 0 buffer in
      if (length buffer <=? j)%nat then Undefined OutOfBounds else
      Done (with_locale w (Some (cstr (store buffer j NUL))))
  | None => Done w
  end.

(** ** prepend_title and wipe_data *)


(** [device->WipeData()] of device.h. *)
Class Device (S : Type) : Type := {
  WipeData : S -> Z * S
}.

Section WipeData.
Context {S : Type} `{I : Menu.Interface S} `{D : Device S}.
Variable api_version : string.


End WipeData.

(** ** main: the path of the update package *)

Definition with_updatepath (w : World) (p : cstring) : World :=
  MkWorld (bcb w) (files w) (modes w) (owners w) (cache_mounted w) (mount_ok w)
    (format_ok w) (tmplog_offset w) (locale w) (bAutoUpdateComplete w)
    (bClearbootmessage w) p (trace w).

(** [strncmp(a, b, n) == 0] on two strings. *)
Definition strncmp_eq (n : nat) (a b : cstring) : bool :=
  bool_decide (take n a = take n b).

Section UpdatePath.
(** [malloc n]: the [n] bytes of the block, not initialised. *)
Variable malloc : nat -> list ascii.
(** [findPackageAndMountUsbDevice] searches the USB devices; it is taken as
    it is. *)
Variable findPackageAndMountUsbDevice : cstring -> cstring.

(** For backwards compatibility on the cache partition only, if we're given
    an old 'root' path "CACHE:foo", change it to "/cache/foo". *)
Definition cache_root_path (update_package : cstring) : cstring :=
  if strncmp_eq 6 update_package (lit "CACHE:") then
    let len := (strlen update_package + 10)%nat in
    let modified_path := malloc len in
    let modified_path := strlcpy modified_path (lit "/cache/") in
    let modified_path := strlcat modified_path (drop 6 (cstr update_package)) in
    cstr modified_path
  else update_package.

(** [if (update_package) { ... strcpy(updatepath, update_package); }] with
    [char updatepath[128]]. *)
Definition resolve_update_path (update_package : cstring) (w : World)
  : outcome (cstring * World) :=
  let update_package := cache_root_path update_package in
  let update_package :=
    if strncmp_eq 16 update_package (lit "/mnt/usb_storage")
    then findPackageAndMountUsbDevice update_package
    else update_package in
  if (128 <=? strlen update_package)%nat then Undefined OutOfBounds
  else Done (update_package, with_updatepath w (cstr update_package)).

End UpdatePath.

(** ** update_directory: the menu of a directory *)

Inductive d_type : Type := DT_DIR | DT_REG | DT_OTHER.

(** [struct dirent]: the name and the type of an entry. *)
Record dirent : Type := Dirent { d_name : cstring; d_kind : d_type }.

Definition byte (c : ascii) : Z := Z.of_N (N_of_ascii c).

(** [strcmp] on two strings: the difference of the first two bytes that
    differ, taken as [unsigned char]; the end of a string counts as 0. *)
Fixpoint strcmp (a b : cstring) : Z :=
  match a, b with
  | [], [] => 0
  | [], y :: _ => 0 - byte y
  | x :: _, [] => byte x - 0
  | x :: a', y :: b' =>
      if Ascii.eqb x y then strcmp a' b' else byte x - byte y
  end.

Definition tolower (c : ascii) : ascii :=
  let n := nat_of_ascii c in
  if (65 <=? n)%nat && (n <=? 90)%nat then ascii_of_nat (n + 32) else c.

(** [name_len >= 4 && strncasecmp(de->d_name + (name_len-4), ".zip", 4) == 0] *)
Definition is_zip_name (name : cstring) : bool :=
  (4 <=? length name)%nat
  && bool_decide (map tolower (drop (length name - 4) name) = lit ".zip").

(** [while ((de = readdir(d)) != NULL) { ... }]: the directories, each with
    a slash appended, and the packages, in the order of the directory. *)
Fixpoint scan_directory (entries : list dirent) (dirs zips : list cstring)
  : list cstring * list cstring :=
  match entries with
  | [] => (dirs, zips)
  | de :: entries' =>
      let name := d_name de in
      match d_kind de with
      | DT_DIR =>
          (* skip "." and ".." entries *)
          if bool_decide (name = lit ".") || bool_decide (name = lit "..")
          then scan_directory entries' dirs zips
          else scan_directory entries' (dirs ++ [name ++ lit "/"]) zips
      | DT_REG =>
          if is_zip_name name
          then scan_directory entries' dirs (zips ++ [name])
          else scan_directory entries' dirs zips
      | DT_OTHER => scan_directory entries' dirs zips
      end
  end.

(** What is done with the item chosen in the menu. *)
Inductive browse : Type :=
| GoUp
| Descend (new_path : cstring)
| Install (new_path : cstring).

Section UpdateDirectory.
(** [qsort(base, n, sizeof(char* ), compare_string)] *)
Variable qsort : list cstring -> list cstring.

(** The items of the menu: [zips[0] = strdup("../")], the packages, both
    sorted, and then the sorted directories. *)
Definition directory_menu (entries : list dirent) : list cstring :=
  let '(dirs, zips) := scan_directory entries [] [lit "../"] in
  qsort zips ++ qsort dirs.

(** The body of the [do ... while] for the item chosen; [stack] is what
    [char new_path[PATH_MAX]] holds before it is written. *)
Definition browse_item (stack : list ascii) (path : cstring)
    (zips : list cstring) (chosen_item : nat) : option browse :=
  match zips !! chosen_item with
  | None => None
  | Some item =>
      if (chosen_item =? 0)%nat then
        (* item 0 is always "../" *)
        Some GoUp
      else
        let new_path := strlcpy stack path in
        let new_path := strlcat new_path (lit "/") in
        let new_path := strlcat new_path item in
        if bool_decide (last item = Some "/"%char) then
          (* recurse down into a subdirectory *)
          Some (Descend (cstr (store new_path (strlen new_path - 1) NUL)))
        else Some (Install (cstr new_path))
  end.

End UpdateDirectory.

(** * Vocabulary of the statements *)

Local Open Scope nat_scope.

(** A C string holds no NUL. *)
Definition nul_free (s : list ascii) : Prop := Forall (fun c => is_nul c = false) s.

(** The argument lines as [get_args] writes them after the [recovery] line. *)
Definition encode_lines (args : list cstring) : list ascii :=
  concat (map (fun a => a ++ [LF]) args).

(** What [strtok] returns as one token: not empty, no NUL, no delimiter. *)
Definition valid_token (delim : list ascii) (t : cstring) : Prop :=
  t <> [] /\ Forall (fun c => in_token delim c = true) t.

Definition is_log (e : event) : Prop :=
  match e with EvLog _ _ _ => True | _ => False end.

(** The two log lines at the head of [get_args]. *)
Definition header_logs (boot : bootloader_message) : list event :=
  (if first_byte_set (command boot)
   then [EvLog LogI "Boot command: %.*s\n" [cstr (command boot)]] else [])
  ++ (if first_byte_set (status boot)
      then [EvLog LogI "Boot status: %.*s\n" [cstr (status boot)]] else []).

(** The argument vector a run of [get_args] resolves, if the run is defined. *)
Definition resolved (o : outcome (list (option cstring) * World))
  : option (list (option cstring)) :=
  match o with
  | Done (argv, _) => Some argv
  | Undefined _ => None
  end.

(** The sizes of the three arrays in the bootloader.h of this release. *)
Definition aosp_layout : BcbLayout :=
  {| command_size := 32; status_size := 32; recovery_size := 1024 |}.

(** A freshly booted device: zeroed control block, no files, volumes that
    mount and format. *)
Definition blank_world : World :=
  MkWorld (zero_message (H := aosp_layout)) ∅ ∅ ∅ false true true 0 None
    false false [] [].

(** The control-block round trip as the specification words it: any list of
    at most 100 arguments of at most 4095 bytes each, once written by a run of
    [get_args], is what the next run resolves after index 0. *)
Definition round_trip_as_stated (L : BcbLayout) : Prop :=
  forall (prog : cstring) (args : list cstring) (w w1 : World),
    length (recovery (bcb w)) = recovery_size ->
    Forall nul_free args ->
    1 <= length args <= 100 ->
    Forall (fun a => length a <= 4095) args ->
    get_args (map Some (prog :: args)) w = Done (map Some (prog :: args), w1) ->
    forall argv0 w', bcb w' = bcb w1 -> length argv0 <= 1 ->
      exists a0 w2, get_args argv0 w' = Done (a0 :: map Some args, w2).

(** Two boots in a row: the first with the live arguments [argv], the second
    with the program name only. *)
Definition next_boot_arguments `{BcbLayout} (argv : list cstring) (w : World)
  : option (list (option cstring)) :=
  match get_args (map Some argv) w with
  | Done (_, w1) => resolved (get_args [Some (lit "recovery")] w1)
  | Undefined _ => None
  end.

(** A blank line of the command file, with its newline. *)
Definition blank_line (l : list ascii) : Prop := l = [LF] \/ l = [CR; LF].

(** A line of text, without its newline, that [fgets] reads whole into the
    4096-byte buffer and in which [strtok] finds a token: no NUL, no LF,
    shorter than the buffer, and a character other than CR. *)
Definition text_line (l : list ascii) : Prop :=
  nul_free l /\ Forall (fun c => c <> LF) l
  /\ length l < MAX_ARG_LENGTH - 1
  /\ Exists (fun c => c <> CR) l.

(** The control block gives the run no arguments: after its tier the
    argument count is still at most 1. *)
Definition bcb_leaves_no_arguments `{BcbLayout} (argv : list (option cstring))
    (w : World) : Prop :=
  length (args_from_bcb (bcb w) argv w).1.1 <= 1.

(** The blank-line failure as the claim words it: any command file that
    holds a blank line, once consulted, ends the run in the null
    dereference. *)
Definition blank_line_fails_as_stated (L : BcbLayout) : Prop :=
  forall (argv : list (option cstring)) (w : World) (pre blank post : list ascii),
    length argv <= 1 ->
    bcb_leaves_no_arguments argv w ->
    mount_ok w = true ->
    files w !! COMMAND_FILE = Some (pre ++ blank ++ post) ->
    (pre = [] \/ last pre = Some LF) ->
    blank_line blank ->
    get_args argv w = Undefined NullString.

(** A command file of [n] lines "--a" followed by a blank line. *)
Definition lines_then_blank (n : nat) : list ascii :=
  encode_lines (replicate n (lit "--a")) ++ [LF].

Definition with_command_file (content : list ascii) (w : World) : World :=
  with_files w (<[COMMAND_FILE := content]> (files w)).

(** What the [fgets]/[fputs] loop of [copy_log_file] writes for a stream:
    each chunk up to its first NUL. *)
Fixpoint copied (fuel : nat) (stream : list ascii) : list ascii :=
  match fuel with
  | O => []
  | S fuel' =>
      let '(buf, rest) := fgets 4095 stream in
      match buf with
      | [] => []
      | _ :: _ => cstr buf ++ copied fuel' rest
      end
  end.

(** Two worlds that differ in their traces at most. *)
Definition same_state (w w' : World) : Prop := with_trace w [] = with_trace w' [].

Definition is_unlink_warning (e : event) : Prop :=
  match e with EvLog LogW _ _ => True | _ => False end.

(** A world rebuilt from [w] with new values for what a run can change; the
    answers of the platform and the constant globals are those of [w]. *)
Definition upd (w : World) (b : bootloader_message)
    (f : gmap string (list ascii)) (m : gmap string Z) (o : gmap string (Z * Z))
    (mounted : bool) (off : Z) (auto : bool) (t : list event) : World :=
  MkWorld b f m o mounted (mount_ok w) (format_ok w) off (locale w) auto
    (bClearbootmessage w) (updatepath w) t.

Definition no_warning (t : list event) : Prop :=
  Forall (fun e => ~ is_unlink_warning e) t.

(** The content [copy_log_file] leaves in its destination and the offset it
    leaves in [tmplog_offset], from the source content [src], the old
    destination content [dst] and the old offset. *)
Definition log_after (append : bool) (src dst : option (list ascii)) (off : Z)
  : list ascii :=
  (if append then default [] dst else [])
  ++ match src with
     | Some t =>
         let stream := drop (if append then fseek_set off else O) t in
         copied (length stream) stream
     | None => []
     end.

Definition offset_after (append : bool) (src : option (list ascii)) (off : Z) : Z :=
  match src with
  | Some t => if append then ftell_at_eof (fseek_set off) t else off
  | None => off
  end.

(** The bytes of the flag file, [strflag] written out whole. *)
Definition flag_bytes (path : cstring) : list ascii :=
  let s := lit "success$path=" ++ path in s ++ zeroed (160 - length s).

(** The files, permission bits, owners, control block and offset that
    [finish_recovery] leaves when the cache volume mounts, block by block. *)
Definition intent_files (send_intent : option cstring)
    (f : gmap string (list ascii)) : gmap string (list ascii) :=
  match send_intent with
  | Some s => <[INTENT_FILE := cstr s]> f
  | None => f
  end.

Definition locale_files (loc : option cstring)
    (f : gmap string (list ascii)) : gmap string (list ascii) :=
  match loc with
  | Some l => <[LOCALE_FILE := cstr l]> f
  | None => f
  end.

Definition logs_files (off : Z) (f : gmap string (list ascii))
  : gmap string (list ascii) :=
  <[LAST_INSTALL_FILE := log_after false (f !! TEMPORARY_INSTALL_FILE) None 0]>
    (<[LAST_LOG_FILE := log_after false (f !! TEMPORARY_LOG_FILE) None 0]>
       (<[LOG_FILE := log_after true (f !! TEMPORARY_LOG_FILE) (f !! LOG_FILE) off]>
          f)).

Definition flag_files (auto : bool) (path : cstring)
    (f : gmap string (list ascii)) : gmap string (list ascii) :=
  if auto then <[FLAG_FILE := flag_bytes path]> f else f.

Definition finish_files (send_intent : option cstring) (w : World)
  : gmap string (list ascii) :=
  delete COMMAND_FILE
    (flag_files (bAutoUpdateComplete w) (updatepath w)
       (logs_files (tmplog_offset w)
          (locale_files (locale w) (intent_files send_intent (files w))))).

Definition finish_modes (w : World) : gmap string Z :=
  <[LAST_INSTALL_FILE := 420%Z]>
    (<[LAST_LOG_FILE := 416%Z]> (<[LOG_FILE := 384%Z]> (modes w))).

Definition finish_owners (w : World) : gmap string (Z * Z) :=
  <[LOG_FILE := (1000%Z, 1000%Z)]> (owners w).

Definition finish_bcb `{BcbLayout} (w : World) : bootloader_message :=
  if bClearbootmessage w then bcb w else zero_message.

(** The world a run of [get_args] leaves. *)
Definition world_of (o : outcome (list (option cstring) * World)) : World :=
  match o with
  | Done (_, w) => w
  | Undefined _ => blank_world
  end.

(** The world after a boot with one empty live argument. *)
Definition after_empty_argument : World :=
  world_of (get_args (L := aosp_layout)
              (map Some [lit "/sbin/recovery"; []]) blank_world).

(** Two runs of [finish_recovery] in a row. *)
Definition finish_twice `{BcbLayout} (send_intent : option cstring) (w : World)
  : outcome World :=
  let* w1 := finish_recovery send_intent w in finish_recovery send_intent w1.

Definition bcb_of (o : outcome World) : option bootloader_message :=
  match o with
  | Done w => Some (bcb w)
  | Undefined _ => None
  end.

(** A device on which an earlier step asked to stay in recovery: the control
    block holds the boot-recovery command and [bClearbootmessage] is set. *)
Definition keep_recovery_world : World :=
  MkWorld
    (BootMsg (strlcpy (zeroed 32) (lit "boot-recovery")) (zeroed 32)
       (strlcpy (zeroed 1024) (lit "recovery" ++ [LF])))
    ∅ ∅ ∅ false true true 0 None false true [] [].

(** A device with a temporary log of two lines and a locale. *)
Definition logged_world : World :=
  MkWorld (zero_message (H := aosp_layout))
    {[ TEMPORARY_LOG_FILE := lit "line 1" ++ [LF] ++ lit "line 2" ++ [LF];
       COMMAND_FILE := lit "--wipe_cache" ++ [LF] ]}
    ∅ ∅ false true true 0 (Some (lit "en_US")) false false [] [].

(** The log-offset invariant as the claim words it: the copy that follows an
    erase of the cache volume appends none of the bytes flushed before the
    erase, that is, only what lies behind the old offset. *)
Definition no_recopy_as_stated : Prop :=
  forall (w : World) (t : list ascii),
    mount_ok w = true ->
    files w !! TEMPORARY_LOG_FILE = Some t ->
    let w1 := snd (erase_volume "/cache" w) in
    let w2 := copy_log_file TEMPORARY_LOG_FILE LOG_FILE true w1 in
    let rest := drop (fseek_set (tmplog_offset w)) t in
    files w2 !! LOG_FILE
    = Some (default [] (files w1 !! LOG_FILE) ++ copied (length rest) rest).

(** A device whose temporary log of four bytes has been flushed to the
    cumulative log already; [fmt] says whether formatting works. *)
Definition flushed_world (fmt : bool) : World :=
  MkWorld (zero_message (H := aosp_layout))
    {[ TEMPORARY_LOG_FILE := lit "abc" ++ [LF]; LOG_FILE := lit "abc" ++ [LF] ]}
    ∅ ∅ true true fmt 4 None false false [] [].

Definition log_after_erase (fmt : bool) : option (list ascii) :=
  files (copy_log_file TEMPORARY_LOG_FILE LOG_FILE true
           (snd (erase_volume "/cache" (flushed_world fmt)))) !! LOG_FILE.

(** ** The ext4 reader *)

Local Open Scope Z_scope.

(** The bytes [read_ext] reads as the superblock, the structure it sees in
    them, and the descriptor once the superblock is read. *)
Definition superblock_read `{Ext4.Ext4Lib} (f : Ext4.fd_state) : list Z :=
  take (Z.to_nat Ext4.sizeof_sb) (drop (Z.to_nat 1024) (Ext4.fd_bytes f)).

Definition superblock_of `{Ext4.Ext4Lib} (f : Ext4.fd_state)
  : Ext4.ext4_super_block :=
  Ext4.sb_of_bytes (superblock_read f).

Definition after_superblock `{Ext4.Ext4Lib} (f : Ext4.fd_state) : Ext4.fd_state :=
  Ext4.Fd (Ext4.fd_bytes f) (1024 + Ext4.sizeof_sb)
    (Ext4.fd_io f ++ [Ext4.IoSeek 1024;
                      Ext4.IoRead Ext4.sizeof_sb Ext4.sizeof_sb]).

(** The length the file system reports, as [ext4_parse_sb] computes it. *)
Definition reported_length `{Ext4.Ext4Lib} (f : Ext4.fd_state) : Z :=
  Ext4.len (fst (Ext4.ext4_parse_sb (superblock_of f))).

(** ** Instances for the ext4 reader *)

Definition le_bytes (bytes : list Z) (offset : nat) (n : nat) : Z :=
  fold_right (fun b acc => b + 256 * acc) 0 (take n (drop offset bytes)).

(** An instance with the on-disk layout of ext4: a superblock of 1024 bytes,
    little-endian fields at their offsets ([s_blocks_count_lo] at 4,
    [s_first_data_block] at 20, [s_log_block_size] at 24,
    [s_blocks_per_group] at 32, [s_magic] at 56, [s_state] at 58), the magic
    0xEF53, the valid bit 1, 32-byte group descriptors and a 32-bit [size_t]. *)
Definition ext4_layout : Ext4.Ext4Lib :=
  {| Ext4.sizeof_sb := 1024;
     Ext4.sb_of_bytes := fun bytes =>
       Ext4.SuperBlock (le_bytes bytes 56 2) (le_bytes bytes 58 2) bytes;
     Ext4.EXT4_SUPER_MAGIC := 61267;
     Ext4.EXT4_VALID_FS := 1;
     Ext4.ext4_parse_sb := fun sb =>
       let bytes := Ext4.sb_bytes sb in
       let block_size := Z.shiftl 1024 (le_bytes bytes 24 4) in
       let len_blocks := le_bytes bytes 4 4 in
       let first := le_bytes bytes 20 4 in
       let per_group := le_bytes bytes 32 4 in
       let groups := (len_blocks - first + per_group - 1) / per_group in
       (Ext4.FsInfo (block_size * len_blocks) block_size,
        Ext4.FsAuxInfo first ((groups * 32 + block_size - 1) / block_size));
     Ext4.size_t_bits := 32 |}.

Definition put_le (offset : nat) (n : nat) (v : Z) (bytes : list Z) : list Z :=
  take offset bytes
  ++ map (fun i => (v / 256 ^ Z.of_nat i) mod 256) (seq 0 n)
  ++ drop (offset + n) bytes.

(** A superblock with the given magic, state and block count: 4096-byte
    blocks, 32768 blocks per group, first data block 0. *)
Definition superblock_bytes (magic state blocks : Z) : list Z :=
  put_le 4 4 blocks
    (put_le 20 4 0
       (put_le 24 4 2
          (put_le 32 4 32768
             (put_le 56 2 magic (put_le 58 2 state (replicate 1024 0)))))).

(** A device that holds the superblock at byte 1024 and a zeroed block of
    group descriptors at byte 4096. *)
Definition ext4_device (magic state blocks : Z) : list Z :=
  replicate 1024 0 ++ superblock_bytes magic state blocks ++ replicate 6144 0.

Local Close Scope Z_scope.

(** ** The clone fallback *)

Definition is_simg2img (e : Clone.ev) : Prop :=
  match e with Clone.EvSimg2img _ _ _ => True | _ => False end.

(** A partition table without the backup partition. *)
Definition table_without_databk : list Clone.MtdPartition :=
  [Clone.Mtd 0 4194304 16384 "misc"; Clone.Mtd 1 16777216 16384 "kernel";
   Clone.Mtd 2 1073741824 16384 "userdata"].

Definition env_without_databk : Clone.Env :=
  Clone.MkEnv (Some (lit "dev: size erasesize name")) (Some table_without_databk)
    0%Z [].

(** ** The menu loop *)

(** A scripted user interface: the keys still to come (the wait times out
    when none is left), whether text is and ever was visible, the number of
    menu items, whether a menu is shown, and the lines logged. *)
Record Script : Type := MkScript {
  keys : list Z;
  text_visible : bool;
  text_ever_visible : bool;
  menu_items : Z;
  menu_shown : bool;
  logged : list string
}.

Definition KEY_UP : Z := 103.
Definition KEY_DOWN : Z := 108.
Definition KEY_ENTER : Z := 28.

#[export] Instance scripted : Menu.Interface Script := {|
  Menu.FlushKeys s := s;
  Menu.StartMenu _ items _ s :=
    MkScript (keys s) (text_visible s) (text_ever_visible s)
      (Z.of_nat (length items)) true (logged s);
  Menu.WaitKey s :=
    match keys s with
    | [] => ((-1)%Z, s)
    | k :: rest =>
        (k, MkScript rest (text_visible s) (text_ever_visible s) (menu_items s)
              (menu_shown s) (logged s))
    end;
  Menu.IsTextVisible := text_visible;
  Menu.WasTextEverVisible := text_ever_visible;
  Menu.SelectMenu sel s :=
    ((if (sel <? 0)%Z then 0 else
      if (menu_items s <=? sel)%Z then menu_items s - 1 else sel)%Z, s);
  Menu.EndMenu s :=
    MkScript (keys s) (text_visible s) (text_ever_visible s) (menu_items s)
      false (logged s);
  Menu.HandleMenuKey key visible s :=
    ((if (visible =? 0)%Z then -1 else
      if (key =? KEY_UP)%Z then -2 else
      if (key =? KEY_DOWN)%Z then -3 else
      if (key =? KEY_ENTER)%Z then -4 else -1)%Z, s);
  Menu.LOGI msg s :=
    MkScript (keys s) (text_visible s) (text_ever_visible s) (menu_items s)
      (menu_shown s) (logged s ++ [msg]);
  Menu.kNoAction := (-1)%Z;
  Menu.kHighlightUp := (-2)%Z;
  Menu.kHighlightDown := (-3)%Z;
  Menu.kInvokeItem := (-4)%Z
|}.

(** A screen that never showed text and has no key pending, and one on which
    the user moves down once and confirms. *)
Definition dark_screen : Script := MkScript [] false false 3 true [].
Definition lit_screen : Script :=
  MkScript [KEY_DOWN; KEY_ENTER] true true 3 true [].

(** ** The FAT32 label writer *)

Definition is_write (e : Fat32.ev) : Prop :=
  match e with Fat32.EvWrite _ => True | _ => False end.

(** An access to the raw device: opening it, seeking, reading or writing. *)
Definition is_device_access (e : Fat32.ev) : bool :=
  match e with
  | Fat32.EvOpen _ _ | Fat32.EvSeek _ | Fat32.EvRead _ | Fat32.EvWrite _ => true
  | _ => false
  end.

Definition is_log_of (msg : string) (e : Fat32.ev) : bool :=
  match e with Fat32.EvLog _ m => String.eqb m msg | _ => false end.

(** The events up to the first one that satisfies [p]. *)
Fixpoint events_before (p : Fat32.ev -> bool) (t : list Fat32.ev)
  : list Fat32.ev :=
  match t with
  | [] => []
  | e :: t' => if p e then [] else e :: events_before p t'
  end.

(** What a call leaves of the environment: the platform answers and the
    device bytes as they were, the trace longer by [t]. *)
Definition extends (env env' : Fat32.Env) (t : list Fat32.ev) : Prop :=
  Fat32.unmount_status env' = Fat32.unmount_status env
  /\ Fat32.volume_for_path env' = Fat32.volume_for_path env
  /\ Fat32.partition_index env' = Fat32.partition_index env
  /\ Fat32.disk env' = Fat32.disk env
  /\ Fat32.events env' = Fat32.events env ++ t.

(** The device name of the volume fits the 32 bytes of [mtdName]. *)
Definition device_name_fits (volume : string) (env : Fat32.Env) : Prop :=
  forall device, Fat32.volume_for_path env volume = Some device ->
    (String.length (Fat32.mtd_name device) < 32)%nat.

(** A FAT32 volume of three sectors: the boot record (one sector per
    cluster, one reserved sector, one table of one sector, root directory in
    cluster 2), the table, and a root directory whose first entry is a
    sub-directory. *)
Definition fat32_boot_record : list Z :=
  (<[13%nat := 1]> (<[14%nat := 1]> (<[16%nat := 1]> (<[36%nat := 1]>
   (<[44%nat := 2]> (<[82%nat := 70]> (<[83%nat := 65]> (<[84%nat := 84]>
   (<[85%nat := 51]> (<[86%nat := 50]> (<[510%nat := 85]> (<[511%nat := 170]>
   (replicate 512 0)))))))))))))%Z.

Definition fat32_root_directory : list Z :=
  (<[0%nat := 65]> (<[11%nat := 16]> (replicate 512 0)))%Z.

Definition fat32_disk : list Z :=
  fat32_boot_record ++ replicate 512 0%Z ++ fat32_root_directory.

Definition sdcard_env : Fat32.Env :=
  Fat32.MkEnv 0
    (fun v => if String.eqb v "/sdcard"
              then Some "/dev/block/mtd/by-name/user" else None)
    (fun n => if String.eqb n "user" then Some 7%Z else None)
    (Some fat32_disk) 0 [].

(** The events of a call with the empty name on that volume. *)
Definition empty_name_events : list Fat32.ev :=
  match Fat32.set_fat32_volumename 5 "/sdcard" [] sdcard_env with
  | Done (Some (_, env)) => Fat32.events env
  | _ => []
  end.

(** The order of the specification: the name is checked before any access
    to the raw device. *)
Definition name_checked_first_as_stated : Prop :=
  forall fuel volume env r env',
    Fat32.set_fat32_volumename fuel volume [] env = Done (Some (r, env')) ->
    forallb (fun e => negb (is_device_access e))
      (events_before (is_log_of "Volume name is empty!\n")
         (drop (length (Fat32.events env)) (Fat32.events env'))) = true.

(** ** Further vocabulary *)

Local Open Scope nat_scope.

(** The text of a command file: each line with its ending, LF or CR LF. *)
Definition command_text (lines : list (cstring * bool)) : list ascii :=
  concat (map (fun l : cstring * bool => l.1 ++ (if l.2 then [CR; LF] else [LF])) lines).

(** A device that holds a command file of two lines, the second ended by
    CR LF. *)
Definition command_file_world : World :=
  MkWorld (zero_message (H := aosp_layout))
    {[ COMMAND_FILE := command_text [(lit "--wipe_data", false);
                                     (lit "--locale=en_US", true)] ]}
    ∅ ∅ false true true 0 None false false [] [].

(** A line of the command file that is one token for [strtok] and that
    [fgets] reads whole, its ending included. *)
Definition plain_line (l : cstring * bool) : Prop :=
  valid_token [CR; LF] l.1 /\ length l.1 + 2 < MAX_ARG_LENGTH.

(** The control block that the sdcard update stores for the text [cmd] of
    its recovery field. *)
Definition sdcard_block `{BcbLayout} (cmd : cstring) : bootloader_message :=
  BootMsg (strlcpy (zeroed command_size) (lit "boot-recovery"))
    (zeroed status_size) (strlcpy (zeroed recovery_size) cmd).

(** A device whose cache volume cannot be mounted. *)
Definition unmountable_world : World :=
  MkWorld (BootMsg (strlcpy (zeroed 32) (lit "boot-recovery")) (zeroed 32)
             (strlcpy (zeroed 1024) (lit "recovery" ++ [LF])))
    {[ TEMPORARY_LOG_FILE := lit "line 1" ++ [LF] ]}
    ∅ ∅ false false true 0 None false false [] [].

(** What [load_locale_from_cache] keeps of a line: the characters that are
    not white space. *)
Definition without_spaces (s : list ascii) : list ascii :=
  List.filter (fun c => negb (isspace c)) s.

(** A device whose cache volume holds a saved locale, line end included. *)
Definition locale_world : World :=
  MkWorld (zero_message (H := aosp_layout))
    {[ LOCALE_FILE := lit "en_US" ++ [CR; LF] ]}
    ∅ ∅ false true true 0 None false false [] [].

(** Counting the events of a trace of the label writer. *)
Definition count_events (p : Fat32.ev -> bool) (t : list Fat32.ev) : nat :=
  length (List.filter p t).

Definition is_opened (e : Fat32.ev) : bool :=
  match e with Fat32.EvOpen _ true => true | _ => false end.
Definition is_closed (e : Fat32.ev) : bool :=
  match e with Fat32.EvClose => true | _ => false end.
Definition is_written (e : Fat32.ev) : bool :=
  match e with Fat32.EvWrite _ => true | _ => false end.

(** The three counts of a stretch of trace that holds no open and no close. *)
Definition inner (t : list Fat32.ev) (writes : nat) : Prop :=
  count_events is_opened t = 0 /\ count_events is_closed t = 0
  /\ count_events is_written t = writes.


(** The environment after the label "sdcard" was written there. *)
Definition sdcard_labelled : Fat32.Env :=
  match Fat32.set_fat32_volumename 5 "/sdcard" (lit "sdcard") sdcard_env with
  | Done (Some (_, env)) => env
  | _ => sdcard_env
  end.

(** The calls of the sparse-image conversion in a trace of the clone. *)
Definition is_conversion (e : Clone.ev) : bool :=
  match e with Clone.EvSimg2img _ _ _ => true | _ => false end.

(** A partition table with both partitions, and a platform on which the
    conversion answers [status]. *)
Definition table_with_databk : list Clone.MtdPartition :=
  [Clone.Mtd 0 4194304 16384 "misc"; Clone.Mtd 5 1073741824 16384 "userdata";
   Clone.Mtd 9 1073741824 16384 "databk"].

Definition env_with_databk (status : Z) : Clone.Env :=
  Clone.MkEnv (Some (lit "dev: size erasesize name")) (Some table_with_databk)
    status [].

(** ** Wiping *)

#[export] Instance scripted_device : Device Script := {|
  WipeData s := (0%Z, s)
|}.







(** ** The menu of a directory *)

Local Open Scope nat_scope.

(** A list of strings in the order of [strcmp]. *)
Definition ascending (l : list cstring) : Prop :=
  forall i j a b, i < j -> l !! i = Some a -> l !! j = Some b ->
    (strcmp a b <= 0)%Z.

(** The packages that [update_directory] lists, "../" included. *)
Definition listed_packages (entries : list dirent) : list cstring :=
  (scan_directory entries [] [lit "../"]).2.

(** [PATH_MAX] of limits.h. *)
Definition PATH_MAX : nat := 4096.

(** A directory with one package whose name sorts before "../", and the
    two strings in the order of [strcmp]. *)
Definition patch_directory : list dirent :=
  [Dirent (lit "+patch.zip") DT_REG; Dirent (lit "notes.txt") DT_REG;
   Dirent (lit ".") DT_DIR; Dirent (lit "..") DT_DIR].

Definition sort_two (l : list cstring) : list cstring :=
  match l with
  | [a; b] => if (strcmp a b <=? 0)%Z then [a; b] else [b; a]
  | _ => l
  end.

(** The world that [finish_recovery] leaves of [logged_world]. *)
Definition finished_world : World :=
  match finish_recovery (L := aosp_layout) (Some (lit "done")) logged_world with
  | Done w => w
  | Undefined _ => logged_world
  end.

(** * Properties *)

(** ** C strings *)



Lemma span_app {A} (p : A -> bool) l : (span p l).1 ++ (span p l).2 = l.
Proof.
  induction l as [|x l IH]; simpl; [done|].
  destruct (p x); [|done]. destruct (span p l) as [a b]. simpl in *. by f_equal.
Qed.

Lemma span_fst_Forall {A} (p : A -> bool) l : Forall (fun x => p x = true) (span p l).1.
Proof.
  induction l as [|x l IH]; simpl; [constructor|].
  destruct (p x) eqn:E; [|constructor].
  destruct (span p l) as [a b]. simpl in *. by constructor.
Qed.

Lemma span_snd_head {A} (p : A -> bool) l x r :
  (span p l).2 = x :: r -> p x = false.
Proof.
  induction l as [|y l IH]; simpl; [done|].
  destruct (p y) eqn:E.
  - destruct (span p l) as [a b]. simpl in *. done.
  - simpl. intros [= <- <-]. done.
Qed.

Lemma span_stop {A} (p : A -> bool) a x r :
  Forall (fun y => p y = true) a -> p x = false -> span p (a ++ x :: r) = (a, x :: r).
Proof.
  intros Ha Hx. induction Ha as [|y a Hy _ IH]; simpl.
  - by rewrite Hx.
  - by rewrite Hy, IH.
Qed.

Lemma span_all {A} (p : A -> bool) a :
  Forall (fun y => p y = true) a -> span p a = (a, []).
Proof.
  intros Ha. induction Ha as [|y a Hy _ IH]; simpl; [done|]. by rewrite Hy, IH.
Qed.

Lemma span_length {A} (p : A -> bool) l :
  length (span p l).1 + length (span p l).2 = length l.
Proof. rewrite <- (span_app p l) at 3. by rewrite length_app. Qed.

Lemma cstr_nul_free buf : nul_free (cstr buf).
Proof.
  unfold cstr, nul_free. eapply Forall_impl; [apply span_fst_Forall|].
  simpl. intros c H. by apply negb_true_iff.
Qed.

Lemma nul_free_span s : nul_free s -> Forall (fun c => negb (is_nul c) = true) s.
Proof. intros H. eapply Forall_impl; [exact H|]. by intros c ->. Qed.

Lemma cstr_terminated s r : nul_free s -> cstr (s ++ NUL :: r) = s.
Proof.
  intros H. unfold cstr. rewrite span_stop; [done| by apply nul_free_span | done].
Qed.

Lemma cstr_whole s : nul_free s -> cstr s = s.
Proof. intros H. unfold cstr. rewrite span_all; [done|by apply nul_free_span]. Qed.

Lemma strlen_le buf : strlen buf <= length buf.
Proof. unfold strlen, cstr. pose proof (span_length (fun c => negb (is_nul c)) buf). lia. Qed.

(* An array that holds a terminator splits at it. *)
Lemma cstr_split buf :
  strlen buf < length buf -> exists junk, buf = cstr buf ++ NUL :: junk.
Proof.
  unfold strlen, cstr. intros H.
  pose proof (span_app (fun c => negb (is_nul c)) buf) as Happ.
  pose proof (span_length (fun c => negb (is_nul c)) buf) as Hlen.
  destruct (span (fun c => negb (is_nul c)) buf) as [a b] eqn:E. simpl in *.
  destruct b as [|x b]; [exfalso; simpl in *; lia|].
  assert (Hx : negb (is_nul x) = false).
  { apply (span_snd_head (fun c => negb (is_nul c)) buf x b). by rewrite E. }
  apply negb_false_iff in Hx. unfold is_nul in Hx. apply Ascii.eqb_eq in Hx. subst x.
  exists b. done.
Qed.

Lemma length_strlcpy dst src : length (strlcpy dst src) = length dst.
Proof.
  unfold strlcpy. destruct (length dst) as [|room] eqn:E; [done|].
  rewrite length_app, length_take. simpl. rewrite length_drop. lia.
Qed.

Lemma cstr_strlcpy dst src :
  nul_free src -> 0 < length dst ->
  cstr (strlcpy dst src) = take (length dst - 1) src.
Proof.
  intros Hs Hd. unfold strlcpy. destruct (length dst) as [|room] eqn:E; [lia|].
  rewrite cstr_terminated.
  - replace (S room - 1) with room by lia.
    destruct (decide (length src <= room)).
    + rewrite Nat.min_l by lia. by rewrite !take_ge by lia.
    + by rewrite Nat.min_r by lia.
  - by apply Forall_take.
Qed.

Lemma length_strlcat dst src : length (strlcat dst src) = length dst.
Proof.
  unfold strlcat. case_match; [done|].
  apply Nat.leb_gt in H.
  rewrite !length_app, !length_take. simpl. rewrite length_drop. lia.
Qed.

Lemma cstr_strlcat dst src :
  nul_free src -> strlen dst < length dst ->
  cstr (strlcat dst src) = take (length dst - 1) (cstr dst ++ src).
Proof.
  intros Hs Hd. unfold strlcat.
  destruct (length dst <=? strlen dst) eqn:E; [apply Nat.leb_le in E; lia|].
  destruct (cstr_split dst Hd) as [junk Hj].
  assert (Ht : take (strlen dst) dst = cstr dst).
  { rewrite Hj at 2. unfold strlen. by rewrite take_app_length. }
  rewrite Ht. rewrite app_assoc. rewrite cstr_terminated.
  - rewrite take_app. unfold strlen.
    rewrite (take_ge (cstr dst)) by (unfold strlen in Hd; lia).
    f_equal. unfold strlen in *.
    destruct (decide (length src <= length dst - length (cstr dst) - 1)).
    + rewrite Nat.min_l by lia. rewrite !take_ge by lia. done.
    + rewrite Nat.min_r by lia. f_equal. lia.
  - apply Forall_app. split; [apply cstr_nul_free|by apply Forall_take].
Qed.

Lemma strlen_strlcpy dst src :
  nul_free src -> 0 < length dst -> strlen (strlcpy dst src) < length (strlcpy dst src).
Proof.
  intros. unfold strlen. rewrite cstr_strlcpy, length_strlcpy by done.
  rewrite length_take. lia.
Qed.

Lemma strlen_strlcat dst src :
  nul_free src -> strlen dst < length dst ->
  strlen (strlcat dst src) < length (strlcat dst src).
Proof.
  intros. unfold strlen at 1. rewrite cstr_strlcat, length_strlcat by done.
  rewrite length_take. lia.
Qed.

(** ** Encoding and decoding the argument lines *)



Lemma take_take_app {A} n (x y : list A) : take n (take n x ++ y) = take n (x ++ y).
Proof.
  rewrite !take_app, take_take, Nat.min_id, length_take.
  destruct (decide (n <= length x)).
  - rewrite Nat.min_l by lia. replace (n - length x) with 0 by lia.
    by rewrite Nat.sub_diag.
  - rewrite Nat.min_r by lia. done.
Qed.

Lemma append_arguments_spec args : forall rec,
  Forall nul_free args -> strlen rec < length rec ->
  exists rec', append_arguments rec (map Some args) = Done rec'
    /\ length rec' = length rec
    /\ cstr rec' = take (length rec - 1) (cstr rec ++ encode_lines args).
Proof.
  induction args as [|a args IH]; intros rec Hn Ht.
  - simpl. exists rec. split; [done|]. split; [done|].
    unfold encode_lines. simpl. rewrite app_nil_r, take_ge; [done|]. unfold strlen in Ht. lia.
  - inversion Hn as [|? ? Ha Hn']; subst. clear Hn. rename Hn' into Hn.
    assert (HLF : nul_free [LF]) by (repeat constructor).
    pose proof (strlen_strlcat rec a Ha Ht) as H1.
    pose proof (strlen_strlcat _ [LF] HLF H1) as H2.
    destruct (IH _ Hn H2) as (rec' & E & Hl & Hc).
    exists rec'. split; [exact E|].
    rewrite !length_strlcat in Hl. split; [done|].
    rewrite Hc, !length_strlcat.
    rewrite (cstr_strlcat _ [LF]) by done. rewrite length_strlcat.
    rewrite (cstr_strlcat rec a) by done.
    rewrite !take_take_app. unfold encode_lines. simpl.
    rewrite <- !app_assoc. rewrite take_take_app. by rewrite <- !app_assoc.
Qed.


Lemma in_token_not_delim delim c : in_token delim c = true -> is_delim delim c = false.
Proof.
  unfold in_token, is_delim. destruct (is_nul c); simpl; [done|].
  by intros ->%negb_true_iff.
Qed.

Lemma in_token_not_nul delim c : in_token delim c = true -> is_nul c = false.
Proof. unfold in_token. by destruct (is_nul c). Qed.

Lemma strtok_token delim d tok x r :
  valid_token delim tok -> in_token delim x = false ->
  strtok delim (TokBuf d (tok ++ x :: r)) =
    (Some tok, if is_nul x then TokBuf (d ++ tok) (x :: r)
               else TokBuf (d ++ tok ++ [NUL]) r).
Proof.
  intros [Hne Htok] Hx. unfold strtok. cbn [tb_rest tb_done].
  destruct tok as [|c tok]; [done|].
  assert (Hc : in_token delim c = true) by (by inversion Htok).
  assert (E1 : span (is_delim delim) ((c :: tok) ++ x :: r) = ([], (c :: tok) ++ x :: r)).
  { simpl. by rewrite (in_token_not_delim _ _ Hc). }
  rewrite E1. cbn [app]. rewrite (in_token_not_nul _ _ Hc).
  change (c :: tok ++ x :: r) with ((c :: tok) ++ x :: r).
  rewrite (span_stop (in_token delim) (c :: tok) x r Htok Hx).
  destruct (is_nul x); done.
Qed.

Lemma strtok_end delim d r :
  strtok delim (TokBuf d (NUL :: r)) = (None, TokBuf d (NUL :: r)).
Proof. unfold strtok. simpl. by rewrite app_nil_r. Qed.

Lemma strtok_some_nonempty delim tb tok tb' :
  strtok delim tb = (Some tok, tb') -> tok <> [].
Proof.
  unfold strtok. destruct (span (is_delim delim) (tb_rest tb)) as [sk r1] eqn:E.
  destruct r1 as [|c r1]; [done|].
  destruct (is_nul c) eqn:Hc; [done|].
  assert (Hd : is_delim delim c = false).
  { apply (span_snd_head _ (tb_rest tb) c r1). by rewrite E. }
  assert (Hin : in_token delim c = true).
  { unfold in_token, is_delim in *. rewrite Hc in *. simpl in *. by rewrite Hd. }
  simpl. rewrite Hin. destruct (span (in_token delim) r1) as [a b].
  destruct b as [|y b]; [|destruct (is_nul y)]; by intros [= <- _].
Qed.

Lemma length_strtok delim tb :
  length (tb_array (strtok delim tb).2) = length (tb_array tb).
Proof.
  unfold strtok, tb_array.
  pose proof (span_length (is_delim delim) (tb_rest tb)) as H1.
  destruct (span (is_delim delim) (tb_rest tb)) as [sk r1]. cbn [fst snd] in H1.
  destruct r1 as [|c r1].
  { cbn. rewrite !length_app. cbn in *. lia. }
  destruct (is_nul c).
  { cbn. rewrite !length_app. cbn in *. lia. }
  pose proof (span_length (in_token delim) (c :: r1)) as H2.
  destruct (span (in_token delim) (c :: r1)) as [tok r2]. cbn [fst snd] in H2.
  destruct r2 as [|y r2]; [|destruct (is_nul y)]; cbn [snd tb_done tb_rest];
    rewrite !length_app; cbn [length] in *; rewrite ?length_app; cbn [length]; lia.
Qed.

Lemma length_bcb_arguments n : forall tb,
  length (tb_array (bcb_arguments n tb).2) = length (tb_array tb).
Proof.
  induction n as [|n IH]; intros tb; simpl; [done|].
  pose proof (length_strtok [LF] tb) as H.
  destruct (strtok [LF] tb) as [[arg|] tb']; simpl in *; [|done].
  specialize (IH tb'). destruct (bcb_arguments n tb') as [l tb'']. simpl in *. lia.
Qed.

Lemma length_bcb_arguments_list n : forall tb, length (bcb_arguments n tb).1 <= n.
Proof.
  induction n as [|n IH]; intros tb; simpl; [done|].
  destruct (strtok [LF] tb) as [[arg|] tb']; simpl; [|lia].
  specialize (IH tb'). destruct (bcb_arguments n tb') as [l tb'']. simpl in *. lia.
Qed.

Lemma in_token_LF_false : in_token [LF] LF = false.
Proof. done. Qed.

Lemma bcb_arguments_spec args : forall n d junk,
  Forall (valid_token [LF]) args -> length args <= n ->
  (bcb_arguments n (TokBuf d (encode_lines args ++ NUL :: junk))).1 = args.
Proof.
  induction args as [|a args IH]; intros n d junk Hv Hn.
  - destruct n; [done|]. unfold encode_lines.
    cbn [map concat app bcb_arguments]. by rewrite strtok_end.
  - destruct n as [|n]; [simpl in Hn; lia|].
    inversion Hv as [|? ? Ha Hv']; subst.
    unfold encode_lines. cbn [map concat bcb_arguments].
    rewrite <- !app_assoc. cbn [app].
    rewrite (strtok_token [LF] d a LF) by done. cbn [is_nul].
    replace (Ascii.eqb LF NUL) with false by done.
    specialize (IH n (d ++ a ++ [NUL]) junk Hv' ltac:(simpl in Hn; lia)).
    unfold encode_lines in IH.
    destruct (bcb_arguments n _) as [l tb'']. simpl in *. by rewrite IH.
Qed.

Lemma store_last_terminated s junk :
  exists junk', store (s ++ NUL :: junk) (length (s ++ NUL :: junk) - 1) NUL
                = s ++ NUL :: junk'.
Proof.
  unfold store. rewrite length_app. simpl.
  replace (length s + S (length junk) - 1) with (length s + length junk) by lia.
  rewrite insert_app_r.
  destruct junk as [|j junk]; simpl.
  - by exists [].
  - exists (<[length junk := NUL]> (j :: junk)). done.
Qed.

(** ** get_args *)




Lemma append_arguments_Done args : forall rec,
  exists rec', append_arguments rec (map Some args) = Done rec'.
Proof.
  induction args as [|a args IH]; intros rec; simpl; [by exists rec|]. apply IH.
Qed.

Lemma valid_token_nul_free delim a : valid_token delim a -> nul_free a.
Proof.
  intros [_ H]. eapply Forall_impl; [exact H|]. intros c. apply in_token_not_nul.
Qed.

Section GetArgs.
Context `{L : BcbLayout}.


Lemma header_logs_are_logs boot : Forall is_log (header_logs boot).
Proof.
  unfold header_logs. apply Forall_app. split; case_match; repeat constructor.
Qed.


Lemma get_args_live (argv : list cstring) (w : World) :
  2 <= length argv ->
  exists rec,
    append_arguments (strlcpy (recovery (bcb w)) (lit "recovery" ++ [LF]))
      (map Some (drop 1 argv)) = Done rec
    /\ get_args (map Some argv) w =
       Done (map Some argv,
             set_bootloader_message
               (BootMsg (strlcpy (command (bcb w)) (lit "boot-recovery"))
                        (status (bcb w)) rec)
               (with_trace w (trace w ++ EvGetBcb :: header_logs (bcb w)))).
Proof.
  intros Hlen.
  destruct (append_arguments_Done (drop 1 argv)
              (strlcpy (recovery (bcb w)) (lit "recovery" ++ [LF]))) as [rec Hrec].
  exists rec. split; [exact Hrec|].
  assert (E : (length (map Some argv) <=? 1) = false).
  { rewrite length_map. apply Nat.leb_gt. lia. }
  unfold get_args, get_bootloader_message, args_from_bcb, args_from_command_file.
  rewrite !E. cbn [bind]. rewrite skipn_map.
  cbn [set_command set_recovery command status recovery].
  rewrite Hrec. cbn [bind]. do 2 f_equal.
  unfold header_logs, LOG, emit, set_bootloader_message, with_bcb, with_trace, emit.
  destruct w as [b ? ? ? ? ? ? ? ? ? ? ? ?]; cbn;
    destruct (first_byte_set (command b)), (first_byte_set (status b));
    cbn; rewrite <- ?app_assoc; reflexivity.
Qed.

Lemma valid_token_recovery : valid_token [LF] (lit "recovery").
Proof. split; [done|]. repeat constructor. Qed.

Lemma args_from_bcb_decodes boot argv0 w args :
  length argv0 <= 1 ->
  length (recovery boot) = recovery_size ->
  strlen (recovery boot) < recovery_size ->
  cstr (recovery boot) = lit "recovery" ++ LF :: encode_lines args ->
  Forall (valid_token [LF]) args -> length args <= MAX_ARGS - 1 ->
  exists boot',
    args_from_bcb boot argv0 w =
      (map Some (lit "recovery" :: args), boot',
       LOG LogI "Got arguments from boot message\n" [] w).
Proof.
  intros Hargc Hlen Hterm Hc Hv Hn. unfold args_from_bcb.
  apply Nat.leb_le in Hargc. rewrite Hargc.
  destruct (cstr_split (recovery boot)) as [junk Hj]; [lia|].
  rewrite <- Hlen.
  destruct (store_last_terminated (cstr (recovery boot)) junk) as [junk' Hs].
  rewrite <- Hj in Hs. rewrite Hs.
  rewrite Hc. rewrite <- app_assoc. cbn [app].
  rewrite (strtok_token [LF] [] (lit "recovery") LF) by (done || apply valid_token_recovery).
  replace (is_nul LF) with false by done.
  replace (cstring_eqb (lit "recovery") (lit "recovery")) with true by done.
  pose proof (bcb_arguments_spec args (MAX_ARGS - 1)
                ([] ++ lit "recovery" ++ [NUL]) junk' Hv Hn) as Hd.
  destruct (bcb_arguments _ _) as [l tb']. cbn [fst] in Hd. subst l.
  eexists. reflexivity.
Qed.

Lemma get_args_from_bcb argv0 w args :
  length argv0 <= 1 ->
  length (recovery (bcb w)) = recovery_size ->
  strlen (recovery (bcb w)) < recovery_size ->
  cstr (recovery (bcb w)) = lit "recovery" ++ LF :: encode_lines args ->
  Forall (valid_token [LF]) args -> args <> [] -> length args <= MAX_ARGS - 1 ->
  exists w2, get_args argv0 w = Done (map Some (lit "recovery" :: args), w2).
Proof.
  intros Hargc Hlen Hterm Hc Hv Hne Hn.
  unfold get_args, get_bootloader_message.
  match goal with |- context [args_from_bcb ?b ?a ?w'] =>
    destruct (args_from_bcb_decodes b a w' args Hargc Hlen Hterm Hc Hv Hn) as [boot' ->]
  end.
  unfold args_from_command_file.
  assert (E : (length (map Some (lit "recovery" :: args)) <=? 1) = false).
  { rewrite length_map. apply Nat.leb_gt. destruct args; [done|simpl; lia]. }
  rewrite E. cbn [bind].
  cbn [map drop]. rewrite drop_0.
  match goal with |- context [append_arguments ?r (map Some args)] =>
    destruct (append_arguments_Done args r) as [rec ->]
  end.
  cbn [bind]. eexists. reflexivity.
Qed.

End GetArgs.

Lemma length_append_arguments args : forall rec rec',
  append_arguments rec args = Done rec' -> length rec' = length rec.
Proof.
  induction args as [|[a|] args IH]; intros rec rec'; simpl.
  - by intros [= ->].
  - intros H. apply IH in H. by rewrite !length_strlcat in H.
  - done.
Qed.

Lemma length_command_file_arguments n : forall stream l,
  command_file_arguments n stream = Done l -> length l <= n.
Proof.
  induction n as [|n IH]; intros stream l; cbn [command_file_arguments].
  - intros [= <-]. done.
  - destruct (fgets (MAX_ARG_LENGTH - 1) stream) as [buf rest].
    destruct buf as [|c buf]; [intros [= <-]; simpl; lia|].
    destruct (strtok [CR; LF] _).1 as [tok|]; [|done].
    destruct (command_file_arguments n rest) as [l'|] eqn:E; [|done].
    cbn [bind]. intros [= <-]. apply IH in E. simpl. lia.
Qed.

Section GetArgsBounds.
Context `{L : BcbLayout}.

Lemma args_from_bcb_bounds boot argv w :
  let '(argv', boot', _) := args_from_bcb boot argv w in
  length argv' <= Nat.max (length argv) MAX_ARGS
  /\ length (recovery boot') = length (recovery boot)
  /\ command boot' = command boot.
Proof.
  unfold args_from_bcb. destruct (length argv <=? 1); [|split; [lia|done]].
  pose proof (length_strtok [LF]
                (TokBuf [] (store (recovery boot) (recovery_size - 1) NUL))) as H1.
  destruct (strtok [LF] _) as [arg tb].
  cbn [snd tb_array tb_done tb_rest app] in H1.
  unfold store in H1. rewrite length_insert in H1.
  destruct (match arg with Some a => cstring_eqb a (lit "recovery") | None => false end).
  - pose proof (length_bcb_arguments (MAX_ARGS - 1) tb) as H2.
    pose proof (length_bcb_arguments_list (MAX_ARGS - 1) tb) as H3.
    destruct (bcb_arguments (MAX_ARGS - 1) tb) as [l tb']. cbn [fst snd] in *.
    cbn [recovery set_recovery command]. split; [|split; [lia|done]].
    cbn [length]. rewrite length_map. unfold MAX_ARGS in *. lia.
  - cbn [recovery set_recovery command]. split; [lia|]. split; [lia|done].
Qed.

Lemma get_args_bounds argv w argv' w' :
  get_args argv w = Done (argv', w') ->
  length (recovery (bcb w')) = length (recovery (bcb w))
  /\ length (command (bcb w')) = length (command (bcb w))
  /\ (length argv <= 1 -> length argv' <= MAX_ARGS).
Proof.
  unfold get_args, get_bootloader_message.
  match goal with |- context [args_from_bcb ?b ?a ?w0] =>
    pose proof (args_from_bcb_bounds b a w0) as Hb;
    destruct (args_from_bcb b a w0) as [[argv1 boot1] w1]
  end.
  destruct Hb as (Hlen1 & Hrec1 & Hcmd1).
  unfold args_from_command_file.
  assert (Hcf : forall o : outcome (list (option cstring) * World),
    o = (if length argv1 <=? 1
         then let '(fp, w2) := fopen_path COMMAND_FILE ModeR w1 in
              match fp with
              | Some fp0 =>
                  let* l := command_file_arguments (MAX_ARGS - 1) (f_left fp0) in
                  Done (nth 0 argv1 None :: map Some l,
                        LOG LogI "Got arguments from %s\n" [lit COMMAND_FILE] w2)
              | None => Done (argv1, w2)
              end
         else Done (argv1, w1)) ->
    forall a2 w2, o = Done (a2, w2) ->
    length a2 <= Nat.max (length argv1) MAX_ARGS).
  { intros o -> a2 w2. destruct (length argv1 <=? 1).
    - destruct (fopen_path COMMAND_FILE ModeR w1) as [[fp|] w3].
      + destruct (command_file_arguments _ _) as [l|] eqn:El; [|done].
        cbn [bind]. intros [= <- <-]. apply length_command_file_arguments in El.
        cbn [length]. rewrite length_map. unfold MAX_ARGS in *. lia.
      + intros [= <- <-]. lia.
    - intros [= <- <-]. lia. }
  specialize (Hcf _ eq_refl).
  destruct (if length argv1 <=? 1 then _ else _) as [[a2 w2]|] eqn:E2; [|done].
  specialize (Hcf a2 w2 eq_refl). cbn [bind].
  cbn [set_command set_recovery command status recovery].
  destruct (append_arguments _ (drop 1 a2)) as [rec|] eqn:Er; [|done].
  cbn [bind]. intros [= <- <-].
  apply length_append_arguments in Er. rewrite length_strlcpy in Er.
  cbn [set_bootloader_message emit with_bcb with_trace bcb recovery command
       set_recovery set_command].
  rewrite length_strlcpy, Hcmd1. split; [lia|]. split; [done|].
  intros Hargc. unfold MAX_ARGS in *. lia.
Qed.

End GetArgsBounds.

Section GetArgsClaims.
Context `{L : BcbLayout}.

(** C3. With two or more live arguments [get_args] returns them verbatim,
    whatever the control block and the file system hold: the run reads the
    control block structure, logs its command and status fields, and writes
    the structure back; it mounts nothing and opens no file, so neither the
    recovery field nor the command file decides anything. *)
Theorem get_args_live_arguments_verbatim (argv : list cstring) (w : World) :
  2 <= length argv ->
  exists w',
    get_args (map Some argv) w = Done (map Some argv, w')
    /\ files w' = files w
    /\ cache_mounted w' = cache_mounted w
    /\ exists b, trace w' = trace w ++ EvGetBcb :: header_logs (bcb w) ++ [EvSetBcb b].
Proof.
  intros Hlen. destruct (get_args_live argv w Hlen) as (rec & _ & ->).
  eexists. split; [reflexivity|]. split; [done|]. split; [done|].
  eexists. cbn. rewrite <- app_assoc. cbn. reflexivity.
Qed.

(** C1, as the code has it.  A run with live arguments [prog :: args] writes
    "recovery\n" and the newline-terminated arguments into the recovery
    field, cut to the size of the field less the terminator; the field keeps its
    size in every run.  When every argument is a non-empty string without
    newline, there are at most [MAX_ARGS - 1] of them and the text fits the
    field, the next run without live arguments resolves the same arguments
    behind "recovery" at index 0.  No run without live arguments resolves more
    than [MAX_ARGS] entries. *)
Theorem bcb_round_trip (prog : cstring) (args : list cstring) (w : World) :
  length (recovery (bcb w)) = recovery_size ->
  0 < recovery_size ->
  args <> [] ->
  Forall nul_free args ->
  (exists w1,
     get_args (map Some (prog :: args)) w = Done (map Some (prog :: args), w1)
     /\ cstr (recovery (bcb w1)) =
          take (recovery_size - 1) (lit "recovery" ++ LF :: encode_lines args)
     /\ (Forall (valid_token [LF]) args ->
         length args <= MAX_ARGS - 1 ->
         9 + length (encode_lines args) < recovery_size ->
         forall argv0 w', bcb w' = bcb w1 -> length argv0 <= 1 ->
           exists w2,
             get_args argv0 w' = Done (map Some (lit "recovery" :: args), w2)))
  /\ (forall argv0 w0 argv' w',
        get_args argv0 w0 = Done (argv', w') ->
        length (recovery (bcb w')) = length (recovery (bcb w0))
        /\ (length argv0 <= 1 -> length argv' <= MAX_ARGS)).
Proof.
  intros Hsize Hpos Hne Hnul. split.
  - assert (Hlen : 2 <= length (prog :: args)).
    { destruct args; [done|simpl; lia]. }
    destruct (get_args_live (prog :: args) w Hlen) as (rec & Hrec & Hrun).
    change (drop 1 (prog :: args)) with args in Hrec.
    assert (HnR : nul_free (lit "recovery" ++ [LF])) by (repeat constructor).
    assert (Hterm : strlen (strlcpy (recovery (bcb w)) (lit "recovery" ++ [LF]))
                    < length (strlcpy (recovery (bcb w)) (lit "recovery" ++ [LF]))).
    { apply strlen_strlcpy; [done|lia]. }
    destruct (append_arguments_spec args
                (strlcpy (recovery (bcb w)) (lit "recovery" ++ [LF])) Hnul Hterm)
      as (rec' & Hrec' & Hl & Hc).
    pose proof (eq_trans (eq_sym Hrec) Hrec') as Heq. injection Heq as <-.
    rewrite length_strlcpy, Hsize in Hl, Hc.
    rewrite cstr_strlcpy, Hsize in Hc by (done || lia).
    rewrite take_take_app in Hc. rewrite <- app_assoc in Hc. cbn [app] in Hc.
    eexists. split; [exact Hrun|]. cbn [set_bootloader_message emit with_bcb
      with_trace bcb recovery]. split; [exact Hc|].
    intros Hv Hn Hfit argv0 w' Hbcb Hargc.
    assert (Hfull : take (recovery_size - 1)
                      (lit "recovery" ++ LF :: encode_lines args)
                    = lit "recovery" ++ LF :: encode_lines args).
    { apply take_ge. rewrite length_app. cbn [length]. simpl. lia. }
    apply get_args_from_bcb; try done; rewrite Hbcb; cbn [bcb recovery].
    + lia.
    + unfold strlen. rewrite Hc, Hfull, length_app. simpl. lia.
    + by rewrite Hc, Hfull.
  - intros argv0 w0 argv' w' Hrun.
    destruct (get_args_bounds argv0 w0 argv' w' Hrun) as (H1 & _ & H2). done.
Qed.

End GetArgsClaims.

Lemma get_args_live_arguments_verbatim_witness :
  2 <= length [lit "/sbin/recovery"; lit "--wipe_data"]
  /\ exists w',
       get_args (L := aosp_layout)
         (map Some [lit "/sbin/recovery"; lit "--wipe_data"]) blank_world
       = Done (map Some [lit "/sbin/recovery"; lit "--wipe_data"], w')
       /\ files w' = files blank_world
       /\ cache_mounted w' = cache_mounted blank_world
       /\ exists b, trace w' = trace blank_world
                      ++ EvGetBcb :: header_logs (bcb blank_world) ++ [EvSetBcb b].
Proof.
  split; [simpl; lia|].
  apply (get_args_live_arguments_verbatim (L := aosp_layout)
           [lit "/sbin/recovery"; lit "--wipe_data"] blank_world).
  simpl; lia.
Defined.

Ltac concrete_token := split; [discriminate | repeat constructor].

Lemma bcb_round_trip_witness :
  exists w1,
    get_args (L := aosp_layout)
      (map Some [lit "/sbin/recovery"; lit "--wipe_data"; lit "--wipe_cache"])
      blank_world
    = Done (map Some [lit "/sbin/recovery"; lit "--wipe_data"; lit "--wipe_cache"], w1)
    /\ forall argv0 w', bcb w' = bcb w1 -> length argv0 <= 1 ->
         exists w2,
           get_args (L := aosp_layout) argv0 w'
           = Done (map Some [lit "recovery"; lit "--wipe_data"; lit "--wipe_cache"], w2).
Proof.
  destruct (bcb_round_trip (L := aosp_layout) (lit "/sbin/recovery")
              [lit "--wipe_data"; lit "--wipe_cache"] blank_world)
    as [(w1 & Hrun & _ & Hback) _].
  - reflexivity.
  - simpl; lia.
  - discriminate.
  - repeat constructor.
  - exists w1. split; [exact Hrun|]. apply Hback.
    + repeat (constructor; [concrete_token|]). constructor.
    + simpl; lia.
    + simpl; lia.
Defined.


(** C1 fails as stated.  With the 1024-byte recovery field: an empty
    argument is lost ([strtok] skips it), an argument with a newline comes back
    as two, and an argument of 2000 bytes comes back cut to the 1014 bytes that
    fit behind "recovery\n"; all three are lists of at most 100 entries of at
    most 4095 bytes. *)
Lemma bcb_round_trip_counterexample :
  next_boot_arguments (H := aosp_layout) [lit "/sbin/recovery"; []] blank_world
  = Some [Some (lit "recovery")]
  /\ next_boot_arguments (H := aosp_layout)
       [lit "/sbin/recovery"; lit "a" ++ LF :: lit "b"] blank_world
     = Some [Some (lit "recovery"); Some (lit "a"); Some (lit "b")]
  /\ next_boot_arguments (H := aosp_layout)
       [lit "/sbin/recovery"; replicate 2000 "a"%char] blank_world
     = Some [Some (lit "recovery"); Some (replicate 1014 "a"%char)]
  /\ ~ round_trip_as_stated aosp_layout.
Proof.
  split; [vm_compute; reflexivity|].
  split; [vm_compute; reflexivity|].
  split; [vm_compute; reflexivity|].
  intros H.
  assert (F1 : get_args (L := aosp_layout)
                 (map Some [lit "/sbin/recovery"; []]) blank_world
               = Done (map Some [lit "/sbin/recovery"; []], after_empty_argument)).
  { vm_compute. reflexivity. }
  assert (F2 : resolved (get_args (L := aosp_layout) [Some (lit "recovery")]
                           after_empty_argument)
               = Some [Some (lit "recovery")]).
  { vm_compute. reflexivity. }
  assert (H4095 : Forall (fun a : cstring => length a <= 4095) [[]]).
  { constructor; [apply Nat.le_0_l|constructor]. }
  assert (Hlen : length (recovery (bcb blank_world))
                 = recovery_size (BcbLayout := aosp_layout)).
  { vm_compute. reflexivity. }
  destruct (H (lit "/sbin/recovery") [[]] blank_world after_empty_argument Hlen
              ltac:(repeat constructor) ltac:(simpl; lia)
              H4095 F1
              [Some (lit "recovery")] after_empty_argument eq_refl
              ltac:(simpl; lia))
    as (a0 & w2 & Hback).
  rewrite Hback in F2. discriminate F2.
Qed.

(** ** The command file *)

Lemma fgets_line l : forall room rest,
  Forall (fun c => c <> LF) l -> length l < room ->
  fgets room (l ++ LF :: rest) = (l ++ [LF], rest).
Proof.
  induction l as [|c l IH]; intros room rest Hl Hroom.
  - destruct room; [simpl in Hroom; lia|]. reflexivity.
  - destruct room; [simpl in Hroom; lia|]. inversion Hl as [|? ? Hc Hl']; subst.
    cbn [fgets app].
    destruct (Ascii.eqb_spec c LF) as [->|_]; [done|].
    rewrite IH by (done || simpl in Hroom; lia). reflexivity.
Qed.

Lemma strtok_finds_token l rest d :
  nul_free l -> Exists (fun c => in_token [CR; LF] c = true) l ->
  exists tok, (strtok [CR; LF] (TokBuf d (l ++ rest))).1 = Some tok.
Proof.
  intros Hn Hex. revert d. induction Hex as [c l Hc|c l Hex IH]; intros d.
  - unfold strtok. cbn [tb_rest tb_done app span].
    rewrite (in_token_not_delim _ _ Hc), (in_token_not_nul _ _ Hc).
    destruct (span (in_token [CR; LF]) (c :: l ++ rest)) as [tok r2].
    destruct r2 as [|y r2]; [|destruct (is_nul y)]; by eexists.
  - inversion Hn as [|? ? Hc Hn']; subst.
    destruct (is_delim [CR; LF] c) eqn:Ed.
    + unfold strtok. cbn [tb_rest tb_done app span]. rewrite Ed.
      specialize (IH Hn' (d ++ [c])). unfold strtok in IH.
      cbn [tb_rest tb_done] in IH.
      destruct (span (is_delim [CR; LF]) (l ++ rest)) as [sk r1].
      destruct r1 as [|x r1].
      { destruct IH as [tok IH]. done. }
      destruct (is_nul x); [destruct IH as [tok IH]; done|].
      destruct (span (in_token [CR; LF]) (x :: r1)) as [tok r2].
      destruct r2 as [|y r2]; [|destruct (is_nul y)]; by eexists.
    + assert (Hin : in_token [CR; LF] c = true).
      { unfold in_token, is_delim in *. rewrite Hc in *. cbn in *. by rewrite Ed. }
      unfold strtok. cbn [tb_rest tb_done app span]. rewrite Ed, Hc.
      destruct (span (in_token [CR; LF]) (c :: l ++ rest)) as [tok r2].
      destruct r2 as [|y r2]; [|destruct (is_nul y)]; by eexists.
Qed.

Lemma text_line_has_token l :
  text_line l -> Exists (fun c => in_token [CR; LF] c = true) l.
Proof.
  intros (Hn & Hlf & _ & Hex).
  induction Hex as [c l Hc|c l Hex IH].
  - apply Exists_cons_hd. inversion Hn; subst. inversion Hlf; subst.
    unfold in_token. replace (is_nul c) with false by done. cbn.
    destruct (Ascii.eqb_spec c CR); [done|]. destruct (Ascii.eqb_spec c LF); done.
  - apply Exists_cons_tl. inversion Hn; subst. inversion Hlf; subst. by apply IH.
Qed.

Lemma command_file_blank_line lines : forall n blank post,
  Forall text_line lines -> length lines < n -> blank_line blank ->
  command_file_arguments n (encode_lines lines ++ blank ++ post)
  = Undefined NullString.
Proof.
  induction lines as [|l lines IH]; intros n blank post Hl Hn Hb.
  - destruct n as [|n]; [simpl in Hn; lia|].
    unfold encode_lines. cbn [map concat app command_file_arguments].
    assert (Hroom : 1 < MAX_ARG_LENGTH - 1) by (unfold MAX_ARG_LENGTH; lia).
    destruct Hb as [-> | ->].
    + pose proof (fgets_line [] (MAX_ARG_LENGTH - 1) post
                    ltac:(constructor) ltac:(cbn [length]; lia)) as E.
      cbn [app] in E |- *. rewrite E. reflexivity.
    + pose proof (fgets_line [CR] (MAX_ARG_LENGTH - 1) post
                    ltac:(repeat constructor; done) ltac:(cbn [length]; lia)) as E.
      cbn [app] in E |- *. rewrite E. reflexivity.
  - destruct n as [|n]; [simpl in Hn; lia|].
    inversion Hl as [|? ? Hline Hl']; subst.
    unfold encode_lines. cbn [map concat command_file_arguments].
    fold (encode_lines lines). rewrite <- !app_assoc. cbn [app].
    destruct Hline as (Hnul & Hlf & Hlen & Hex).
    rewrite (fgets_line l (MAX_ARG_LENGTH - 1)) by done.
    destruct (strtok_finds_token l ([LF] ++ [NUL]) [] Hnul
                (text_line_has_token l (conj Hnul (conj Hlf (conj Hlen Hex)))))
      as [tok Htok].
    rewrite <- app_assoc. rewrite Htok.
    destruct (l ++ [LF]) eqn:El; [by destruct l|].
    rewrite (IH n blank post Hl' ltac:(simpl in Hn; lia) Hb). reflexivity.
Qed.

Section CommandFile.
Context `{L : BcbLayout}.

Lemma args_from_bcb_frame boot argv w :
  exists t, (args_from_bcb boot argv w).2 = with_trace w t.
Proof.
  unfold args_from_bcb. destruct (length argv <=? 1).
  - destruct (strtok [LF] _) as [arg tb].
    destruct (match arg with Some a => _ | None => false end).
    + destruct (bcb_arguments _ tb) as [l tb']. by eexists.
    + cbn [snd]. destruct (first_byte_set _); [by eexists|].
      exists (trace w). by destruct w.
  - exists (trace w). by destruct w.
Qed.

Lemma args_from_bcb_argv boot argv w w' :
  (args_from_bcb boot argv w).1.1 = (args_from_bcb boot argv w').1.1.
Proof.
  unfold args_from_bcb. destruct (length argv <=? 1); [|done].
  destruct (strtok [LF] _) as [arg tb].
  destruct (match arg with Some a => _ | None => false end); [|done].
  by destruct (bcb_arguments _ tb) as [l tb'].
Qed.

Lemma fopen_command_file w t content :
  mount_ok w = true -> files w !! COMMAND_FILE = Some content ->
  exists w', fopen_path COMMAND_FILE ModeR (with_trace w t)
             = (Some (MkFILE COMMAND_FILE content), w').
Proof.
  intros Hm Hf. unfold fopen_path, ensure_path_mounted.
  cbn [mount_ok with_trace]. rewrite Hm.
  change (under_cache COMMAND_FILE) with true. cbn [negb Z.eqb].
  unfold fopen, visible. change (under_cache COMMAND_FILE) with true.
  cbn [cache_mounted emit with_trace with_mounted files]. rewrite Hf.
  by eexists.
Qed.

Lemma get_args_command_file argv w content u :
  length argv <= 1 -> bcb_leaves_no_arguments argv w ->
  mount_ok w = true -> files w !! COMMAND_FILE = Some content ->
  command_file_arguments (MAX_ARGS - 1) content = Undefined u ->
  get_args argv w = Undefined u.
Proof.
  intros Hargc Hbcb Hm Hf Hcmd. unfold get_args, get_bootloader_message.
  match goal with |- context [args_from_bcb ?b ?a ?w0] =>
    pose proof (args_from_bcb_frame b a w0) as [t Ht];
    pose proof (args_from_bcb_argv b a w0 w) as Ha;
    destruct (args_from_bcb b a w0) as [[argv1 boot1] w1]
  end.
  cbn [fst snd] in Ht, Ha. unfold bcb_leaves_no_arguments in Hbcb.
  rewrite <- Ha in Hbcb. subst w1.
  unfold args_from_command_file. apply Nat.leb_le in Hbcb. rewrite Hbcb.
  match goal with |- context [fopen_path _ _ ?w0] =>
    assert (exists t0, w0 = with_trace w t0) as [t0 ->]
  end.
  { destruct (first_byte_set (status (bcb w))), (first_byte_set (command (bcb w)));
      by eexists. }
  destruct (fopen_command_file w t0 content Hm Hf) as [w' ->].
  cbn [f_left]. rewrite Hcmd. reflexivity.
Qed.

(** C10, as the code has it.  When the command file is consulted (at most one
    live argument, no arguments from the control block, the cache volume
    mounts) and a blank line follows fewer than [MAX_ARGS - 1] lines of text,
    [strtok] returns NULL for it and [strdup] dereferences the null pointer:
    the run leaves the C semantics. *)
Theorem get_args_blank_line_null_dereference
    (argv : list (option cstring)) (w : World)
    (lines : list (list ascii)) (blank post : list ascii) :
  length argv <= 1 ->
  bcb_leaves_no_arguments argv w ->
  mount_ok w = true ->
  files w !! COMMAND_FILE = Some (encode_lines lines ++ blank ++ post) ->
  Forall text_line lines ->
  length lines < MAX_ARGS - 1 ->
  blank_line blank ->
  get_args argv w = Undefined NullString.
Proof.
  intros Hargc Hbcb Hm Hf Hl Hn Hb.
  eapply get_args_command_file; try done.
  by apply command_file_blank_line.
Qed.

End CommandFile.

Lemma get_args_blank_line_null_dereference_witness :
  get_args (L := aosp_layout) [Some (lit "/sbin/recovery")]
    (with_command_file (lit "--wipe_data" ++ [LF] ++ [CR; LF] ++ lit "--wipe_cache")
       blank_world)
  = Undefined NullString.
Proof.
  apply (get_args_blank_line_null_dereference (L := aosp_layout)
           [Some (lit "/sbin/recovery")] _ [lit "--wipe_data"] [CR; LF]
           (lit "--wipe_cache")).
  - simpl; lia.
  - vm_compute. lia.
  - reflexivity.
  - reflexivity.
  - constructor; [|constructor]. unfold text_line.
    split; [repeat constructor|].
    split; [repeat (constructor; [discriminate|]); constructor|].
    split; [apply Nat.ltb_lt; vm_compute; reflexivity|].
    apply Exists_cons_hd. discriminate.
  - apply Nat.ltb_lt. vm_compute. reflexivity.
  - by right.
Defined.

(** C10 fails as stated: the loop over the command file stops after
    [MAX_ARGS - 1] lines, so a blank line behind 99 lines of text is never
    read and the run is defined. *)
Lemma get_args_blank_line_counterexample :
  resolved (get_args (L := aosp_layout) [Some (lit "/sbin/recovery")]
              (with_command_file (lines_then_blank 99) blank_world))
  = Some (Some (lit "/sbin/recovery") :: replicate 99 (Some (lit "--a")))
  /\ ~ blank_line_fails_as_stated aosp_layout.
Proof.
  assert (Hrun :
    resolved (get_args (L := aosp_layout) [Some (lit "/sbin/recovery")]
                (with_command_file (lines_then_blank 99) blank_world))
    = Some (Some (lit "/sbin/recovery") :: replicate 99 (Some (lit "--a")))).
  { vm_compute. reflexivity. }
  split; [exact Hrun|].
  intros H.
  rewrite (H [Some (lit "/sbin/recovery")]
             (with_command_file (lines_then_blank 99) blank_world)
             (encode_lines (replicate 99 (lit "--a"))) [LF] []) in Hrun.
  - discriminate Hrun.
  - simpl; lia.
  - vm_compute. lia.
  - reflexivity.
  - unfold with_command_file. cbn [files with_files].
    rewrite lookup_insert_eq. unfold lines_then_blank. by rewrite app_nil_r.
  - right. vm_compute. reflexivity.
  - by left.
Qed.

(** ** copy_log_file, finish_recovery, erase_volume *)

Lemma with_files_id w : with_files w (files w) = w.
Proof. by destruct w. Qed.

Lemma copied_nil fuel : copied fuel [] = [].
Proof. by destruct fuel. Qed.

Lemma copy_lines_closed fuel : forall stream log w c,
  files w !! f_path log = Some c ->
  copy_lines fuel stream log w
  = with_files w (<[f_path log := c ++ copied fuel stream]> (files w)).
Proof.
  induction fuel as [|fuel IH]; intros stream log w c Hc.
  - cbn [copy_lines copied]. rewrite app_nil_r, insert_id by done.
    by rewrite with_files_id.
  - cbn [copy_lines copied]. destruct (fgets 4095 stream) as [buf rest].
    destruct buf as [|b buf].
    + rewrite app_nil_r, insert_id by done. by rewrite with_files_id.
    + rewrite (IH rest log _ (c ++ cstr (b :: buf))).
      * unfold fputs, fwrite. cbn [files with_files]. rewrite Hc. cbn [default].
        rewrite insert_insert_eq, <- app_assoc. reflexivity.
      * unfold fputs, fwrite. cbn [files with_files]. rewrite Hc. cbn [default].
        by rewrite lookup_insert_eq.
Qed.

(** A NUL-free stream is copied byte for byte. *)
Lemma fgets_app room : forall stream,
  (fgets room stream).1 ++ (fgets room stream).2 = stream.
Proof.
  induction room as [|room IH]; intros [|c stream]; try done.
  cbn [fgets]. destruct (Ascii.eqb c LF); [done|].
  specialize (IH stream). destruct (fgets room stream) as [a b]. cbn in *.
  by rewrite IH.
Qed.

Lemma fgets_nothing room stream :
  (fgets (S room) stream).1 = [] -> stream = [].
Proof.
  destruct stream as [|c stream]; [done|]. cbn [fgets].
  destruct (Ascii.eqb c LF); [done|]. by destruct (fgets room stream).
Qed.

Lemma copied_nul_free fuel : forall stream,
  nul_free stream -> length stream <= fuel -> copied fuel stream = stream.
Proof.
  induction fuel as [|fuel IH]; intros stream Hn Hl.
  - destruct stream; [done|simpl in Hl; lia].
  - cbn [copied]. pose proof (fgets_app 4095 stream) as Happ.
    destruct (fgets 4095 stream) as [buf rest] eqn:E. cbn [fst snd] in Happ.
    destruct buf as [|b buf].
    + symmetry. apply (fgets_nothing 4094). change (S 4094) with 4095. by rewrite E.
    + subst stream. apply Forall_app in Hn as [Hb Hr].
      rewrite cstr_whole by done. rewrite IH; [done|done|].
      rewrite length_app in Hl. simpl in Hl. lia.
Qed.

Ltac unfold_world :=
  repeat progress
    (unfold upd, LOG, emit, set_bootloader_message, with_bcb, with_files,
       with_modes, with_owners, with_mounted, with_offset, with_auto, with_trace;
     cbn [bcb files modes owners cache_mounted mount_ok format_ok tmplog_offset
          locale bAutoUpdateComplete bClearbootmessage updatepath trace]).

Lemma upd_id w :
  upd w (bcb w) (files w) (modes w) (owners w) (cache_mounted w)
    (tmplog_offset w) (bAutoUpdateComplete w) (trace w) = w.
Proof. by destruct w. Qed.

Lemma upd_upd w b f m o mt off a t b' f' m' o' mt' off' a' t' :
  upd (upd w b f m o mt off a t) b' f' m' o' mt' off' a' t'
  = upd w b' f' m' o' mt' off' a' t'.
Proof. reflexivity. Qed.

(** Bring a goal about nested [upd] back to one layer. *)
Ltac flat :=
  rewrite ?upd_upd;
  cbn [upd bcb files modes owners cache_mounted mount_ok format_ok tmplog_offset
       locale bAutoUpdateComplete bClearbootmessage updatepath trace];
  rewrite ?upd_upd.

Lemma emit_raw e w :
  emit e w = upd w (bcb w) (files w) (modes w) (owners w) (cache_mounted w)
               (tmplog_offset w) (bAutoUpdateComplete w) (trace w ++ [e]).
Proof. reflexivity. Qed.

Lemma with_bcb_raw w b :
  with_bcb w b = upd w b (files w) (modes w) (owners w) (cache_mounted w)
                   (tmplog_offset w) (bAutoUpdateComplete w) (trace w).
Proof. reflexivity. Qed.

Lemma with_files_raw w f :
  with_files w f = upd w (bcb w) f (modes w) (owners w) (cache_mounted w)
                     (tmplog_offset w) (bAutoUpdateComplete w) (trace w).
Proof. reflexivity. Qed.

Lemma with_mounted_raw w b :
  with_mounted w b = upd w (bcb w) (files w) (modes w) (owners w) b
                       (tmplog_offset w) (bAutoUpdateComplete w) (trace w).
Proof. reflexivity. Qed.

Lemma with_offset_raw w o :
  with_offset w o = upd w (bcb w) (files w) (modes w) (owners w) (cache_mounted w)
                      o (bAutoUpdateComplete w) (trace w).
Proof. reflexivity. Qed.

Lemma with_modes_raw w m :
  with_modes w m = upd w (bcb w) (files w) m (owners w) (cache_mounted w)
                     (tmplog_offset w) (bAutoUpdateComplete w) (trace w).
Proof. reflexivity. Qed.

Lemma with_owners_raw w o :
  with_owners w o = upd w (bcb w) (files w) (modes w) o (cache_mounted w)
                      (tmplog_offset w) (bAutoUpdateComplete w) (trace w).
Proof. reflexivity. Qed.

Lemma with_auto_raw w a :
  with_auto w a = upd w (bcb w) (files w) (modes w) (owners w) (cache_mounted w)
                    (tmplog_offset w) a (trace w).
Proof. reflexivity. Qed.

(** Evaluate the setters of a goal by value, leaving the maps alone. *)
Ltac world_cbv :=
  cbv beta iota zeta delta
    [upd LOG emit set_bootloader_message with_bcb with_files with_modes
     with_owners with_mounted with_offset with_auto with_trace
     bcb files modes owners cache_mounted mount_ok format_ok tmplog_offset
     locale bAutoUpdateComplete bClearbootmessage updatepath trace
     fst snd].

Ltac world_norm := world_cbv.

Lemma fopen_path_write path (append : bool) w :
  mount_ok w = true -> under_cache path = true ->
  fopen_path path (if append then ModeA else ModeW) w
  = (Some (MkFILE path []),
     upd w (bcb w)
       (<[path := if append then default [] (files w !! path) else []]> (files w))
       (modes w) (owners w) true (tmplog_offset w) (bAutoUpdateComplete w)
       (trace w ++ [EvMount path 0;
                    EvFopen path (if append then ModeA else ModeW) true])).
Proof.
  intros Hm Hp. unfold fopen_path, ensure_path_mounted. rewrite Hm, Hp.
  cbn [negb Z.eqb]. unfold fopen, visible. rewrite Hp.
  destruct append; unfold_world; rewrite <- app_assoc; reflexivity.
Qed.

Lemma copy_log_file_mounted src dst (append : bool) w :
  mount_ok w = true -> under_cache dst = true -> under_cache src = false ->
  exists t,
    copy_log_file src dst append w
    = upd w (bcb w)
        (<[dst := log_after append (files w !! src) (files w !! dst)
                    (tmplog_offset w)]> (files w))
        (modes w) (owners w) true
        (offset_after append (files w !! src) (tmplog_offset w))
        (bAutoUpdateComplete w) (trace w ++ t)
    /\ no_warning t.
Proof.
  intros Hm Hd Hs. unfold copy_log_file.
  rewrite fopen_path_write by done.
  assert (Hne : dst <> src) by (intros ->; congruence).
  unfold fopen, visible. rewrite Hs. cbn [files upd].
  rewrite lookup_insert_ne by done.
  unfold log_after, offset_after.
  destruct (files w !! src) as [t|] eqn:Esrc.
  - cbn [f_left].
    erewrite copy_lines_closed; last first.
    { unfold_world. cbn [f_path]. apply lookup_insert_eq. }
    unfold_world. cbn [f_path]. rewrite insert_insert_eq.
    destruct append; eexists; (split;
      [rewrite <- app_assoc; reflexivity
      |unfold no_warning; repeat constructor; by intros []]).
  - rewrite app_nil_r. unfold_world.
    destruct append; eexists; (split;
      [rewrite <- app_assoc; reflexivity
      |unfold no_warning; repeat constructor; by intros []]).
Qed.

Lemma chmod_present path mode w c :
  cache_mounted w = true -> files w !! path = Some c ->
  chmod path mode w
  = upd w (bcb w) (files w) (<[path := mode]> (modes w)) (owners w) true
      (tmplog_offset w) (bAutoUpdateComplete w) (trace w).
Proof.
  intros Hm Hf. unfold chmod, file_exists, read_file, visible.
  rewrite Hm, Hf. destruct (under_cache path); destruct w; cbn in *; by subst.
Qed.

Lemma chown_present path uid gid w c :
  cache_mounted w = true -> files w !! path = Some c ->
  chown path uid gid w
  = upd w (bcb w) (files w) (modes w) (<[path := (uid, gid)]> (owners w)) true
      (tmplog_offset w) (bAutoUpdateComplete w) (trace w).
Proof.
  intros Hm Hf. unfold chown, file_exists, read_file, visible.
  rewrite Hm, Hf. destruct (under_cache path); destruct w; cbn in *; by subst.
Qed.

Lemma no_warning_app t1 t2 : no_warning t1 -> no_warning t2 -> no_warning (t1 ++ t2).
Proof. intros. by apply Forall_app. Qed.

Ltac no_warning_tac :=
  unfold no_warning in *;
  repeat match goal with
         | |- Forall _ (_ ++ _) => apply Forall_app; split
         | |- Forall _ [] => constructor
         | |- Forall _ (_ :: _) => apply Forall_cons; split; [cbn; tauto|]
         | |- Forall _ _ => assumption
         end.

Ltac path_neq := by (apply String.eqb_neq; vm_compute; reflexivity).

Ltac distinct_paths :=
  repeat first
    [ rewrite lookup_insert_eq
    | rewrite lookup_insert_ne by path_neq
    | rewrite lookup_delete_eq
    | rewrite lookup_delete_ne by path_neq ].

(** *** The blocks of finish_recovery when the cache volume mounts *)

Lemma strflag_fits path :
  length path < 147 -> strflag path = Done (flag_bytes path).
Proof.
  intros H. unfold strflag, flag_bytes.
  destruct (160 <=? length (lit "success$path=" ++ path)) eqn:E; [|done].
  apply Nat.leb_le in E. rewrite length_app in E. simpl in E. lia.
Qed.

Lemma record_intent_mounted intent w :
  mount_ok w = true ->
  exists t,
    record_intent intent w
    = upd w (bcb w) (intent_files intent (files w)) (modes w) (owners w)
        (match intent with Some _ => true | None => cache_mounted w end)
        (tmplog_offset w) (bAutoUpdateComplete w) (trace w ++ t)
    /\ no_warning t.
Proof.
  intros Hm. unfold record_intent, intent_files. destruct intent as [s|].
  - rewrite (fopen_path_write INTENT_FILE false) by done.
    unfold fputs, fwrite. unfold_world. cbn [f_path]. rewrite lookup_insert_eq.
    cbn [default app]. rewrite insert_insert_eq. eexists. split; [reflexivity|].
    no_warning_tac.
  - exists []. rewrite app_nil_r. split; [by rewrite upd_id|no_warning_tac].
Qed.

Lemma save_locale_mounted w :
  mount_ok w = true ->
  exists t,
    save_locale w
    = Done (upd w (bcb w) (locale_files (locale w) (files w)) (modes w) (owners w)
              (match locale w with Some _ => true | None => cache_mounted w end)
              (tmplog_offset w) (bAutoUpdateComplete w) (trace w ++ t))
    /\ no_warning t.
Proof.
  intros Hm. unfold save_locale, locale_files. destruct (locale w) as [l|] eqn:El.
  - rewrite (fopen_path_write LOCALE_FILE false) by done.
    unfold fwrite. unfold_world. cbn [f_path]. rewrite lookup_insert_eq.
    cbn [default app]. rewrite insert_insert_eq. rewrite El.
    eexists. split; [rewrite <- app_assoc; reflexivity|]. no_warning_tac.
  - exists []. rewrite app_nil_r. split; [|no_warning_tac].
    f_equal. destruct w; cbn in *; by subst.
Qed.

Lemma log_after_overwrite src dst off :
  log_after false src dst off = log_after false src None 0.
Proof. unfold log_after. reflexivity. Qed.

Lemma offset_after_overwrite src off : offset_after false src off = off.
Proof. by destruct src. Qed.

Lemma copy_logs_mounted w :
  mount_ok w = true ->
  exists t,
    copy_logs w
    = upd w (bcb w) (logs_files (tmplog_offset w) (files w)) (finish_modes w)
        (finish_owners w) true
        (offset_after true (files w !! TEMPORARY_LOG_FILE) (tmplog_offset w))
        (bAutoUpdateComplete w) (trace w ++ t)
    /\ no_warning t.
Proof.
  intros Hm. unfold copy_logs.
  destruct (copy_log_file_mounted TEMPORARY_LOG_FILE LOG_FILE true w)
    as (t1 & -> & Ht1); [done..|].
  match goal with |- context [copy_log_file _ LAST_LOG_FILE false ?w0] =>
    destruct (copy_log_file_mounted TEMPORARY_LOG_FILE LAST_LOG_FILE false w0)
      as (t2 & -> & Ht2); [done..|]
  end.
  flat.
  match goal with |- context [copy_log_file _ _ false ?w0] =>
    destruct (copy_log_file_mounted TEMPORARY_INSTALL_FILE LAST_INSTALL_FILE false w0)
      as (t3 & -> & Ht3); [done..|]
  end.
  flat. distinct_paths.
  erewrite (chmod_present LOG_FILE); [|reflexivity|]; last first.
  { cbn [upd files]. distinct_paths. reflexivity. }
  flat.
  erewrite (chown_present LOG_FILE); [|reflexivity|]; last first.
  { cbn [upd files]. distinct_paths. reflexivity. }
  flat.
  erewrite (chmod_present LAST_LOG_FILE); [|reflexivity|]; last first.
  { cbn [upd files]. distinct_paths. reflexivity. }
  flat.
  erewrite (chmod_present LAST_INSTALL_FILE); [|reflexivity|]; last first.
  { cbn [upd files]. distinct_paths. reflexivity. }
  flat.
  rewrite !offset_after_overwrite.
  rewrite (log_after_overwrite _ (files w !! LAST_LOG_FILE)).
  rewrite (log_after_overwrite _ (files w !! LAST_INSTALL_FILE)).
  exists (t1 ++ t2 ++ t3). split; [|no_warning_tac].
  unfold logs_files, finish_modes, finish_owners.
  rewrite <- !app_assoc. reflexivity.
Qed.

Lemma remove_command_file_mounted w :
  mount_ok w = true ->
  exists t,
    remove_command_file w
    = upd w (bcb w) (delete COMMAND_FILE (files w)) (modes w) (owners w) false
        (tmplog_offset w) (bAutoUpdateComplete w) (trace w ++ t)
    /\ no_warning t.
Proof.
  intros Hm. destruct w as [b f m o mt mok fok off loc au clr up tr].
  cbn [mount_ok] in Hm. subst mok.
  unfold remove_command_file, ensure_path_mounted, unlink, file_exists,
    read_file, visible, ensure_path_unmounted.
  change (under_cache COMMAND_FILE) with true.
  change (under_cache CACHE_ROOT) with true.
  world_cbv. cbn [negb Z.eqb].
  destruct (f !! COMMAND_FILE) as [c|] eqn:E; world_cbv.
  - eexists. split; [rewrite <- !app_assoc; reflexivity|no_warning_tac].
  - rewrite (delete_id _ _ E).
    eexists. split; [rewrite <- !app_assoc; reflexivity|no_warning_tac].
Qed.

Lemma lookup_locale_intent_files loc intent (f : gmap string (list ascii)) p :
  p <> INTENT_FILE -> p <> LOCALE_FILE ->
  locale_files loc (intent_files intent f) !! p = f !! p.
Proof.
  intros H1 H2. unfold locale_files, intent_files.
  destruct loc, intent; rewrite ?lookup_insert_ne by done; done.
Qed.

Section FinishClosed.
Context `{L : BcbLayout}.

Lemma reset_bcb_closed w :
  exists t,
    reset_bcb w
    = upd w (finish_bcb w) (files w) (modes w) (owners w) (cache_mounted w)
        (tmplog_offset w) (bAutoUpdateComplete w) (trace w ++ t)
    /\ no_warning t.
Proof.
  unfold reset_bcb, finish_bcb. destruct (bClearbootmessage w) eqn:E; cbn [negb].
  - exists []. rewrite app_nil_r. split; [by rewrite upd_id|no_warning_tac].
  - destruct w. world_cbv. eexists. split; [reflexivity|no_warning_tac].
Qed.

Lemma write_flag_mounted w :
  mount_ok w = true ->
  (bAutoUpdateComplete w = true -> length (updatepath w) < 147) ->
  exists t,
    write_flag w
    = Done (upd w (bcb w)
              (flag_files (bAutoUpdateComplete w) (updatepath w) (files w))
              (modes w) (owners w)
              (if bAutoUpdateComplete w then true else cache_mounted w)
              (tmplog_offset w) false (trace w ++ t))
    /\ no_warning t.
Proof.
  intros Hm Hfit. unfold write_flag, flag_files.
  destruct (bAutoUpdateComplete w) eqn:E.
  - rewrite (fopen_path_write FLAG_FILE false) by done.
    cbn [updatepath upd]. rewrite strflag_fits by auto. cbn [bind].
    unfold fwrite. cbn [f_path]. flat. rewrite lookup_insert_eq.
    cbn [default app]. rewrite insert_insert_eq. unfold with_auto, with_files. flat.
    eexists. split; [reflexivity|no_warning_tac].
  - exists []. rewrite app_nil_r. split; [|no_warning_tac].
    f_equal. destruct w; cbn in *; by subst.
Qed.

Lemma finish_recovery_mounted intent w :
  mount_ok w = true ->
  (bAutoUpdateComplete w = true -> length (updatepath w) < 147) ->
  exists t,
    finish_recovery intent w
    = Done (upd w (finish_bcb w) (finish_files intent w) (finish_modes w)
              (finish_owners w) false
              (offset_after true (files w !! TEMPORARY_LOG_FILE) (tmplog_offset w))
              false (trace w ++ t))
    /\ no_warning t.
Proof.
  intros Hm Hfit. unfold finish_recovery.
  destruct (record_intent_mounted intent w Hm) as (t1 & -> & Ht1).
  match goal with |- context [save_locale ?w0] =>
    destruct (save_locale_mounted w0 Hm) as (t2 & -> & Ht2)
  end.
  cbn [bind]. flat.
  match goal with |- context [copy_logs ?w0] =>
    destruct (copy_logs_mounted w0 Hm) as (t3 & -> & Ht3)
  end.
  flat.
  match goal with |- context [reset_bcb ?w0] =>
    destruct (reset_bcb_closed w0) as (t4 & -> & Ht4)
  end.
  flat.
  match goal with |- context [write_flag ?w0] =>
    destruct (write_flag_mounted w0 Hm Hfit) as (t5 & -> & Ht5)
  end.
  cbn [bind]. flat.
  match goal with |- context [remove_command_file ?w0] =>
    destruct (remove_command_file_mounted w0 Hm) as (t6 & -> & Ht6)
  end.
  flat.
  exists (t1 ++ t2 ++ t3 ++ t4 ++ t5 ++ t6). split; [|no_warning_tac].
  rewrite <- !app_assoc.
  unfold finish_bcb, finish_modes, finish_owners, finish_files. flat.
  rewrite lookup_locale_intent_files by path_neq.
  reflexivity.
Qed.

End FinishClosed.

(** *** A second run of finish_recovery changes nothing *)

Lemma copied_at_end (off : Z) (t : list ascii) :
  let pos := fseek_set (ftell_at_eof (fseek_set off) t) in
  copied (length (drop pos t)) (drop pos t) = []
  /\ ftell_at_eof pos t = ftell_at_eof (fseek_set off) t.
Proof.
  unfold ftell_at_eof, fseek_set. rewrite Nat2Z.id. cbn zeta.
  rewrite drop_ge by lia. split; [done|]. f_equal. lia.
Qed.

Lemma log_after_again src lg off :
  log_after true src (Some lg) (offset_after true src off) = lg.
Proof.
  unfold log_after, offset_after. cbn [default]. destruct src as [t|].
  - destruct (copied_at_end off t) as [-> _]. by rewrite app_nil_r.
  - by rewrite app_nil_r.
Qed.

Lemma offset_after_again src off :
  offset_after true src (offset_after true src off) = offset_after true src off.
Proof.
  unfold offset_after. destruct src as [t|]; [|done].
  by destruct (copied_at_end off t) as [_ ->].
Qed.

Lemma finish_files_command intent w : finish_files intent w !! COMMAND_FILE = None.
Proof. unfold finish_files. apply lookup_delete_eq. Qed.

Lemma finish_files_other intent w p :
  p <> COMMAND_FILE -> p <> FLAG_FILE -> p <> LAST_INSTALL_FILE ->
  p <> LAST_LOG_FILE -> p <> LOG_FILE -> p <> LOCALE_FILE -> p <> INTENT_FILE ->
  finish_files intent w !! p = files w !! p.
Proof.
  intros. unfold finish_files, flag_files, logs_files.
  rewrite lookup_delete_ne by done.
  destruct (bAutoUpdateComplete w); rewrite ?lookup_insert_ne by done;
    by apply lookup_locale_intent_files.
Qed.

Lemma finish_files_log intent w :
  finish_files intent w !! LOG_FILE
  = Some (log_after true (files w !! TEMPORARY_LOG_FILE) (files w !! LOG_FILE)
            (tmplog_offset w)).
Proof.
  unfold finish_files, flag_files, logs_files.
  rewrite lookup_delete_ne by path_neq.
  destruct (bAutoUpdateComplete w); distinct_paths;
    by rewrite !lookup_locale_intent_files by path_neq.
Qed.

Lemma finish_files_last_log intent w :
  finish_files intent w !! LAST_LOG_FILE
  = Some (log_after false (files w !! TEMPORARY_LOG_FILE) None 0).
Proof.
  unfold finish_files, flag_files, logs_files.
  rewrite lookup_delete_ne by path_neq.
  destruct (bAutoUpdateComplete w); distinct_paths;
    by rewrite !lookup_locale_intent_files by path_neq.
Qed.

Lemma finish_files_last_install intent w :
  finish_files intent w !! LAST_INSTALL_FILE
  = Some (log_after false (files w !! TEMPORARY_INSTALL_FILE) None 0).
Proof.
  unfold finish_files, flag_files, logs_files.
  rewrite lookup_delete_ne by path_neq.
  destruct (bAutoUpdateComplete w); distinct_paths;
    by rewrite !lookup_locale_intent_files by path_neq.
Qed.

Lemma finish_files_intent intent w s :
  intent = Some s -> finish_files intent w !! INTENT_FILE = Some (cstr s).
Proof.
  intros ->. unfold finish_files, flag_files, logs_files,
    locale_files, intent_files.
  rewrite lookup_delete_ne by path_neq.
  destruct (bAutoUpdateComplete w), (locale w); distinct_paths; done.
Qed.

Lemma finish_files_locale intent w l :
  locale w = Some l -> finish_files intent w !! LOCALE_FILE = Some (cstr l).
Proof.
  intros E. unfold finish_files, flag_files, logs_files,
    locale_files, intent_files. rewrite E.
  rewrite lookup_delete_ne by path_neq.
  destruct (bAutoUpdateComplete w), intent; distinct_paths; done.
Qed.


Lemma finish_files_fixed intent w b m o mt a t :
  finish_files intent
    (upd w b (finish_files intent w) m o mt
       (offset_after true (files w !! TEMPORARY_LOG_FILE) (tmplog_offset w)) a t)
  = match a with
    | true => <[FLAG_FILE := flag_bytes (updatepath w)]> (finish_files intent w)
    | false => finish_files intent w
    end.
Proof.
  unfold finish_files at 1. cbn [upd files locale bAutoUpdateComplete
    tmplog_offset updatepath].
  assert (E1 : intent_files intent (finish_files intent w) = finish_files intent w).
  { unfold intent_files. destruct intent as [s|]; [|done].
    apply insert_id. by apply finish_files_intent. }
  rewrite E1.
  assert (E2 : locale_files (locale w) (finish_files intent w) = finish_files intent w).
  { unfold locale_files. destruct (locale w) as [l|] eqn:El; [|done].
    apply insert_id. by apply finish_files_locale. }
  rewrite E2.
  assert (E3 : logs_files
                 (offset_after true (files w !! TEMPORARY_LOG_FILE) (tmplog_offset w))
                 (finish_files intent w) = finish_files intent w).
  { unfold logs_files.
    rewrite (finish_files_other intent w TEMPORARY_LOG_FILE) by path_neq.
    rewrite (finish_files_other intent w TEMPORARY_INSTALL_FILE) by path_neq.
    rewrite finish_files_log, log_after_again.
    rewrite (insert_id _ LOG_FILE) by apply finish_files_log.
    rewrite (insert_id _ LAST_LOG_FILE) by apply finish_files_last_log.
    apply insert_id, finish_files_last_install. }
  rewrite E3. unfold flag_files. destruct a.
  - rewrite delete_insert_ne by path_neq.
    by rewrite (delete_id _ _ (finish_files_command intent w)).
  - apply delete_id, finish_files_command.
Qed.

Lemma finish_modes_fixed w b f o mt off a t :
  finish_modes (upd w b f (finish_modes w) o mt off a t) = finish_modes w.
Proof.
  unfold finish_modes at 1. cbn [upd modes]. unfold finish_modes.
  apply map_eq. intros k. rewrite !lookup_insert.
  repeat case_decide; done.
Qed.

Lemma finish_owners_fixed w b f m mt off a t :
  finish_owners (upd w b f m (finish_owners w) mt off a t) = finish_owners w.
Proof.
  unfold finish_owners at 1. cbn [upd owners]. unfold finish_owners.
  by rewrite insert_insert_eq.
Qed.

Section Idempotence.
Context `{L : BcbLayout}.

Lemma finish_bcb_fixed w f m o mt off a t :
  finish_bcb (upd w (finish_bcb w) f m o mt off a t) = finish_bcb w.
Proof.
  unfold finish_bcb at 1. cbn [upd bcb bClearbootmessage]. unfold finish_bcb.
  by destruct (bClearbootmessage w).
Qed.

(** C2, as the code has it.  When the cache volume mounts and the update path
    fits the flag buffer, [finish_recovery] runs to its end, and a second run
    on the world the first one leaves (same intent, same locale, the offset the
    first run left, temporary logs untouched) leaves every file byte for byte
    as it was, the cumulative log in particular, and the same permission bits,
    owners, offset and control block; the command file is absent after both
    runs and the second run logs no warning.  The control block is all zero
    after both runs when [bClearbootmessage] is false; when it is true neither
    run touches it. *)
Theorem finish_recovery_idempotent (send_intent : option cstring) (w : World) :
  mount_ok w = true ->
  length (updatepath w) < 147 ->
  exists w1 w2 t2,
    finish_recovery send_intent w = Done w1
    /\ finish_recovery send_intent w1 = Done w2
    /\ same_state w2 w1
    /\ files w2 !! LOG_FILE = files w1 !! LOG_FILE
    /\ files w1 !! COMMAND_FILE = None
    /\ files w2 !! COMMAND_FILE = None
    /\ trace w2 = trace w1 ++ t2 /\ no_warning t2
    /\ bcb w1 = (if bClearbootmessage w then bcb w else zero_message)
    /\ bcb w2 = bcb w1.
Proof.
  intros Hm Hfit.
  destruct (finish_recovery_mounted send_intent w Hm (fun _ => Hfit))
    as (t1 & Hrun1 & _).
  match type of Hrun1 with _ = Done ?w' => set (w1 := w') in * end.
  assert (Hm1 : mount_ok w1 = true) by exact Hm.
  assert (Hfit1 : bAutoUpdateComplete w1 = true -> length (updatepath w1) < 147)
    by (intros _; exact Hfit).
  destruct (finish_recovery_mounted send_intent w1 Hm1 Hfit1) as (t2 & Hrun2 & Ht2).
  assert (Hfiles : finish_files send_intent w1 = finish_files send_intent w).
  { subst w1. by rewrite finish_files_fixed. }
  assert (Hmodes : finish_modes w1 = finish_modes w).
  { subst w1. by rewrite finish_modes_fixed. }
  assert (Howners : finish_owners w1 = finish_owners w).
  { subst w1. by rewrite finish_owners_fixed. }
  assert (Hbcb : finish_bcb w1 = finish_bcb w).
  { subst w1. by rewrite finish_bcb_fixed. }
  assert (Hoff : offset_after true (files w1 !! TEMPORARY_LOG_FILE) (tmplog_offset w1)
                 = tmplog_offset w1).
  { subst w1. cbn [upd files tmplog_offset].
    rewrite (finish_files_other send_intent w TEMPORARY_LOG_FILE) by path_neq.
    apply offset_after_again. }
  rewrite Hfiles, Hmodes, Howners, Hbcb, Hoff in Hrun2.
  eexists w1, _, t2. split; [exact Hrun1|]. split; [exact Hrun2|].
  split; [reflexivity|]. split; [reflexivity|].
  split; [apply finish_files_command|]. split; [apply finish_files_command|].
  split; [reflexivity|]. split; [exact Ht2|]. split; reflexivity.
Qed.

End Idempotence.

Lemma finish_recovery_idempotent_witness :
  exists w1 w2 t2,
    finish_recovery (L := aosp_layout) (Some (lit "done")) logged_world = Done w1
    /\ finish_recovery (L := aosp_layout) (Some (lit "done")) w1 = Done w2
    /\ same_state w2 w1
    /\ files w2 !! LOG_FILE = files w1 !! LOG_FILE
    /\ files w1 !! COMMAND_FILE = None
    /\ files w2 !! COMMAND_FILE = None
    /\ trace w2 = trace w1 ++ t2 /\ no_warning t2
    /\ bcb w1 = (if bClearbootmessage logged_world then bcb logged_world
                 else zero_message (H := aosp_layout))
    /\ bcb w2 = bcb w1.
Proof.
  apply (finish_recovery_idempotent (L := aosp_layout) (Some (lit "done"))
           logged_world).
  - reflexivity.
  - simpl. lia.
Defined.

(** C2 fails as stated: with [bClearbootmessage] set, two runs of
    [finish_recovery] leave the control block as it was, boot-recovery command
    included, not all zero. *)
Lemma finish_recovery_counterexample :
  bcb_of (finish_twice (H := aosp_layout) None keep_recovery_world)
  = Some (bcb keep_recovery_world)
  /\ cstr (command (bcb keep_recovery_world)) = lit "boot-recovery"
  /\ bcb keep_recovery_world <> zero_message (H := aosp_layout).
Proof.
  split; [vm_compute; reflexivity|]. split; [vm_compute; reflexivity|].
  vm_compute. discriminate.
Qed.

(** ** erase_volume *)

Lemma lookup_keep_outside_cache {A} (m : gmap string A) p :
  under_cache p = false -> keep_outside_cache m !! p = m !! p.
Proof.
  intros Hp. unfold keep_outside_cache.
  destruct (m !! p) as [x|] eqn:E.
  - apply map_lookup_filter_Some. by split.
  - apply map_lookup_filter_None. left. done.
Qed.

Lemma lookup_keep_outside_cache_inside {A} (m : gmap string A) p :
  under_cache p = true -> keep_outside_cache m !! p = None.
Proof.
  intros Hp. unfold keep_outside_cache. apply map_lookup_filter_None.
  right. intros x _. cbn. congruence.
Qed.

Lemma erase_volume_closed volume w :
  exists t,
    snd (erase_volume volume w)
    = upd w (bcb w)
        (if format_ok w && String.eqb volume CACHE_ROOT
         then keep_outside_cache (files w) else files w)
        (if format_ok w && String.eqb volume CACHE_ROOT
         then keep_outside_cache (modes w) else modes w)
        (if format_ok w && String.eqb volume CACHE_ROOT
         then keep_outside_cache (owners w) else owners w)
        (if under_cache volume then false else cache_mounted w)
        (if String.eqb volume "/cache" then 0%Z else tmplog_offset w)
        (bAutoUpdateComplete w) (trace w ++ t)
    /\ fst (erase_volume volume w) = (if format_ok w then 0%Z else (-1)%Z).
Proof.
  destruct w as [b f m o mt mok fok off loc au clr up tr].
  unfold erase_volume, ensure_path_unmounted, format_volume.
  change CACHE_ROOT with "/cache"%string.
  destruct (under_cache volume), (String.eqb volume "/cache"), fok;
    world_cbv; cbn [andb];
    (eexists; split; [rewrite <- ?app_assoc; reflexivity|reflexivity]).
Qed.

(** C4, as the code has it.  [erase_volume] on "/cache" leaves
    [tmplog_offset] at zero, whatever the formatter answers, and on any other
    volume leaves it as it was.  The appending copy that follows an erase of
    "/cache" therefore reads the temporary log from byte 0: it appends the
    whole log, the bytes flushed before the erase included, to what the erase
    left of the cumulative log, which is nothing when the format succeeded,
    and leaves the offset at the end of the temporary log. *)
Theorem erase_volume_resets_log_offset (w : World) :
  tmplog_offset (snd (erase_volume "/cache" w)) = 0%Z
  /\ (forall volume, volume <> "/cache"%string ->
        tmplog_offset (snd (erase_volume volume w)) = tmplog_offset w)
  /\ (forall t,
        mount_ok w = true ->
        files w !! TEMPORARY_LOG_FILE = Some t ->
        let w1 := snd (erase_volume "/cache" w) in
        let w2 := copy_log_file TEMPORARY_LOG_FILE LOG_FILE true w1 in
        files w2 !! LOG_FILE
        = Some (default [] (files w1 !! LOG_FILE) ++ copied (length t) t)
        /\ tmplog_offset w2 = Z.of_nat (length t)
        /\ (format_ok w = true -> files w1 !! LOG_FILE = None)).
Proof.
  split; [|split].
  - destruct (erase_volume_closed "/cache" w) as (t & -> & _). reflexivity.
  - intros volume Hv. destruct (erase_volume_closed volume w) as (t & -> & _).
    cbn [upd tmplog_offset]. apply String.eqb_neq in Hv. by rewrite Hv.
  - intros t Hm Ht w1 w2.
    destruct (erase_volume_closed "/cache" w) as (t1 & Hw1 & _).
    assert (Hsrc : files w1 !! TEMPORARY_LOG_FILE = Some t).
    { subst w1. rewrite Hw1. cbn [upd files]. change ("/cache" =? CACHE_ROOT)%string with true.
      destruct (format_ok w); cbn [andb]; [|done].
      by rewrite lookup_keep_outside_cache. }
    assert (Hoff : tmplog_offset w1 = 0%Z) by (subst w1; by rewrite Hw1).
    assert (Hm1 : mount_ok w1 = true) by (subst w1; by rewrite Hw1).
    destruct (copy_log_file_mounted TEMPORARY_LOG_FILE LOG_FILE true w1 Hm1
                eq_refl eq_refl) as (t2 & Hw2 & _).
    subst w2. rewrite Hw2. cbn [upd files tmplog_offset].
    rewrite lookup_insert_eq, Hsrc, Hoff.
    unfold log_after, offset_after, ftell_at_eof, fseek_set.
    cbn [Z.to_nat drop]. rewrite drop_0. split; [done|]. split.
    + reflexivity.
    + intros Hf. subst w1. rewrite Hw1. cbn [upd files].
      change ("/cache" =? CACHE_ROOT)%string with true. rewrite Hf. cbn [andb].
      by apply lookup_keep_outside_cache_inside.
Qed.

(** C4 fails as stated: the copy after the erase appends again the four
    bytes that were flushed before it.  Where the format failed they stand
    twice in the cumulative log; where it succeeded they are the whole log. *)
Lemma erase_volume_counterexample :
  log_after_erase false = Some (lit "abc" ++ [LF] ++ lit "abc" ++ [LF])
  /\ log_after_erase true = Some (lit "abc" ++ [LF])
  /\ ~ no_recopy_as_stated.
Proof.
  split; [vm_compute; reflexivity|]. split; [vm_compute; reflexivity|].
  intros H.
  assert (Hm : mount_ok (flushed_world false) = true) by (vm_compute; reflexivity).
  assert (Ht : files (flushed_world false) !! TEMPORARY_LOG_FILE
               = Some (lit "abc" ++ [LF])) by (vm_compute; reflexivity).
  pose proof (H (flushed_world false) (lit "abc" ++ [LF]) Hm Ht) as H2.
  match type of H2 with
  | ?T => assert (F : ~ T) by (vm_compute; discriminate)
  end.
  exact (F H2).
Qed.

(** ** The ext4 superblock reader *)

Module Ext4Facts.
Import Ext4.
Local Open Scope Z_scope.

Section Reader.
Context `{E : Ext4Lib}.

(** Up to the test of the superblock. *)
Lemma read_ext_header (f : fd_state) :
  Z.of_nat (length (superblock_read f)) = sizeof_sb ->
  read_ext f
  = (let '(bad, g) := test_sb (superblock_of f) (after_superblock f) in
     if negb (bad =? 0) then (-1, g) else
     let '(info, aux_info) := ext4_parse_sb (superblock_of f) in
     let '(ret, g) := lseek64 (s64 (len info)) g in
     if ret <? 0 then
       (-1, LOGE "read_ext->failed to seek to end of input image\n" g) else
     let '(ret, g) :=
       lseek64 (u32 (block_size info * (first_data_block aux_info + 1))) g in
     if ret <? 0 then
       (-1, LOGE "read_ext->failed to seek to block group descriptors\n" g) else
     let '(_, ret, g) := read (u32 (block_size info * bg_desc_blocks aux_info)) g in
     if ret <? 0 then
       (-1, LOGE "read_ext->failed to read block group descriptors\n" g) else
     if negb (ret =? s32 (s32 (block_size info) * s32 (bg_desc_blocks aux_info))) then
       (-1, LOGE "read_ext->failed to read all of block group descriptors\n" g) else
     let g := LOGE "Found filesystem with parameters:\n" g in
     (s32 (len info), g)).
Proof.
  intros Hlen. unfold read_ext at 1. unfold lseek64 at 1. unfold read at 1.
  cbn [Z.ltb Z.compare fd_bytes fd_pos fd_io io_emit].
  fold (superblock_read f). rewrite Hlen.
  assert (Hnn : (sizeof_sb <? 0) = false).
  { apply Z.ltb_ge. rewrite <- Hlen. lia. }
  rewrite Hnn, Z.eqb_refl. cbn [negb].
  fold (superblock_of f). unfold io_emit. cbn [fd_bytes fd_pos fd_io].
  rewrite <- app_assoc. unfold after_superblock. cbn [app]. reflexivity.
Qed.

(** The value [read_ext] returns is -1 or the reported length cut to [int]. *)
Lemma read_ext_value (f : fd_state) :
  Z.of_nat (length (superblock_read f)) = sizeof_sb ->
  fst (read_ext f) = -1 \/ fst (read_ext f) = s32 (reported_length f).
Proof.
  intros Hlen. rewrite read_ext_header by done. unfold reported_length.
  destruct (test_sb _ _) as [bad f0]. destruct (negb (bad =? 0)); [by left|].
  destruct (ext4_parse_sb _) as [info aux]. cbn [fst].
  destruct (lseek64 (s64 (len info)) f0) as [r1 f1].
  destruct (r1 <? 0); [by left|].
  destruct (lseek64 _ f1) as [r2 f2]. destruct (r2 <? 0); [by left|].
  destruct (read _ f2) as [[d r3] f3]. destruct (r3 <? 0); [by left|].
  destruct (negb _); [by left|by right].
Qed.

(** C5, the two rejections and the value on success, as the code has them.
    When the superblock is read whole: a magic other than
    [EXT4_SUPER_MAGIC], or the right magic with the [EXT4_VALID_FS] bit
    cleared, ends [read_ext] with -1 after the one seek and the one read of
    the superblock, so no block group descriptor is read; and a run that does
    not end with -1 returns the reported length converted to [int], which is
    the reported length only below 2^31. *)
Theorem read_ext_superblock_validation (f : fd_state) :
  Z.of_nat (length (superblock_read f)) = sizeof_sb ->
  (s_magic (superblock_of f) <> EXT4_SUPER_MAGIC ->
   read_ext f
   = (-1, LOGE "superblock magic incorrect\n" (after_superblock f)))
  /\ (s_magic (superblock_of f) = EXT4_SUPER_MAGIC ->
      Z.land (s_state (superblock_of f)) EXT4_VALID_FS <> EXT4_VALID_FS ->
      read_ext f
      = (-1, LOGE "filesystem state not valid\n" (after_superblock f)))
  /\ (fst (read_ext f) <> -1 ->
      fst (read_ext f) = s32 (reported_length f)
      /\ (0 <= reported_length f < 2 ^ 31 -> fst (read_ext f) = reported_length f)).
Proof.
  intros Hlen. split; [|split].
  - intros Hm. rewrite read_ext_header by done. unfold test_sb.
    apply Z.eqb_neq in Hm. rewrite Hm. reflexivity.
  - intros Hm Hs. rewrite read_ext_header by done. unfold test_sb.
    apply Z.eqb_eq in Hm. apply Z.eqb_neq in Hs. rewrite Hm, Hs. reflexivity.
  - intros Hok. destruct (read_ext_value f Hlen) as [?|Hv]; [done|].
    split; [done|]. intros Hr. rewrite Hv. unfold s32, wrap_signed.
    rewrite Z.mod_small by lia.
    destruct (reported_length f <? 2 ^ (32 - 1)) eqn:El; [done|].
    apply Z.ltb_ge in El. change (2 ^ (32 - 1)) with (2 ^ 31) in El. lia.
Qed.

(** C9.  [get_fs_total_size] returns a [size_t]: whatever happens the value
    lies between 0 and [SIZE_MAX], the test [size < 0] never holds, and both
    when the device cannot be opened and when [read_ext] fails with -1 the
    value is [SIZE_MAX], the wrapped -1. *)
Theorem get_fs_total_size_never_fails (device : option (list Z)) :
  0 < size_t_bits ->
  0 <= get_fs_total_size device < 2 ^ size_t_bits
  /\ (device = None -> get_fs_total_size device = 2 ^ size_t_bits - 1)
  /\ (forall bytes, device = Some bytes ->
        get_fs_total_size device = to_size_t (fst (read_ext (Fd bytes 0 [])))
        /\ (fst (read_ext (Fd bytes 0 [])) = -1 ->
            get_fs_total_size device = 2 ^ size_t_bits - 1)).
Proof.
  intros Hbits.
  assert (Hpow : 0 < 2 ^ size_t_bits) by (apply Z.pow_pos_nonneg; lia).
  assert (Hmax : to_size_t (-1) = 2 ^ size_t_bits - 1).
  { unfold to_size_t, wrap_unsigned.
    replace (-1) with (2 ^ size_t_bits - 1 + (-1) * 2 ^ size_t_bits) by lia.
    rewrite Z.mod_add by lia. apply Z.mod_small. lia. }
  assert (Hrange : forall x, 0 <= to_size_t x < 2 ^ size_t_bits).
  { intros x. unfold to_size_t, wrap_unsigned. apply Z.mod_pos_bound. lia. }
  assert (Hval : forall bytes,
            get_fs_total_size (Some bytes)
            = to_size_t (fst (read_ext (Fd bytes 0 [])))).
  { intros bytes. unfold get_fs_total_size.
    destruct (to_size_t _ <? 0) eqn:El; [|done].
    apply Z.ltb_lt in El. specialize (Hrange (fst (read_ext (Fd bytes 0 [])))). lia. }
  split; [|split].
  - destruct device as [bytes|]; [rewrite Hval; apply Hrange|].
    cbn [get_fs_total_size]. apply Hrange.
  - intros ->. exact Hmax.
  - intros bytes ->. split; [apply Hval|]. intros Hfail.
    by rewrite Hval, Hfail.
Qed.

End Reader.

Lemma read_ext_superblock_validation_witness :
  read_ext (E := ext4_layout) (Fd (ext4_device 4660 1 1024) 0 [])
  = (-1, LOGE "superblock magic incorrect\n"
           (after_superblock (H := ext4_layout) (Fd (ext4_device 4660 1 1024) 0 [])))
  /\ read_ext (E := ext4_layout) (Fd (ext4_device 61267 0 1024) 0 [])
     = (-1, LOGE "filesystem state not valid\n"
              (after_superblock (H := ext4_layout)
                 (Fd (ext4_device 61267 0 1024) 0 [])))
  /\ fst (read_ext (E := ext4_layout) (Fd (ext4_device 61267 1 1024) 0 []))
     = 4194304.
Proof.
  split; [|split].
  - apply (read_ext_superblock_validation (E := ext4_layout)
             (Fd (ext4_device 4660 1 1024) 0 [])).
    + vm_compute. reflexivity.
    + vm_compute. discriminate.
  - apply (read_ext_superblock_validation (E := ext4_layout)
             (Fd (ext4_device 61267 0 1024) 0 [])).
    + vm_compute. reflexivity.
    + vm_compute. reflexivity.
    + vm_compute. discriminate.
  - destruct (read_ext_superblock_validation (E := ext4_layout)
                (Fd (ext4_device 61267 1 1024) 0 [])) as (_ & _ & H).
    + vm_compute. reflexivity.
    + destruct H as [H _].
      * vm_compute. discriminate.
      * refine (eq_trans H _). vm_compute. reflexivity.
Defined.

(** The failing input of C5: a valid file system of 2^20 blocks of 4096
    bytes reports 2^32 bytes, and [read_ext] returns 0. *)
Lemma read_ext_large_filesystem :
  reported_length (H := ext4_layout) (Fd (ext4_device 61267 1 1048576) 0 [])
  = 4294967296
  /\ fst (read_ext (E := ext4_layout) (Fd (ext4_device 61267 1 1048576) 0 [])) = 0.
Proof. split; vm_compute; reflexivity. Qed.

Lemma get_fs_total_size_never_fails_witness :
  get_fs_total_size (E := ext4_layout) None = 4294967295
  /\ get_fs_total_size (E := ext4_layout) (Some (ext4_device 4660 1 1024))
     = 4294967295.
Proof.
  split.
  - apply (get_fs_total_size_never_fails (E := ext4_layout) None); [reflexivity|].
    reflexivity.
  - destruct (get_fs_total_size_never_fails (E := ext4_layout)
                (Some (ext4_device 4660 1 1024))) as (_ & _ & H); [reflexivity|].
    apply (H _ eq_refl). vm_compute. reflexivity.
Defined.

End Ext4Facts.

(** ** The clone fallback *)

Module CloneFacts.
Import Clone.
Local Open Scope Z_scope.

(** C7.  When /proc/mtd can be read and the partition table has no
    partition named "databk", [clone_data_if_exist] returns -1 and the trace
    gains log lines and the scan only: [simg2img] is not called, so nothing
    is written to the data partition. *)
Theorem clone_data_missing_backup (env : Env) :
  proc_mtd env <> None ->
  mtd_find_partition_by_name DATABK_PARTITION_NAME env = None ->
  exists t,
    clone_data_if_exist env
    = Done (-1, MkEnv (proc_mtd env) (mtd_table env) (simg2img_status env)
                  (events env ++ t))
    /\ Forall (fun e => ~ is_simg2img e) t.
Proof.
  intros Hproc Hfind. unfold clone_data_if_exist.
  destruct (proc_mtd env) as [content|] eqn:Ep; [|done].
  assert (Hnb : (Z.of_nat (Nat.min (length content) 2047) <? 0) = false)
    by (apply Z.ltb_ge; lia).
  rewrite Hnb. unfold mtd_scan_partitions.
  assert (Hfind' : forall e1 e2,
            mtd_find_partition_by_name DATABK_PARTITION_NAME (emit e2 (emit e1 env))
            = None).
  { intros e1 e2. exact Hfind. }
  destruct (_ <=? 0).
  - eexists. split.
    + unfold emit. cbn [proc_mtd mtd_table simg2img_status events].
      rewrite Ep, <- !app_assoc. reflexivity.
    + repeat constructor; by intros [].
  - rewrite Hfind'. eexists. split.
    + unfold emit. cbn [proc_mtd mtd_table simg2img_status events].
      rewrite Ep, <- !app_assoc. reflexivity.
    + repeat constructor; by intros [].
Qed.

Lemma clone_data_missing_backup_witness :
  exists t,
    clone_data_if_exist env_without_databk
    = Done (-1, MkEnv (proc_mtd env_without_databk) (mtd_table env_without_databk)
                  (simg2img_status env_without_databk)
                  (events env_without_databk ++ t))
    /\ Forall (fun e => ~ is_simg2img e) t.
Proof.
  apply (clone_data_missing_backup env_without_databk).
  - discriminate.
  - reflexivity.
Defined.

End CloneFacts.

(** ** The menu loop *)

Module MenuFacts.
Import Menu.
Local Open Scope Z_scope.

Section Loop.
Context {S : Type} `{I : Interface S}.

(** A turn never leaves the loop with a negative value. *)
Lemma loop_body_return (menu_only : Z) (l : locals) (s : S) (v : Z) (s' : S) :
  loop_body menu_only l s = Return v s' -> v = 0.
Proof.
  unfold loop_body. destruct (WaitKey s) as [key s1].
  destruct (key =? -1).
  { destruct (WasTextEverVisible s1); [discriminate|]. by intros [= <- _]. }
  destruct (HandleMenuKey _ _ s1) as [action s2].
  destruct (action <? 0).
  - destruct (action =? kHighlightUp); [by destruct (SelectMenu _ s2)|].
    destruct (action =? kHighlightDown); [by destruct (SelectMenu _ s2)|].
    by destruct (action =? kInvokeItem).
  - by destruct (menu_only =? 0).
Qed.

Lemma menu_loop_nonneg (fuel : nat) (menu_only : Z) (l : locals) (s : S)
    (v : Z) (s' : S) :
  menu_loop fuel menu_only l s = Some (v, s') -> 0 <= v.
Proof.
  revert l s. induction fuel as [|fuel IH]; intros l s; simpl.
  - destruct (chosen_item l <? 0) eqn:E; [discriminate|].
    intros [= <- _]. by apply Z.ltb_ge.
  - destruct (chosen_item l <? 0) eqn:E.
    + destruct (loop_body menu_only l s) as [v0 s0|l0 s0] eqn:B.
      * intros [= <- _]. apply loop_body_return in B. lia.
      * apply IH.
    + intros [= <- _]. by apply Z.ltb_ge.
Qed.

Lemma menu_loop_chosen (fuel : nat) (menu_only : Z) (l : locals) (s : S) :
  0 <= chosen_item l ->
  menu_loop fuel menu_only l s = Some (chosen_item l, EndMenu s).
Proof.
  intros H. apply Z.ltb_ge in H. by destruct fuel; simpl; rewrite H.
Qed.

Lemma menu_loop_turn (fuel : nat) (menu_only : Z) (l : locals) (s : S) :
  chosen_item l < 0 ->
  menu_loop (Datatypes.S fuel) menu_only l s
  = match loop_body menu_only l s with
    | Return v s' => Some (v, s')
    | Again l' s' => menu_loop fuel menu_only l' s'
    end.
Proof. intros H. apply Z.ltb_lt in H. simpl. by rewrite H. Qed.

(** C8.  In a turn of the loop of [get_menu_selection] whose key wait timed
    out: when text was never visible the function logs the reboot line, ends
    the menu and returns 0; when text was ever visible the turn changes no
    local variable and the loop test is evaluated again.  The loop leaves
    through its test exactly when [chosen_item] is at least 0, it then ends
    the menu and returns [chosen_item]; while [chosen_item] is negative it
    takes another turn, and every value returned is at least 0. *)
Theorem get_menu_selection_timeout (menu_only : Z) (l : locals) (s : S) :
  (forall s1, WaitKey s = (-1, s1) ->
     (WasTextEverVisible s1 = false ->
        loop_body menu_only l s
        = Return 0 (EndMenu (LOGI "timed out waiting for key input; rebooting.\n" s1)))
     /\ (WasTextEverVisible s1 = true -> loop_body menu_only l s = Again l s1))
  /\ (forall fuel, 0 <= chosen_item l ->
        menu_loop fuel menu_only l s = Some (chosen_item l, EndMenu s))
  /\ (forall fuel, chosen_item l < 0 ->
        menu_loop 0 menu_only l s = None
        /\ menu_loop (Datatypes.S fuel) menu_only l s
           = match loop_body menu_only l s with
             | Return v s' => Some (v, s')
             | Again l' s' => menu_loop fuel menu_only l' s'
             end)
  /\ (forall fuel v s', menu_loop fuel menu_only l s = Some (v, s') -> 0 <= v).
Proof.
  split; [|split; [|split]].
  - intros s1 Hkey. unfold loop_body. rewrite Hkey. simpl.
    split; intros ->; reflexivity.
  - intros fuel. apply menu_loop_chosen.
  - intros fuel H. split; [|by apply menu_loop_turn].
    apply Z.ltb_lt in H. simpl. by rewrite H.
  - intros fuel v s'. apply menu_loop_nonneg.
Qed.

End Loop.

Lemma get_menu_selection_timeout_witness :
  loop_body 0 (Locals 0 (-1)) dark_screen
  = Return 0 (MkScript [] false false 3 false
                ["timed out waiting for key input; rebooting.\n"])
  /\ get_menu_selection 5 ["Android system recovery"]
       ["reboot"; "apply update"; "wipe data"] 0 0 lit_screen
     = Some (1, MkScript [] true true 3 false [])
  /\ 0 <= 1.
Proof.
  split; [|split].
  - destruct (get_menu_selection_timeout 0 (Locals 0 (-1)) dark_screen)
      as [timeout _].
    destruct (timeout dark_screen) as [never _]; [reflexivity|].
    apply never. reflexivity.
  - reflexivity.
  - destruct (get_menu_selection_timeout 0 (Locals 0 (-1)) lit_screen)
      as (_ & _ & _ & nonneg).
    apply (nonneg 5%nat 1 (MkScript [] true true 3 false [])). reflexivity.
Defined.

End MenuFacts.

(** ** The FAT32 label writer *)

Module Fat32Facts.
Import Fat32.
Local Open Scope Z_scope.

Lemma extends_refl (env : Env) : extends env env [].
Proof. unfold extends. by rewrite app_nil_r. Qed.

Lemma extends_emit (env env' : Env) (t : list ev) (e : ev) :
  extends env env' t -> extends env (emit e env') (t ++ [e]).
Proof.
  intros (? & ? & ? & ? & Hev). unfold extends, emit. simpl.
  rewrite Hev, app_assoc. done.
Qed.

Lemma extends_with_pos (env env' : Env) (t : list ev) (p : Z) :
  extends env env' t -> extends env (with_pos env' p) t.
Proof. intros (? & ? & ? & ? & ?). by unfold extends, with_pos. Qed.

Lemma extends_read512 (env env' : Env) (t : list ev) :
  extends env env' t ->
  extends env (read512 env').2 (t ++ [EvRead (read512 env').1.2]).
Proof.
  intros H. unfold read512. simpl. by apply extends_emit, extends_with_pos.
Qed.

(** With the empty name the part after the open never reaches the directory
    walk: it needs no fuel, returns one of -5 .. -8 and adds the read of the
    boot sector and one log line. *)
Lemma label_device_empty_name (fuel : nat) (name : CStr.cstring) (env : Env) :
  CStr.strlen name = 0%nat ->
  exists r msg,
    label_device fuel name env
    = Some (r, LOG LogE msg (read512 env).2)
    /\ -8 <= r <= -5
    /\ (r = -8 -> (read512 env).1.2 = 512 /\ msg = "Volume name is empty!\n"%string).
Proof.
  intros Hname. unfold label_device.
  destruct (read512 env) as [[buf nRead] env1]. simpl.
  destruct (negb (nRead =? 512)) eqn:E1.
  { eexists _, _. split; [reflexivity|]. split; [lia|]. lia. }
  destruct (negb (bool_decide _)).
  { eexists _, _. split; [reflexivity|]. split; [lia|]. lia. }
  destruct (_ || _).
  { eexists _, _. split; [reflexivity|]. split; [lia|]. lia. }
  rewrite Hname. simpl.
  eexists _, _. split; [reflexivity|]. split; [lia|].
  intros _. split; [|done].
  apply negb_false_iff, Z.eqb_eq in E1. done.
Qed.

(** C6.  A call of [set_fat32_volumename] with a name of length 0, on a
    volume whose device name fits [mtdName], returns for every fuel, with a
    status between -8 and -1; it leaves the bytes of the device as they were
    and its trace has no write.  The status of the empty name, -8, is
    returned only after the device was opened and its boot sector read. *)
Theorem set_fat32_volumename_empty_name (fuel : nat) (volume : string)
    (name : CStr.cstring) (env : Env) :
  CStr.strlen name = 0%nat ->
  device_name_fits volume env ->
  exists r env' t,
    set_fat32_volumename fuel volume name env = Done (Some (r, env'))
    /\ -8 <= r <= -1
    /\ extends env env' t
    /\ Forall (fun e => ~ is_write e) t
    /\ (r = -8 ->
        exists path, In (EvOpen path true) t /\ In (EvRead 512) t).
Proof.
  intros Hname Hfits. unfold set_fat32_volumename.
  set (env1 := emit (EvUnmount volume) (LOG LogI "set_fat32_volumename in\n" env)).
  assert (X1 : extends env env1
                 [EvLog LogI "set_fat32_volumename in\n"; EvUnmount volume]).
  { apply (extends_emit _ _ [_]), (extends_emit _ _ []), extends_refl. }
  pose proof X1 as (Hu & Hv & Hp & Hd & _).
  destruct (negb (unmount_status env1 =? 0)).
  { eexists _, _, _. split; [reflexivity|]. split; [lia|].
    split; [apply extends_emit, extends_emit, X1|].
    split; [repeat constructor; by intros []|]. lia. }
  rewrite Hv. destruct (volume_for_path env volume) as [device|] eqn:Ev.
  2:{ eexists _, _, _. split; [reflexivity|]. split; [lia|].
      split; [apply extends_emit, extends_emit, X1|].
      split; [repeat constructor; by intros []|]. lia. }
  specialize (Hfits device Ev).
  assert (Hle : (32 <=? String.length (mtd_name device))%nat = false)
    by (apply Nat.leb_gt; exact Hfits).
  rewrite Hle, Hp.
  destruct (partition_index env (mtd_name device)) as [index|].
  2:{ eexists _, _, _. split; [reflexivity|]. split; [lia|].
      split; [apply extends_emit, extends_emit, X1|].
      split; [repeat constructor; by intros []|]. lia. }
  rewrite Hd. destruct (disk env) as [d|] eqn:Ed.
  2:{ eexists _, _, _. split; [reflexivity|]. split; [lia|].
      split; [apply extends_emit, extends_emit, extends_emit, X1|].
      split; [repeat constructor; by intros []|]. lia. }
  set (path := ("/dev/mtd/mtd" ++ pretty.pretty index)%string).
  set (env2 := with_pos (emit (EvOpen path true) env1) 0).
  assert (X2 : extends env env2
                 [EvLog LogI "set_fat32_volumename in\n"; EvUnmount volume;
                  EvOpen path true]).
  { apply extends_with_pos, (extends_emit _ _ [_; _]), X1. }
  destruct (label_device_empty_name fuel name env2 Hname)
    as (r & msg & -> & Hr & H8).
  eexists _, _, _. split; [reflexivity|]. split; [lia|].
  split.
  { apply extends_emit, extends_emit, extends_emit, extends_read512, X2. }
  split; [repeat constructor; by intros []|].
  intros ->. destruct H8 as [-> _]; [done|].
  exists path. split; simpl; tauto.
Qed.

Lemma set_fat32_volumename_empty_name_witness :
  exists r env' t,
    set_fat32_volumename 5 "/sdcard" [] sdcard_env = Done (Some (r, env'))
    /\ -8 <= r <= -1
    /\ extends sdcard_env env' t
    /\ Forall (fun e => ~ is_write e) t
    /\ (r = -8 ->
        exists path, In (EvOpen path true) t /\ In (EvRead 512) t).
Proof.
  apply (set_fat32_volumename_empty_name 5 "/sdcard" [] sdcard_env).
  - reflexivity.
  - intros device. unfold sdcard_env. simpl. intros [= <-].
    apply Nat.ltb_lt. vm_compute. reflexivity.
Defined.

(** C6, the stated order fails: on a volume whose boot record is sound the
    call with the empty name opens the device and reads sector 0 before it
    logs that the name is empty, and then returns -8. *)
Lemma set_fat32_volumename_counterexample :
  empty_name_events
  = [EvLog LogI "set_fat32_volumename in\n"; EvUnmount "/sdcard";
     EvOpen "/dev/mtd/mtd7" true; EvRead 512;
     EvLog LogE "Volume name is empty!\n"; EvClose;
     EvLog LogI "set_fat32_volumename out\n"]
  /\ ~ name_checked_first_as_stated.
Proof.
  assert (E : empty_name_events
    = [EvLog LogI "set_fat32_volumename in\n"; EvUnmount "/sdcard";
       EvOpen "/dev/mtd/mtd7" true; EvRead 512;
       EvLog LogE "Volume name is empty!\n"; EvClose;
       EvLog LogI "set_fat32_volumename out\n"])
    by (vm_compute; reflexivity).
  split; [exact E|].
  intros H.
  destruct (set_fat32_volumename 5 "/sdcard" [] sdcard_env)
    as [[[r env']|]|] eqn:R; [| vm_compute in R; discriminate ..].
  specialize (H _ _ _ _ _ R).
  assert (E' : events env' = empty_name_events).
  { unfold empty_name_events. by rewrite R. }
  rewrite E', E in H. vm_compute in H. discriminate.
Qed.

End Fat32Facts.

(** * Further properties of the code *)

(** ** get_args: what it always leaves in the control block *)




Section GetArgsMore.
Context `{L : BcbLayout}.



End GetArgsMore.


(** ** get_args: the tier of the command file *)

Lemma valid_token_not_LF l : valid_token [CR; LF] l -> Forall (fun c => c <> LF) l.
Proof.
  intros [_ H]. eapply Forall_impl; [exact H|]. intros c Hc ->. done.
Qed.

Lemma command_file_arguments_text lines : forall n,
  Forall plain_line lines -> length lines <= n ->
  command_file_arguments n (command_text lines) = Done (map fst lines).
Proof.
  induction lines as [|[l crlf] lines IH]; intros n Hl Hn.
  - by destruct n.
  - destruct n as [|n]; [simpl in Hn; lia|].
    inversion Hl as [|? ? [Htok Hlen] Hl']; subst. cbn [fst snd] in *.
    unfold command_text. cbn [map concat command_file_arguments fst snd].
    fold (command_text lines).
    assert (Hroom : length l + 1 < MAX_ARG_LENGTH - 1)
      by (unfold MAX_ARG_LENGTH in *; lia).
    assert (E : exists x r, in_token [CR; LF] x = false
                /\ fgets (MAX_ARG_LENGTH - 1)
                     ((l ++ (if crlf then [CR; LF] else [LF])) ++ command_text lines)
                   = (l ++ x :: r, command_text lines)).
    { destruct crlf.
      - exists CR, [LF]. split; [done|].
        replace ((l ++ [CR; LF]) ++ command_text lines)
          with ((l ++ [CR]) ++ LF :: command_text lines)
          by (by rewrite <- !app_assoc).
        rewrite fgets_line.
        + by rewrite <- !app_assoc.
        + apply Forall_app. split; [by apply valid_token_not_LF|].
          by repeat constructor.
        + rewrite length_app. cbn [length]. lia.
      - exists LF, []. split; [done|]. rewrite <- app_assoc. cbn [app].
        rewrite fgets_line; [done|by apply valid_token_not_LF|lia]. }
    destruct E as (x & r & Hx & ->).
    rewrite <- app_assoc. cbn [app].
    rewrite (strtok_token [CR; LF] [] l x (r ++ [NUL])) by done. cbn [fst].
    destruct (l ++ x :: r ++ [NUL]) eqn:El; [by destruct l|].
    destruct (l ++ x :: r) eqn:El2; [by destruct l|].
    rewrite (IH n Hl') by (simpl in Hn; lia). reflexivity.
Qed.

Section CommandFileTier.
Context `{L : BcbLayout}.

Lemma args_from_bcb_blank boot argv w :
  head (recovery boot) = Some NUL ->
  (args_from_bcb boot argv w).1.1 = argv.
Proof.
  intros Hh. unfold args_from_bcb. destruct (length argv <=? 1); [|done].
  destruct (recovery boot) as [|c r] eqn:Er; [done|]. injection Hh as ->.
  assert (E : exists r', store (NUL :: r) (recovery_size - 1) NUL = NUL :: r').
  { unfold store. destruct (recovery_size - 1); by eexists. }
  destruct E as [r' ->]. by rewrite strtok_end.
Qed.

(** With at most one live argument and a control block whose recovery field
    is empty, a command file of at most 99 lines, each one token ended by LF
    or CR LF, gives the run its arguments: they follow [argv[0]] in the order
    of the file, without their line ends, and the run stores them in the
    control block, one per line behind "recovery", cut to the size of the
    field. *)
Theorem get_args_reads_command_file
    (argv : list (option cstring)) (w : World) (lines : list (cstring * bool)) :
  length argv <= 1 ->
  length (recovery (bcb w)) = recovery_size ->
  head (recovery (bcb w)) = Some NUL ->
  mount_ok w = true ->
  files w !! COMMAND_FILE = Some (command_text lines) ->
  Forall plain_line lines -> length lines <= MAX_ARGS - 1 ->
  exists w',
    get_args argv w = Done (nth 0 argv None :: map Some (map fst lines), w')
    /\ cstr (recovery (bcb w'))
       = take (recovery_size - 1)
           (lit "recovery" ++ [LF] ++ encode_lines (map fst lines)).
Proof.
  intros Hargc Hrl Hh Hm Hf Hl Hn. unfold get_args, get_bootloader_message.
  assert (Hrs : 0 < recovery_size).
  { rewrite <- Hrl. destruct (recovery (bcb w)); [done|simpl; lia]. }
  match goal with |- context [args_from_bcb ?b ?a ?w0] =>
    pose proof (args_from_bcb_frame b a w0) as [t Ht];
    pose proof (args_from_bcb_blank b a w0 Hh) as Ha;
    pose proof (args_from_bcb_bounds b a w0) as Hb;
    destruct (args_from_bcb b a w0) as [[argv1 boot1] w1]
  end.
  cbn [fst snd] in Ht, Ha. subst argv1. destruct Hb as (_ & Hrec1 & _).
  cbn [bcb with_trace emit] in Hrec1.
  unfold args_from_command_file. apply Nat.leb_le in Hargc. rewrite Hargc.
  subst w1.
  match goal with |- context [fopen_path _ _ ?w0] =>
    assert (exists t0, w0 = with_trace w t0) as [t0 ->]
  end.
  { destruct (first_byte_set (status (bcb w))), (first_byte_set (command (bcb w)));
      by eexists. }
  destruct (fopen_command_file w t0 _ Hm Hf) as [w' ->].
  cbn [f_left]. rewrite command_file_arguments_text by done.
  cbn [bind drop]. rewrite drop_0.
  cbn [set_command set_recovery command status recovery].
  assert (Hnf : Forall nul_free (map fst lines)).
  { apply Forall_map. eapply Forall_impl; [exact Hl|].
    intros l [Hv _]. by eapply valid_token_nul_free. }
  destruct (append_arguments_spec (map fst lines)
              (strlcpy (recovery boot1) (lit "recovery" ++ [LF])) Hnf)
    as (rec & Hrec & _ & Hc).
  { apply strlen_strlcpy; [repeat constructor|lia]. }
  unfold cstring in *. rewrite Hrec. cbn [bind]. eexists. split; [reflexivity|].
  cbn [set_bootloader_message emit with_bcb with_trace bcb recovery set_recovery].
  rewrite Hc, length_strlcpy, Hrec1, Hrl.
  rewrite cstr_strlcpy; [|repeat constructor|lia].
  rewrite Hrec1, Hrl. rewrite take_take_app. by rewrite <- app_assoc.
Qed.

End CommandFileTier.

Lemma get_args_reads_command_file_witness :
  exists w',
    get_args (L := aosp_layout) [Some (lit "/sbin/recovery")] command_file_world
    = Done (map Some [lit "/sbin/recovery"; lit "--wipe_data";
                      lit "--locale=en_US"], w')
    /\ cstr (recovery (bcb w'))
       = lit "recovery" ++ [LF] ++ lit "--wipe_data" ++ [LF]
         ++ lit "--locale=en_US" ++ [LF].
Proof.
  apply (get_args_reads_command_file (L := aosp_layout)
           [Some (lit "/sbin/recovery")] command_file_world
           [(lit "--wipe_data", false); (lit "--locale=en_US", true)]).
  - simpl. lia.
  - reflexivity.
  - reflexivity.
  - reflexivity.
  - reflexivity.
  - repeat constructor; try discriminate; simpl; lia.
  - simpl. lia.
Defined.

(** ** The messages of the sdcard update *)

Lemma bcb_arguments_last n d a junk :
  valid_token [LF] a ->
  (bcb_arguments (S n) (TokBuf d (a ++ NUL :: junk))).1 = [a].
Proof.
  intros Ha. cbn [bcb_arguments].
  rewrite (strtok_token [LF] d a NUL junk) by done.
  change (is_nul NUL) with true. cbv iota.
  destruct n as [|n]; [done|]. cbn [bcb_arguments]. by rewrite strtok_end.
Qed.

Section SdcardMessageFacts.
Context `{L : BcbLayout}.

(** Both messages of the sdcard update build their recovery text in an array
    of 100 bytes of which the literal takes 26: a package path of 74 bytes or
    more is stored past the end of the array, for any shorter path the
    control block stored is "boot-recovery" with the text "recovery", a
    newline, the option and the path, cut to the recovery field; without a
    path the text is the line "recovery" alone. *)
Theorem set_sdcard_update_message_path (p : cstring) (w : World) :
  (74 <= strlen p ->
     set_sdcard_update_bootloader_message (Some p) w = Undefined OutOfBounds
     /\ set_sdcard_update_img_bootloader_message (Some p) w
        = Undefined OutOfBounds)
  /\ (strlen p < 74 ->
        set_sdcard_update_bootloader_message (Some p) w
        = Done (set_bootloader_message
                  (sdcard_block (lit "recovery" ++ [LF]
                                 ++ lit "--update_package=" ++ cstr p)) w)
        /\ set_sdcard_update_img_bootloader_message (Some p) w
           = Done (set_bootloader_message
                     (sdcard_block (lit "recovery" ++ [LF]
                                    ++ lit "--update_rkimage=" ++ cstr p)) w))
  /\ set_sdcard_update_bootloader_message None w
     = Done (set_bootloader_message (sdcard_block (lit "recovery" ++ [LF])) w)
  /\ set_sdcard_update_img_bootloader_message None w
     = Done (set_bootloader_message (sdcard_block (lit "recovery" ++ [LF])) w).
Proof.
  unfold set_sdcard_update_bootloader_message,
    set_sdcard_update_img_bootloader_message, strlen.
  split; [|split; [|split]]; try reflexivity.
  - intros Hp.
    assert (E : forall o, length o = 17 ->
              (100 <=? length (lit "recovery" ++ [LF] ++ o ++ cstr p)) = true).
    { intros o Ho. apply Nat.leb_le. rewrite !length_app, Ho.
      cbn [length lit list_ascii_of_string]. lia. }
    by rewrite !E.
  - intros Hp.
    assert (E : forall o, length o = 17 ->
              (100 <=? length (lit "recovery" ++ [LF] ++ o ++ cstr p)) = false).
    { intros o Ho. apply Nat.leb_gt. rewrite !length_app, Ho.
      cbn [length lit list_ascii_of_string]. lia. }
    by rewrite !E.
Qed.

Lemma args_from_bcb_decodes_last boot argv0 w a :
  length argv0 <= 1 ->
  length (recovery boot) = recovery_size ->
  strlen (recovery boot) < recovery_size ->
  cstr (recovery boot) = lit "recovery" ++ LF :: a ->
  valid_token [LF] a ->
  exists boot',
    args_from_bcb boot argv0 w =
      (map Some [lit "recovery"; a], boot',
       LOG LogI "Got arguments from boot message\n" [] w).
Proof.
  intros Hargc Hlen Hterm Hc Hv. unfold args_from_bcb.
  apply Nat.leb_le in Hargc. rewrite Hargc.
  destruct (cstr_split (recovery boot)) as [junk Hj]; [lia|].
  rewrite <- Hlen.
  destruct (store_last_terminated (cstr (recovery boot)) junk) as [junk' Hs].
  rewrite <- Hj in Hs. rewrite Hs.
  rewrite Hc. rewrite <- app_assoc. cbn [app].
  rewrite (strtok_token [LF] [] (lit "recovery") LF) by (done || apply valid_token_recovery).
  replace (is_nul LF) with false by done.
  replace (cstring_eqb (lit "recovery") (lit "recovery")) with true by done.
  pose proof (bcb_arguments_last (MAX_ARGS - 2)
                ([] ++ lit "recovery" ++ [NUL]) a junk' Hv) as Hd.
  change (S (MAX_ARGS - 2)) with (MAX_ARGS - 1) in Hd.
  destruct (bcb_arguments _ _) as [l tb']. cbn [fst] in Hd. subst l.
  eexists. reflexivity.
Qed.

(** The message of the sdcard update reaches the next boot: when the
    recovery field holds at least 100 bytes and the path has no newline, a
    boot with at most one live argument on the control block that
    [set_sdcard_update_bootloader_message] stored resolves the two arguments
    "recovery" and "--update_package=" followed by the path. *)
Theorem sdcard_update_next_boot
    (p : cstring) (w w1 w' : World) (argv0 : list (option cstring)) :
  100 <= recovery_size ->
  Forall (fun c => in_token [LF] c = true) p ->
  set_sdcard_update_bootloader_message (Some p) w = Done w1 ->
  bcb w' = bcb w1 -> length argv0 <= 1 ->
  exists w2,
    get_args argv0 w'
    = Done (map Some [lit "recovery"; lit "--update_package=" ++ p], w2).
Proof.
  intros Hrs Hp Hset Hbcb Hargc.
  assert (Hnf : nul_free p).
  { eapply Forall_impl; [exact Hp|]. intros c. apply in_token_not_nul. }
  assert (Hcp : cstr p = p) by by apply cstr_whole.
  unfold set_sdcard_update_bootloader_message in Hset. rewrite Hcp in Hset.
  destruct (100 <=? _) eqn:Hfit; [done|]. apply Nat.leb_gt in Hfit.
  injection Hset as <-.
  cbn [set_bootloader_message emit with_bcb with_trace bcb] in Hbcb.
  cbn [set_command set_recovery zero_message command status recovery] in Hbcb.
  set (cmd := lit "recovery" ++ [LF] ++ lit "--update_package=" ++ p) in *.
  assert (Hcmd : nul_free cmd).
  { unfold cmd. repeat (apply Forall_app; split); try done; repeat constructor. }
  assert (Hv : valid_token [LF] (lit "--update_package=" ++ p)).
  { split; [done|]. apply Forall_app. split; [repeat constructor|done]. }
  assert (Hrec : recovery (bcb w') = strlcpy (zeroed recovery_size) cmd)
    by by rewrite Hbcb.
  assert (Hlen : length (recovery (bcb w')) = recovery_size).
  { rewrite Hrec, length_strlcpy. apply length_replicate. }
  assert (Hc : cstr (recovery (bcb w'))
               = lit "recovery" ++ LF :: lit "--update_package=" ++ p).
  { rewrite Hrec, cstr_strlcpy; [|done|unfold zeroed; rewrite length_replicate; lia].
    unfold zeroed. rewrite length_replicate. apply take_ge.
    change (length cmd <= recovery_size - 1). lia. }
  assert (Hterm : strlen (recovery (bcb w')) < recovery_size).
  { unfold strlen. rewrite Hc. change (length cmd < recovery_size). lia. }
  unfold get_args, get_bootloader_message.
  match goal with |- context [args_from_bcb ?b ?a ?w0] =>
    destruct (args_from_bcb_decodes_last b a w0 _ Hargc Hlen Hterm Hc Hv)
      as [boot' ->]
  end.
  unfold args_from_command_file.
  change (length (map Some [lit "recovery"; lit "--update_package=" ++ p]) <=? 1)
    with false.
  cbn [bind map drop].
  match goal with |- context [append_arguments ?r [Some ?a]] =>
    destruct (append_arguments_Done [a] r) as [rec Hr]
  end.
  cbn [map] in Hr. unfold cstring in *. rewrite Hr. cbn [bind]. by eexists.
Qed.

End SdcardMessageFacts.

Lemma sdcard_update_next_boot_witness :
  exists w2,
    get_args (L := aosp_layout) [Some (lit "/sbin/recovery")]
      (set_bootloader_message
         (sdcard_block (H := aosp_layout)
            (lit "recovery" ++ [LF] ++ lit "--update_package="
             ++ lit "/mnt/external_sd/update.zip"))
         blank_world)
    = Done (map Some [lit "recovery";
                      lit "--update_package=" ++ lit "/mnt/external_sd/update.zip"],
            w2).
Proof.
  apply (sdcard_update_next_boot (L := aosp_layout)
           (lit "/mnt/external_sd/update.zip") blank_world
           (set_bootloader_message
              (sdcard_block (H := aosp_layout)
                 (lit "recovery" ++ [LF] ++ lit "--update_package="
                  ++ lit "/mnt/external_sd/update.zip"))
              blank_world)).
  - simpl. lia.
  - repeat constructor.
  - vm_compute. reflexivity.
  - reflexivity.
  - simpl. lia.
Defined.

(** ** The log copy between two runs *)

Lemma drop_app_le' {A} (l k : list A) n :
  n <= length l -> drop n (l ++ k) = drop n l ++ k.
Proof. intros H. rewrite drop_app. replace (n - length l) with 0 by lia. done. Qed.

(** Two appending copies with new log bytes in between lose nothing and
    repeat nothing: when the cache volume mounts and the temporary log holds
    no NUL, copying [t] from the saved offset and then, once the log has
    grown to [t ++ t'], copying again leaves in the destination what it held,
    followed by the log from the first offset on, and the offset at the end
    of the log. *)
Theorem copy_log_file_appends_incrementally
    (src dst : string) (w : World) (t t' : list ascii) :
  mount_ok w = true -> under_cache dst = true -> under_cache src = false ->
  files w !! src = Some t -> nul_free (t ++ t') ->
  (0 <= tmplog_offset w <= Z.of_nat (length t))%Z ->
  let w1 := copy_log_file src dst true w in
  let w2 := copy_log_file src dst true
              (with_files w1 (<[src := t ++ t']> (files w1))) in
  files w2 !! dst
  = Some (default [] (files w !! dst)
          ++ drop (Z.to_nat (tmplog_offset w)) (t ++ t'))
  /\ tmplog_offset w2 = Z.of_nat (length (t ++ t')).
Proof.
  intros Hm Hd Hs Ht Hnf Hoff w1 w2.
  assert (Hne : dst <> src) by (intros ->; congruence).
  apply Forall_app in Hnf as Hnf2. destruct Hnf2 as [Hnt Hnt'].
  destruct (copy_log_file_mounted src dst true w Hm Hd Hs) as (e1 & Hw1 & _).
  fold w1 in Hw1. rewrite Ht in Hw1.
  assert (Hoff1 : tmplog_offset w1 = Z.of_nat (length t)).
  { rewrite Hw1. cbn [upd tmplog_offset offset_after].
    unfold ftell_at_eof, fseek_set. lia. }
  assert (Hlog1 : files w1 !! dst
                  = Some (default [] (files w !! dst)
                          ++ drop (Z.to_nat (tmplog_offset w)) t)).
  { rewrite Hw1. cbn [upd files]. rewrite lookup_insert_eq.
    unfold log_after, fseek_set. rewrite copied_nul_free; [done| |done].
    by apply Forall_drop. }
  set (w1' := with_files w1 (<[src := t ++ t']> (files w1))) in *.
  assert (Hm1 : mount_ok w1' = true) by (unfold w1'; rewrite Hw1; done).
  destruct (copy_log_file_mounted src dst true w1' Hm1 Hd Hs) as (e2 & Hw2 & _).
  fold w2 in Hw2.
  assert (Hsrc : files w1' !! src = Some (t ++ t'))
    by (unfold w1'; cbn [with_files files]; apply lookup_insert_eq).
  assert (Hdst : files w1' !! dst = files w1 !! dst)
    by (unfold w1'; cbn [with_files files]; by rewrite lookup_insert_ne).
  assert (Hoff1' : tmplog_offset w1' = Z.of_nat (length t)) by (by unfold w1').
  rewrite Hsrc, Hdst, Hlog1, Hoff1' in Hw2. rewrite Hw2.
  cbn [upd files tmplog_offset]. rewrite lookup_insert_eq. split.
  - f_equal. unfold log_after, fseek_set. cbn [default].
    rewrite Nat2Z.id, drop_app_length.
    rewrite copied_nul_free by done.
    unfold id. rewrite drop_app_le' by lia. by rewrite <- app_assoc.
  - unfold offset_after, ftell_at_eof, fseek_set. rewrite length_app. lia.
Qed.

Lemma copy_log_file_appends_incrementally_witness :
  let w := logged_world in
  let w1 := copy_log_file TEMPORARY_LOG_FILE LOG_FILE true w in
  let w2 := copy_log_file TEMPORARY_LOG_FILE LOG_FILE true
              (with_files w1
                 (<[TEMPORARY_LOG_FILE :=
                      (lit "line 1" ++ [LF] ++ lit "line 2" ++ [LF])
                      ++ lit "line 3" ++ [LF]]> (files w1))) in
  files w2 !! LOG_FILE
  = Some (default [] (files w !! LOG_FILE)
          ++ drop (Z.to_nat (tmplog_offset w))
               ((lit "line 1" ++ [LF] ++ lit "line 2" ++ [LF])
                ++ lit "line 3" ++ [LF]))
  /\ tmplog_offset w2
     = Z.of_nat (length ((lit "line 1" ++ [LF] ++ lit "line 2" ++ [LF])
                         ++ lit "line 3" ++ [LF])).
Proof.
  apply (copy_log_file_appends_incrementally TEMPORARY_LOG_FILE LOG_FILE
           logged_world (lit "line 1" ++ [LF] ++ lit "line 2" ++ [LF])
           (lit "line 3" ++ [LF])).
  - reflexivity.
  - reflexivity.
  - reflexivity.
  - reflexivity.
  - repeat constructor.
  - simpl. lia.
Defined.

(** ** finish_recovery when the cache volume cannot be mounted *)

Lemma fopen_path_unmountable path mode w :
  mount_ok w = false ->
  fopen_path path mode w
  = (None, upd w (bcb w) (files w) (modes w) (owners w) (cache_mounted w)
             (tmplog_offset w) (bAutoUpdateComplete w)
             (trace w ++ [EvMount path (-1);
                          EvLog LogE "Can't mount %s\n" [lit path]])).
Proof.
  intros Hm. unfold fopen_path, ensure_path_mounted. rewrite Hm.
  cbn [negb Z.eqb]. destruct w. world_cbv. by rewrite <- app_assoc.
Qed.

Lemma copy_log_file_unmountable src dst (append : bool) w :
  mount_ok w = false ->
  copy_log_file src dst append w
  = upd w (bcb w) (files w) (modes w) (owners w) (cache_mounted w)
      (tmplog_offset w) (bAutoUpdateComplete w)
      (trace w ++ [EvMount dst (-1); EvLog LogE "Can't mount %s\n" [lit dst];
                   EvLog LogE "Can't open %s\n" [lit dst]]).
Proof.
  intros Hm. unfold copy_log_file. rewrite fopen_path_unmountable by done.
  destruct w. world_cbv. by rewrite <- app_assoc.
Qed.

Lemma chmod_unmounted path mode w :
  cache_mounted w = false -> under_cache path = true -> chmod path mode w = w.
Proof.
  intros Hc Hp. unfold chmod, file_exists, read_file, visible. by rewrite Hp, Hc.
Qed.

Lemma chown_unmounted path uid gid w :
  cache_mounted w = false -> under_cache path = true -> chown path uid gid w = w.
Proof.
  intros Hc Hp. unfold chown, file_exists, read_file, visible. by rewrite Hp, Hc.
Qed.

Lemma record_intent_unmountable intent w :
  mount_ok w = false ->
  exists t,
    record_intent intent w
    = upd w (bcb w) (files w) (modes w) (owners w) (cache_mounted w)
        (tmplog_offset w) (bAutoUpdateComplete w) (trace w ++ t).
Proof.
  intros Hm. unfold record_intent. destruct intent as [s|].
  - rewrite fopen_path_unmountable by done. destruct w. world_cbv.
    eexists. rewrite <- app_assoc. reflexivity.
  - exists []. by rewrite app_nil_r, upd_id.
Qed.

Lemma copy_logs_unmountable w :
  mount_ok w = false -> cache_mounted w = false ->
  exists t,
    copy_logs w
    = upd w (bcb w) (files w) (modes w) (owners w) false
        (tmplog_offset w) (bAutoUpdateComplete w) (trace w ++ t).
Proof.
  intros Hm Hc. unfold copy_logs.
  rewrite (copy_log_file_unmountable TEMPORARY_LOG_FILE LOG_FILE true) by done.
  rewrite (copy_log_file_unmountable TEMPORARY_LOG_FILE LAST_LOG_FILE false) by done.
  rewrite (copy_log_file_unmountable TEMPORARY_INSTALL_FILE LAST_INSTALL_FILE false)
    by done.
  flat. rewrite Hc.
  rewrite (chmod_unmounted LOG_FILE) by done.
  rewrite (chown_unmounted LOG_FILE) by done.
  rewrite (chmod_unmounted LAST_LOG_FILE) by done.
  rewrite (chmod_unmounted LAST_INSTALL_FILE) by done.
  eexists. rewrite <- !app_assoc. reflexivity.
Qed.

Lemma remove_command_file_unmountable w :
  mount_ok w = false ->
  remove_command_file w
  = upd w (bcb w) (files w) (modes w) (owners w) false
      (tmplog_offset w) (bAutoUpdateComplete w)
      (trace w ++ [EvMount COMMAND_FILE (-1);
                   EvLog LogW "Can't unlink %s\n" [lit COMMAND_FILE];
                   EvUnmount CACHE_ROOT; EvSync]).
Proof.
  intros Hm. unfold remove_command_file, ensure_path_mounted. rewrite Hm.
  cbn [negb Z.eqb]. unfold ensure_path_unmounted.
  change (under_cache CACHE_ROOT) with true. destruct w. world_cbv.
  by rewrite <- !app_assoc.
Qed.

Section Unmountable.
Context `{L : BcbLayout}.

(** When the cache volume cannot be mounted, [finish_recovery] still resets
    the control block (unless [bClearbootmessage] is set) but changes no
    file, permission, owner or offset, and warns that it cannot unlink the
    command file.  That is so only without a locale and without a completed
    automatic update: with a locale set, or with [bAutoUpdateComplete] set,
    the stream that [fopen_path] could not open is written all the same and
    the run ends in a null [FILE] pointer. *)
Theorem finish_recovery_unmountable_cache
    (send_intent : option cstring) (w : World) :
  mount_ok w = false -> cache_mounted w = false ->
  (locale w <> None -> finish_recovery send_intent w = Undefined NullFile)
  /\ (locale w = None -> bAutoUpdateComplete w = true ->
      finish_recovery send_intent w = Undefined NullFile)
  /\ (locale w = None -> bAutoUpdateComplete w = false ->
      exists t,
        finish_recovery send_intent w
        = Done (upd w (finish_bcb w) (files w) (modes w) (owners w) false
                  (tmplog_offset w) false (trace w ++ t))
        /\ In (EvLog LogW "Can't unlink %s\n" [lit COMMAND_FILE]) t).
Proof.
  intros Hm Hc. unfold finish_recovery.
  destruct (record_intent_unmountable send_intent w Hm) as (t1 & ->).
  split; [|split].
  - intros Hl. unfold save_locale. cbn [upd locale].
    destruct (locale w) as [loc|]; [|done].
    rewrite fopen_path_unmountable by done. reflexivity.
  - intros Hl Ha. unfold save_locale. cbn [upd locale]. rewrite Hl. cbn [bind].
    match goal with |- context [copy_logs ?w0] =>
      destruct (copy_logs_unmountable w0 Hm Hc) as (t3 & ->)
    end.
    flat.
    match goal with |- context [reset_bcb ?w0] =>
      destruct (reset_bcb_closed w0) as (t4 & -> & _)
    end.
    flat. unfold write_flag. cbn [upd bAutoUpdateComplete]. rewrite Ha.
    rewrite fopen_path_unmountable by done. reflexivity.
  - intros Hl Ha. unfold save_locale. cbn [upd locale]. rewrite Hl. cbn [bind].
    match goal with |- context [copy_logs ?w0] =>
      destruct (copy_logs_unmountable w0 Hm Hc) as (t3 & ->)
    end.
    flat.
    match goal with |- context [reset_bcb ?w0] =>
      destruct (reset_bcb_closed w0) as (t4 & -> & _)
    end.
    flat. unfold write_flag. cbn [upd bAutoUpdateComplete]. rewrite Ha. cbn [bind].
    rewrite remove_command_file_unmountable by done. flat.
    eexists. split.
    + unfold finish_bcb. cbn [upd bClearbootmessage bcb].
      rewrite <- !app_assoc. reflexivity.
    + rewrite !in_app_iff. right. right. right. simpl. tauto.
Qed.

End Unmountable.

Lemma finish_recovery_unmountable_cache_witness :
  exists t,
    finish_recovery (L := aosp_layout) (Some (lit "done")) unmountable_world
    = Done (upd unmountable_world (zero_message (H := aosp_layout))
              (files unmountable_world) ∅ ∅ false 0%Z false t)
    /\ In (EvLog LogW "Can't unlink %s\n" [lit COMMAND_FILE]) t.
Proof.
  destruct (finish_recovery_unmountable_cache (L := aosp_layout)
              (Some (lit "done")) unmountable_world eq_refl eq_refl)
    as (_ & _ & H).
  destruct (H eq_refl eq_refl) as (t & Hrun & Hin).
  exists t. split; [exact Hrun|exact Hin].
Defined.

(** ** erase_volume: what a wipe touches *)


(** ** The locale between two runs *)

Lemma strip_spaces_spec s : forall fuel out mid post,
  nul_free s -> length s <= fuel ->
  exists mid',
    strip_spaces fuel (length out + length mid) (length out)
      (out ++ mid ++ s ++ NUL :: post)
    = (length out + length (without_spaces s),
       out ++ without_spaces s ++ mid' ++ NUL :: post)
    /\ length mid' + length (without_spaces s)
       = length mid + length s.
Proof.
  induction s as [|c s IH]; intros fuel out mid post Hs Hf.
  - exists mid. unfold without_spaces; cbn [List.filter app length]. split; [|lia].
    rewrite Nat.add_0_r. destruct fuel as [|fuel]; [done|].
    cbn [strip_spaces].
    assert (E : nth (length out + length mid) (out ++ mid ++ NUL :: post) NUL = NUL).
    { rewrite app_assoc, app_nth2; rewrite length_app; [|lia].
      by rewrite Nat.sub_diag. }
    rewrite E. change (is_nul NUL) with true. by rewrite andb_false_r.
  - destruct fuel as [|fuel]; [simpl in Hf; lia|].
    inversion Hs as [|? ? Hc Hs']; subst.
    cbn [strip_spaces].
    assert (E : nth (length out + length mid) (out ++ mid ++ (c :: s) ++ NUL :: post) NUL
                = c).
    { rewrite app_assoc, app_nth2; rewrite length_app; [|lia].
      by rewrite Nat.sub_diag. }
    rewrite E, Hc.
    assert (Hlt : (length out + length mid
                   <? length (out ++ mid ++ (c :: s) ++ NUL :: post)) = true).
    { apply Nat.ltb_lt. rewrite !length_app. cbn [length]. lia. }
    rewrite Hlt. cbn [andb negb].
    unfold without_spaces in *. cbn [List.filter]. destruct (isspace c) eqn:Esp; cbn [negb].
    + destruct (IH fuel out (mid ++ [c]) post Hs' ltac:(simpl in Hf; lia))
        as (mid' & Hrun & Hlen).
      replace (S (length out + length mid))
        with (length out + length (mid ++ [c]))
        by (rewrite length_app; cbn [length]; lia).
      replace (out ++ mid ++ (c :: s) ++ NUL :: post)
        with (out ++ (mid ++ [c]) ++ s ++ NUL :: post)
        by (by rewrite <- !app_assoc).
      rewrite Hrun. exists mid'. split; [done|].
      rewrite length_app in Hlen. cbn [length] in Hlen |- *. lia.
    + assert (Est : store (out ++ mid ++ (c :: s) ++ NUL :: post) (length out) c
                    = (out ++ [c]) ++ (drop 1 (mid ++ [c])) ++ s ++ NUL :: post).
      { unfold store. rewrite insert_app_r_alt by lia. rewrite Nat.sub_diag.
        destruct mid; cbn; rewrite ?drop_0, <- ?app_assoc; reflexivity. }
      rewrite Est.
      destruct (IH fuel (out ++ [c]) (drop 1 (mid ++ [c])) post Hs'
                  ltac:(simpl in Hf; lia)) as (mid' & Hrun & Hlen).
      replace (S (length out + length mid))
        with (length (out ++ [c]) + length (drop 1 (mid ++ [c]))).
      2:{ rewrite length_app, length_drop, !length_app. cbn [length]. lia. }
      replace (S (length out)) with (length (out ++ [c]))
        by (rewrite length_app; cbn [length]; lia).
      rewrite Hrun. exists mid'. split.
      * rewrite length_app. cbn [length]. rewrite <- !app_assoc. cbn [app].
        f_equal. lia.
      * rewrite length_drop, length_app in Hlen. cbn [length] in Hlen |- *. lia.
Qed.

Lemma length_fgets room : forall stream, length (fgets room stream).1 <= room.
Proof.
  induction room as [|room IH]; intros [|c stream]; cbn [fgets fst length]; try lia.
  destruct (Ascii.eqb c LF); [cbn [fst length]; lia|].
  specialize (IH stream). destruct (fgets room stream) as [a b].
  cbn [fst length] in *. lia.
Qed.

Lemma fgets_whole l : forall room,
  Forall (fun c => c <> LF) l -> length l <= room -> fgets room l = (l, []).
Proof.
  induction l as [|c l IH]; intros room Hl Hroom.
  - by destruct room.
  - destruct room; [simpl in Hroom; lia|]. inversion Hl as [|? ? Hc Hl']; subst.
    cbn [fgets]. destruct (Ascii.eqb_spec c LF) as [->|_]; [done|].
    rewrite IH by (done || simpl in Hroom; lia). reflexivity.
Qed.

Lemma cstr_before_nul l r : cstr (l ++ NUL :: r) = cstr l.
Proof.
  unfold cstr. induction l as [|c l IH]; [done|].
  cbn [app span]. destruct (negb (is_nul c)); [|done].
  destruct (span _ (l ++ NUL :: r)) as [a b], (span _ l) as [a' b'].
  cbn [fst] in *. by rewrite IH.
Qed.

Lemma nul_free_without_spaces s : nul_free s -> nul_free (without_spaces s).
Proof.
  intros H. unfold without_spaces. induction H as [|c s Hc Hs IH]; [constructor|].
  cbn [List.filter]. destruct (negb (isspace c)); [by constructor|done].
Qed.

Lemma without_spaces_clean s :
  nul_free s ->
  Forall (fun c => isspace c = false /\ is_nul c = false) (without_spaces s).
Proof.
  intros Hn. unfold without_spaces. induction Hn as [|c s Hc Hn IH]; [constructor|].
  cbn [List.filter]. destruct (isspace c) eqn:E; cbn [negb]; [exact IH|].
  constructor; [by split|exact IH].
Qed.

Lemma without_spaces_id s :
  Forall (fun c => isspace c = false) s -> without_spaces s = s.
Proof.
  intros H. unfold without_spaces. induction H as [|c s Hc Hs IH]; [done|].
  cbn [List.filter]. rewrite Hc. cbn [negb]. by rewrite IH.
Qed.

Lemma length_without_spaces s : length (without_spaces s) <= length s.
Proof.
  unfold without_spaces. induction s as [|c s IH]; [done|].
  cbn [List.filter]. destruct (negb (isspace c)); cbn [length]; lia.
Qed.

(** The loop and the final store on an array that holds a terminated
    string. *)
Lemma strip_buffer buffer :
  strlen buffer < length buffer ->
  exists j buffer',
    strip_spaces (length buffer) 0 0 buffer = (j, buffer')
    /\ j < length buffer' /\ length buffer' = length buffer
    /\ cstr (store buffer' j NUL) = without_spaces (cstr buffer).
Proof.
  intros Hterm. destruct (cstr_split buffer Hterm) as [post Hb].
  destruct (strip_spaces_spec (cstr buffer) (length buffer) [] [] post)
    as (mid' & Hrun & Hlen).
  { apply cstr_nul_free. }
  { apply strlen_le. }
  cbn [app length Nat.add] in Hrun, Hlen. rewrite <- Hb in Hrun. rewrite Hrun.
  eexists _, _. split; [reflexivity|].
  pose proof (length_without_spaces (cstr buffer)) as Hle.
  assert (Htot : length (without_spaces (cstr buffer) ++ mid' ++ NUL :: post)
                 = length buffer).
  { rewrite Hb at 2. rewrite !length_app. cbn [length]. lia. }
  split; [rewrite Htot; unfold strlen in Hterm; lia|]. split; [done|].
  unfold store. rewrite insert_app_r_alt by lia. rewrite Nat.sub_diag.
  destruct mid' as [|m mid']; cbn [app insert list_insert];
    (rewrite cstr_terminated; [done|apply nul_free_without_spaces, cstr_nul_free]).
Qed.

Lemma fopen_locale_file w content :
  mount_ok w = true -> files w !! LOCALE_FILE = Some content ->
  fopen_path LOCALE_FILE ModeR w
  = (Some (MkFILE LOCALE_FILE content),
     upd w (bcb w) (files w) (modes w) (owners w) true (tmplog_offset w)
       (bAutoUpdateComplete w)
       (trace w ++ [EvMount LOCALE_FILE 0; EvFopen LOCALE_FILE ModeR true])).
Proof.
  intros Hm Hf. unfold fopen_path, ensure_path_mounted. rewrite Hm.
  change (under_cache LOCALE_FILE) with true. cbn [negb Z.eqb].
  unfold fopen, visible. change (under_cache LOCALE_FILE) with true.
  cbn [cache_mounted emit with_trace with_mounted files]. rewrite Hf.
  destruct w. world_cbv. by rewrite <- app_assoc.
Qed.

Lemma load_locale_from_cache_line stack w content :
  length stack = 80 -> mount_ok w = true ->
  files w !! LOCALE_FILE = Some content -> content <> [] ->
  exists w',
    load_locale_from_cache stack w = Done w'
    /\ locale w' = Some (without_spaces (cstr (fgets 79 content).1))
    /\ files w' = files w /\ bcb w' = bcb w.
Proof.
  intros Hs Hm Hf Hne. unfold load_locale_from_cache.
  rewrite (fopen_locale_file w content) by done. cbn [f_left].
  pose proof (length_fgets 79 content) as Hlen.
  destruct (fgets 79 content) as [line rest] eqn:E. cbn [fst] in *.
  destruct line as [|c line].
  { exfalso. apply Hne. apply (fgets_nothing 78). by rewrite E. }
  set (buffer := (c :: line) ++ NUL :: drop (S (length (c :: line))) stack).
  assert (Hbl : length buffer = 80).
  { unfold buffer. rewrite length_app. cbn [length] in *.
    rewrite length_drop, Hs. lia. }
  assert (Hc : cstr buffer = cstr (c :: line)) by apply cstr_before_nul.
  assert (Hterm : strlen buffer < length buffer).
  { unfold strlen. rewrite Hc, Hbl. pose proof (strlen_le (c :: line)) as H.
    unfold strlen in H. lia. }
  destruct (strip_buffer buffer Hterm) as (j & buffer' & -> & Hj & Hl' & Hres).
  apply Nat.leb_gt in Hj. rewrite Hj. eexists. split; [reflexivity|].
  cbn [with_locale locale files bcb upd]. by rewrite Hres, Hc.
Qed.

(** With the cache volume mountable and a locale file that is not empty,
    [load_locale_from_cache] sets the locale to the first line of the file,
    at most 79 bytes of it and up to its first NUL, without any white space,
    the line end included; it changes no file and not the control block. *)
Theorem load_locale_from_cache_strips
    (stack : list ascii) (w : World) (content : list ascii) :
  length stack = 80 -> mount_ok w = true ->
  files w !! LOCALE_FILE = Some content -> content <> [] ->
  exists w',
    load_locale_from_cache stack w = Done w'
    /\ locale w' = Some (without_spaces (cstr (fgets 79 content).1))
    /\ Forall (fun c => isspace c = false /\ is_nul c = false)
         (default [] (locale w'))
    /\ length (default [] (locale w')) <= 79
    /\ files w' = files w /\ bcb w' = bcb w.
Proof.
  intros Hs Hm Hf Hne.
  destruct (load_locale_from_cache_line stack w content Hs Hm Hf Hne)
    as (w' & Hrun & Hloc & Hfiles & Hbcb).
  exists w'. split; [done|]. split; [done|]. rewrite Hloc. cbn [default].
  split; [|split; [|done]].
  - apply (without_spaces_clean (cstr (fgets 79 content).1)), cstr_nul_free.
  - change (length (without_spaces (cstr (fgets 79 content).1)) <= 79).
    pose proof (length_without_spaces (cstr (fgets 79 content).1)).
    pose proof (strlen_le (fgets 79 content).1) as H1. unfold strlen in H1.
    pose proof (length_fgets 79 content). lia.
Qed.

Lemma load_locale_from_cache_strips_witness :
  exists w',
    load_locale_from_cache (replicate 80 "x"%char) locale_world = Done w'
    /\ locale w' = Some (lit "en_US")
    /\ Forall (fun c => isspace c = false /\ is_nul c = false)
         (default [] (locale w'))
    /\ length (default [] (locale w')) <= 79
    /\ files w' = files locale_world /\ bcb w' = bcb locale_world.
Proof.
  apply (load_locale_from_cache_strips (replicate 80 "x"%char) locale_world
           (lit "en_US" ++ [CR; LF])).
  - reflexivity.
  - reflexivity.
  - reflexivity.
  - discriminate.
Defined.

(** The locale that [finish_recovery] saves is the one the next run loads:
    when the cache volume mounts and the locale is a string of 1 to 79 bytes
    without white space, [load_locale_from_cache] on the world that
    [save_locale] leaves, the global cleared as at a fresh start, sets the
    same locale, whatever the stack holds. *)
Theorem locale_round_trip
    (loc : cstring) (stack : list ascii) (w w1 : World) :
  length stack = 80 -> mount_ok w = true -> locale w = Some loc ->
  nul_free loc -> Forall (fun c => isspace c = false) loc ->
  0 < length loc < 80 ->
  save_locale w = Done w1 ->
  exists w2,
    load_locale_from_cache stack (with_locale w1 None) = Done w2
    /\ locale w2 = Some loc.
Proof.
  intros Hs Hm Hloc Hnf Hsp Hlen Hsave.
  destruct (save_locale_mounted w Hm) as (t & Hw1 & _).
  rewrite Hsave in Hw1. injection Hw1 as Hw1.
  set (w1' := with_locale w1 None).
  assert (Hm1 : mount_ok w1' = true) by (unfold w1'; rewrite Hw1; exact Hm).
  assert (Hf : files w1' !! LOCALE_FILE = Some loc).
  { unfold w1'. rewrite Hw1. cbn [with_locale files upd]. rewrite Hloc.
    cbn [locale_files]. rewrite lookup_insert_eq. by rewrite cstr_whole. }
  destruct (load_locale_from_cache_line stack w1' loc Hs Hm1 Hf)
    as (w2 & Hrun & Hl & _).
  { destruct loc; [simpl in Hlen; lia|done]. }
  exists w2. split; [done|]. rewrite Hl.
  rewrite fgets_whole; [|..|lia].
  - cbn [fst]. rewrite cstr_whole by done. by rewrite without_spaces_id.
  - eapply Forall_impl; [exact Hsp|]. intros c Hc ->. done.
Qed.

Lemma locale_round_trip_witness :
  exists w2,
    load_locale_from_cache (replicate 80 "x"%char)
      (with_locale
         (upd logged_world (bcb logged_world)
            (<[LOCALE_FILE := lit "en_US"]> (files logged_world)) ∅ ∅ true 0%Z
            false
            [EvLog LogI "Saving locale %s\n" [lit "en_US"];
             EvMount LOCALE_FILE 0; EvFopen LOCALE_FILE ModeW true])
         None)
    = Done w2
    /\ locale w2 = Some (lit "en_US").
Proof.
  apply (locale_round_trip (lit "en_US") (replicate 80 "x"%char) logged_world).
  - reflexivity.
  - reflexivity.
  - reflexivity.
  - repeat constructor.
  - repeat constructor.
  - simpl. lia.
  - vm_compute. reflexivity.
Defined.

(** At the end of the file [fgets] stores nothing and its result is not
    tested: on an empty locale file the locale becomes what the
    uninitialised buffer happens to hold, up to its first NUL and without
    white space. *)
Theorem load_locale_from_cache_empty_file (stack : list ascii) (w : World) :
  mount_ok w = true -> files w !! LOCALE_FILE = Some [] ->
  strlen stack < length stack ->
  exists w',
    load_locale_from_cache stack w = Done w'
    /\ locale w' = Some (without_spaces (cstr stack)).
Proof.
  intros Hm Hf Hterm. unfold load_locale_from_cache.
  rewrite (fopen_locale_file w []) by done. cbn [f_left fgets].
  destruct (strip_buffer stack Hterm) as (j & buffer' & -> & Hj & Hl' & Hres).
  apply Nat.leb_gt in Hj. rewrite Hj. eexists. split; [reflexivity|].
  cbn [with_locale locale]. by rewrite Hres.
Qed.

Lemma load_locale_from_cache_empty_file_witness :
  exists w',
    load_locale_from_cache (lit "zz_ZZ" ++ replicate 75 NUL)
      (with_files locale_world {[ LOCALE_FILE := [] ]})
    = Done w'
    /\ locale w' = Some (lit "zz_ZZ").
Proof.
  apply (load_locale_from_cache_empty_file (lit "zz_ZZ" ++ replicate 75 NUL)
           (with_files locale_world {[ LOCALE_FILE := [] ]})).
  - reflexivity.
  - reflexivity.
  - vm_compute. lia.
Defined.

(** ** The FAT32 label writer: the label and the trace *)

Module Fat32More.
Import Fat32.
Local Open Scope Z_scope.



(** [patch_entry] rewrites one directory entry of a sector and nothing
    else: for an entry index below 16 of a sector of 512 bytes and a label of
    11 bytes, the sector keeps its length, the entry holds the label, the
    attribute byte 8 (volume label) and twenty zero bytes, and every byte
    outside the entry is as before. *)
Theorem patch_entry_layout (buf label : list Z) (j : Z) :
  length buf = 512%nat -> length label = 11%nat -> 0 <= j < 16 ->
  length (patch_entry buf j label) = 512%nat
  /\ take 11 (drop (Z.to_nat (j * 32)) (patch_entry buf j label)) = label
  /\ byte_at (patch_entry buf j label) (j * 32 + 11) = 8
  /\ take 20 (drop (Z.to_nat (j * 32) + 12) (patch_entry buf j label))
     = replicate 20 0
  /\ take (Z.to_nat (j * 32)) (patch_entry buf j label)
     = take (Z.to_nat (j * 32)) buf
  /\ drop (Z.to_nat (j * 32) + 32) (patch_entry buf j label)
     = drop (Z.to_nat (j * 32) + 32) buf.
Proof.
  intros Hb Hl Hj. unfold patch_entry, byte_at.
  set (p := Z.to_nat (j * 32)).
  assert (Hp : (p + 32 <= 512)%nat) by (unfold p; lia).
  assert (Htp : length (take p buf) = p) by (rewrite length_take; lia).
  split; [|split; [|split; [|split; [|split]]]].
  - rewrite !length_app, Htp, Hl, length_replicate, length_drop. cbn [length]. lia.
  - rewrite <- Htp at 1. rewrite drop_app_length.
    rewrite <- Hl. by rewrite take_app_length.
  - replace (Z.to_nat (j * 32 + 11)) with (p + 11)%nat by (unfold p; lia).
    rewrite app_nth2; rewrite Htp; [|lia].
    replace (p + 11 - p)%nat with (length label) by lia.
    rewrite app_nth2 by lia. by rewrite Nat.sub_diag.
  - rewrite drop_app_ge; rewrite Htp; [|lia].
    replace (p + 12 - p)%nat with (length label + 1)%nat by lia.
    rewrite drop_app_ge by lia.
    replace (length label + 1 - length label)%nat with 1%nat by lia.
    cbn [app drop]. rewrite drop_0.
    rewrite take_app_length'; [done|by rewrite length_replicate].
  - by rewrite take_app_length'.
  - rewrite drop_app_ge; rewrite Htp; [|lia].
    replace (p + 32 - p)%nat with (length label + 21)%nat by lia.
    rewrite drop_app_ge by lia.
    replace (length label + 21 - length label)%nat with 21%nat by lia.
    cbn [app]. change (drop 21 (8 :: replicate 20 0 ++ drop (p + 32) buf))
      with (drop 20 (replicate 20 0 ++ drop (p + 32) buf)).
    rewrite drop_app_length'; [done|by rewrite length_replicate].
Qed.

Lemma patch_entry_layout_witness :
  let buf := fat32_root_directory in
  let label := volume_name (CStr.lit "sdcard") in
  length (patch_entry buf 1 label) = 512%nat
  /\ take 11 (drop (Z.to_nat (1 * 32)) (patch_entry buf 1 label)) = label
  /\ byte_at (patch_entry buf 1 label) (1 * 32 + 11) = 8
  /\ take 20 (drop (Z.to_nat (1 * 32) + 12) (patch_entry buf 1 label))
     = replicate 20 0
  /\ take (Z.to_nat (1 * 32)) (patch_entry buf 1 label)
     = take (Z.to_nat (1 * 32)) buf
  /\ drop (Z.to_nat (1 * 32) + 32) (patch_entry buf 1 label)
     = drop (Z.to_nat (1 * 32) + 32) buf.
Proof.
  apply (patch_entry_layout fat32_root_directory
           (volume_name (CStr.lit "sdcard")) 1).
  - reflexivity.
  - reflexivity.
  - lia.
Defined.

(** *** Opens, closes and writes of a call *)

Lemma count_events_app p t1 t2 :
  count_events p (t1 ++ t2) = (count_events p t1 + count_events p t2)%nat.
Proof. unfold count_events. by rewrite List.filter_app, length_app. Qed.

Lemma inner_app t1 t2 n1 n2 :
  inner t1 n1 -> inner t2 n2 -> inner (t1 ++ t2) (n1 + n2).
Proof.
  intros (? & ? & ?) (? & ? & ?). unfold inner. rewrite !count_events_app. lia.
Qed.

Lemma scan_cluster_trace sectors label : forall env,
  exists t,
    events (scan_cluster sectors label env).2 = events env ++ t
    /\ inner t (match (scan_cluster sectors label env).1 with
                | Found => 1 | _ => 0 end).
Proof.
  induction sectors as [|sectors IH]; intros env; cbn [scan_cluster].
  - exists []. rewrite app_nil_r. by split.
  - destruct (read512 env) as [[buf nRead] env1] eqn:Er.
    assert (E1 : events env1 = events env ++ [EvRead nRead]).
    { unfold read512 in Er. injection Er as <- <- <-. reflexivity. }
    destruct (negb (nRead =? 512)).
    { cbn [fst snd LOG emit events]. rewrite E1, <- app_assoc.
      eexists. split; [reflexivity|]. by split. }
    destruct (find_entry 16 0 buf) as [j|].
    + cbn [fst snd]. unfold write512, lseek_back.
      destruct (pos env1 - 512 <? 0);
        cbn [emit with_pos with_disk events]; rewrite E1, <- !app_assoc;
        (eexists; split; [reflexivity|by split]).
    + destruct (IH env1) as (t & Ht & Hin). rewrite Ht, E1, <- app_assoc.
      eexists. split; [reflexivity|].
      apply (inner_app [_] t 0 _); [by split|exact Hin].
Qed.

Lemma lseek_set_events offset env :
  events (lseek_set offset env) = events env ++ [EvSeek (s32 offset)].
Proof. unfold lseek_set. by destruct (s32 offset <? 0). Qed.

Lemma walk_chain_trace fuel spc res lba label : forall cluster env r env',
  walk_chain fuel spc res lba label cluster env = Some (r, env') ->
  exists t,
    events env' = events env ++ t
    /\ inner t (if r =? 0 then 1 else 0)
    /\ (r = 0 \/ r = -9 \/ r = -10 \/ r = -11).
Proof.
  induction fuel as [|fuel IH]; intros cluster env r env'; cbn [walk_chain].
  - destruct (cluster =? 0); [|done]. intros [= <- <-].
    eexists. split; [reflexivity|]. split; [by split|tauto].
  - destruct (cluster =? 0).
    { intros [= <- <-]. eexists. split; [reflexivity|]. split; [by split|tauto]. }
    match goal with |- context [scan_cluster ?n ?l ?e] =>
      destruct (scan_cluster_trace n l e) as (t1 & Ht1 & Hin1);
      destruct (scan_cluster n l e) as [[| |] env1]
    end; cbn [fst snd] in Ht1, Hin1; rewrite lseek_set_events in Ht1.
    + intros [= <- <-]. rewrite Ht1, <- app_assoc. eexists.
      split; [reflexivity|]. split; [|tauto].
      apply (inner_app [_] t1 0 1); [by split|exact Hin1].
    + destruct (read512 (lseek_set _ env1)) as [[buf nRead] env2] eqn:Er.
      assert (E2 : exists s, events env2
                             = events env1 ++ [EvSeek s; EvRead nRead]).
      { unfold read512 in Er. injection Er as <- <- <-.
        cbn [emit with_pos events]. rewrite lseek_set_events, <- app_assoc.
        by eexists. }
      destruct E2 as [s E2].
      destruct (negb (nRead =? 512)).
      { intros [= <- <-]. cbn [LOG emit events].
        rewrite E2, Ht1, <- !app_assoc. eexists. split; [reflexivity|].
        split; [|tauto].
        apply (inner_app [_] _ 0 0); [by split|].
        apply (inner_app t1 _ 0 0); [exact Hin1|by split]. }
      intros Hrec. apply IH in Hrec as (t & Ht & Hin & Hr).
      rewrite Ht, E2, Ht1, <- !app_assoc. eexists. split; [reflexivity|].
      split; [|exact Hr].
      apply (inner_app [_] _ 0 _); [by split|].
      apply (inner_app t1 _ 0 _); [exact Hin1|].
      apply (inner_app [_; _] t 0 _); [by split|exact Hin].
    + intros [= <- <-]. rewrite Ht1, <- app_assoc. eexists.
      split; [reflexivity|]. split; [|tauto].
      apply (inner_app [_] t1 0 0); [by split|exact Hin1].
Qed.

Lemma label_device_trace fuel name env r env' :
  label_device fuel name env = Some (r, env') ->
  exists t,
    events env' = events env ++ t
    /\ inner t (if r =? 0 then 1 else 0) /\ -11 <= r <= 0.
Proof.
  unfold label_device.
  destruct (read512 env) as [[buf nRead] env1] eqn:Er.
  assert (E1 : events env1 = events env ++ [EvRead nRead]).
  { unfold read512 in Er. injection Er as <- <- <-. reflexivity. }
  assert (Hfail : forall code msg,
            -11 <= code < 0 ->
            Some (code, LOG LogE msg env1) = Some (r, env') ->
            exists t, events env' = events env ++ t
                      /\ inner t (if r =? 0 then 1 else 0) /\ -11 <= r <= 0).
  { intros code msg Hc [= <- <-]. cbn [LOG emit events].
    rewrite E1, <- app_assoc. eexists. split; [reflexivity|].
    destruct (code =? 0) eqn:E0; [lia|]. split; [by split|lia]. }
  destruct (negb (nRead =? 512)); [apply Hfail; lia|].
  destruct (negb (bool_decide _)); [apply Hfail; lia|].
  destruct (_ || _); [apply Hfail; lia|].
  destruct (Z.of_nat (CStr.strlen name) <=? 0); [apply Hfail; lia|].
  intros Hw. apply walk_chain_trace in Hw as (t & Ht & Hin & Hr).
  rewrite Ht, E1, <- app_assoc. eexists. split; [reflexivity|].
  split; [|lia]. apply (inner_app [_] t 0 _); [by split|exact Hin].
Qed.

(** Whatever the device holds, a call of [set_fat32_volumename] that
    returns has closed the device exactly when it had opened it, which it
    does at most once; it has written one sector when it returns 0 and none
    otherwise, and its status lies between -11 and 0. *)
Theorem set_fat32_volumename_trace
    (fuel : nat) (volume : string) (name : CStr.cstring) (env env' : Env) (r : Z) :
  set_fat32_volumename fuel volume name env = Done (Some (r, env')) ->
  exists t,
    events env' = events env ++ t
    /\ count_events is_closed t = count_events is_opened t
    /\ (count_events is_opened t <= 1)%nat
    /\ count_events is_written t = (if r =? 0 then 1%nat else 0%nat)
    /\ -11 <= r <= 0.
Proof.
  unfold set_fat32_volumename. cbv beta zeta.
  set (env1 := emit (EvUnmount volume) (LOG LogI "set_fat32_volumename in\n" env)).
  assert (E1 : events env1 = events env ++ [EvLog LogI "set_fat32_volumename in\n";
                                            EvUnmount volume]).
  { unfold env1. cbn [emit LOG events]. by rewrite <- app_assoc. }
  assert (Hfail : forall code t0 e,
            -11 <= code < 0 -> events e = events env1 ++ t0 ->
            count_events is_opened t0 = 0%nat ->
            count_events is_closed t0 = 0%nat ->
            count_events is_written t0 = 0%nat ->
            Done (Some (code, LOG LogI "set_fat32_volumename out\n" e))
            = Done (Some (r, env')) ->
            exists t,
              events env' = events env ++ t
              /\ count_events is_closed t = count_events is_opened t
              /\ (count_events is_opened t <= 1)%nat
              /\ count_events is_written t = (if r =? 0 then 1%nat else 0%nat)
              /\ -11 <= r <= 0).
  { intros code t0 e Hc He Ho Hcl Hw [= <- <-]. cbn [LOG emit events].
    rewrite He, E1, <- !app_assoc. eexists. split; [reflexivity|].
    rewrite !count_events_app, Ho, Hcl, Hw.
    destruct (code =? 0) eqn:E0; [lia|]. cbn. lia. }
  destruct (negb (unmount_status env1 =? 0)).
  { eapply (Hfail (-1)); [lia|reflexivity|done..]. }
  destruct (volume_for_path env1 volume) as [device|].
  2:{ eapply (Hfail (-2)); [lia|reflexivity|done..]. }
  destruct (32 <=? String.length (mtd_name device))%nat; [done|].
  destruct (partition_index env1 (mtd_name device)) as [index|].
  2:{ eapply (Hfail (-3)); [lia|reflexivity|done..]. }
  destruct (disk env1) as [d|].
  2:{ eapply (Hfail (-4));
        [lia|cbn [LOG emit events]; rewrite <- app_assoc; reflexivity|done..]. }
  match goal with |- context [label_device fuel name ?e] =>
    pose proof (label_device_trace fuel name e) as Hl;
    destruct (label_device fuel name e) as [[r0 env2]|]; [|done]
  end.
  destruct (Hl r0 env2 eq_refl) as (t & Ht & (Ho & Hc & Hw) & Hr).
  intros [= <- <-]. cbn [LOG emit events with_pos] in Ht |- *.
  rewrite Ht, E1, <- !app_assoc. eexists. split; [reflexivity|].
  rewrite !count_events_app, Ho, Hc, Hw. cbn. split; [done|].
  split; [lia|]. split; [lia|lia].
Qed.

Lemma set_fat32_volumename_trace_witness :
  exists t,
    events sdcard_labelled = events sdcard_env ++ t
    /\ count_events is_closed t = count_events is_opened t
    /\ (count_events is_opened t <= 1)%nat
    /\ count_events is_written t = (if 0 =? 0 then 1%nat else 0%nat)
    /\ -11 <= 0 <= 0.
Proof.
  apply (set_fat32_volumename_trace 5 "/sdcard" (CStr.lit "sdcard") sdcard_env
           sdcard_labelled 0).
  vm_compute. reflexivity.
Defined.



End Fat32More.

(** ** The clone: direction and outcome *)

Module CloneMore.
Import Clone.
Local Open Scope Z_scope.

(** When /proc/mtd can be read and the table holds both partitions,
    [clone_data_if_exist] calls the conversion exactly once, reading the
    block device of "databk" and writing the block device of "userdata",
    and returns 0 when the conversion does and -1 otherwise. *)
Theorem clone_data_restores_backup (env : Env) (data databk : MtdPartition) :
  proc_mtd env <> None ->
  mtd_find_partition_by_name DATABK_PARTITION_NAME env = Some databk ->
  mtd_find_partition_by_name DATA_PARTITION_NAME env = Some data ->
  exists t,
    clone_data_if_exist env
    = Done (if simg2img_status env =? 0 then 0 else -1,
            MkEnv (proc_mtd env) (mtd_table env) (simg2img_status env)
              (events env ++ t))
    /\ List.filter is_conversion t
       = [EvSimg2img (mtdblock (device_index databk))
            (mtdblock (device_index data)) (simg2img_status env)].
Proof.
  intros Hproc Hbk Hdata. unfold clone_data_if_exist.
  destruct (proc_mtd env) as [content|] eqn:Ep; [|done].
  assert (Hnb : (Z.of_nat (Nat.min (length content) 2047) <? 0) = false)
    by (apply Z.ltb_ge; lia).
  rewrite Hnb. unfold mtd_scan_partitions.
  assert (Hfound : exists table, mtd_table env = Some table /\ table <> []).
  { unfold mtd_find_partition_by_name in Hbk.
    destruct (mtd_table env) as [[|p table]|]; try done. by eexists. }
  destruct Hfound as (table & Ht & Hne).
  cbn [mtd_table emit]. rewrite Ht.
  assert (Hpos : (Z.of_nat (length table) <=? 0) = false).
  { apply Z.leb_gt. destruct table; [done|]. cbn [length]. lia. }
  rewrite Hpos.
  assert (Hfind : forall n e1 e2,
            mtd_find_partition_by_name n (emit e2 (emit e1 env))
            = mtd_find_partition_by_name n env) by reflexivity.
  rewrite !Hfind, Hbk, Hdata.
  unfold start_to_clone, simg2img. cbn [simg2img_status emit].
  destruct (simg2img_status env =? 0) eqn:Es; cbn [negb Z.eqb].
  - eexists. split.
    + unfold emit. cbn [proc_mtd mtd_table simg2img_status events].
      rewrite Ep, Ht, <- !app_assoc. reflexivity.
    + reflexivity.
  - eexists. split.
    + unfold emit. cbn [proc_mtd mtd_table simg2img_status events].
      rewrite Ep, Ht, <- !app_assoc. reflexivity.
    + reflexivity.
Qed.

Lemma clone_data_restores_backup_witness :
  exists t,
    clone_data_if_exist (env_with_databk 0)
    = Done (if simg2img_status (env_with_databk 0) =? 0 then 0 else -1,
            MkEnv (proc_mtd (env_with_databk 0)) (mtd_table (env_with_databk 0))
              (simg2img_status (env_with_databk 0))
              (events (env_with_databk 0) ++ t))
    /\ List.filter is_conversion t
       = [EvSimg2img (mtdblock (device_index (Mtd 9 1073741824 16384 "databk")))
            (mtdblock (device_index (Mtd 5 1073741824 16384 "userdata")))
            (simg2img_status (env_with_databk 0))].
Proof.
  apply (clone_data_restores_backup (env_with_databk 0)).
  - discriminate.
  - reflexivity.
  - reflexivity.
Defined.

End CloneMore.

(** ** The menu loop: the range of the selection *)

Module MenuMore.
Import Menu.
Local Open Scope Z_scope.

Section Range.
Context {S : Type} `{I : Interface S}.
Variable n : Z.
Variable Inv : S -> Prop.
Hypothesis WaitKey_inv : forall s, Inv s -> Inv (WaitKey s).2.
Hypothesis HandleMenuKey_inv : forall k v s, Inv s -> Inv (HandleMenuKey k v s).2.
Hypothesis SelectMenu_inv : forall sel s,
  Inv s -> Inv (SelectMenu sel s).2 /\ 0 <= (SelectMenu sel s).1 < n.

Lemma loop_body_range (menu_only : Z) (l : locals) (s : S) :
  menu_only <> 0 -> Inv s -> 0 <= selected l < n ->
  chosen_item l < 0 \/ 0 <= chosen_item l < n ->
  match loop_body menu_only l s with
  | Return v _ => v = 0
  | Again l' s' =>
      Inv s' /\ 0 <= selected l' < n
      /\ (chosen_item l' < 0 \/ 0 <= chosen_item l' < n)
  end.
Proof.
  intros Hmo Hs Hsel Hch. unfold loop_body.
  pose proof (WaitKey_inv s Hs) as H1.
  destruct (WaitKey s) as [key s1]. cbn [snd] in H1.
  destruct (key =? -1).
  { by destruct (WasTextEverVisible s1). }
  match goal with |- context [HandleMenuKey ?k ?v ?s0] =>
    pose proof (HandleMenuKey_inv k v s0 H1) as H2;
    destruct (HandleMenuKey k v s0) as [action s2]
  end.
  cbn [snd] in H2.
  destruct (action <? 0).
  - destruct (action =? kHighlightUp).
    { pose proof (SelectMenu_inv (selected l - 1) s2 H2) as [H3 H4].
      destruct (SelectMenu _ s2) as [sel s3]. by cbn [fst snd selected chosen_item] in *. }
    destruct (action =? kHighlightDown).
    { pose proof (SelectMenu_inv (selected l + 1) s2 H2) as [H3 H4].
      destruct (SelectMenu _ s2) as [sel s3]. by cbn [fst snd selected chosen_item] in *. }
    destruct (action =? kInvokeItem); [|done].
    cbn [selected chosen_item]. split; [done|]. split; [done|]. by right.
  - apply Z.eqb_neq in Hmo. by rewrite Hmo.
Qed.

(** With [menu_only] set, and a user interface whose [SelectMenu] answers
    an index of the menu (below [n]) throughout, every value that
    [get_menu_selection] returns for an initial selection of the menu is an
    index of the menu: it is the highlighted item at an invoke, or 0 after
    the timeout. *)
Theorem get_menu_selection_in_range
    (fuel : nat) (headers items : list string) (menu_only initial_selection : Z)
    (s s' : S) (v : Z) :
  menu_only <> 0 ->
  Inv (StartMenu headers items initial_selection (FlushKeys s)) ->
  0 <= initial_selection < n ->
  get_menu_selection fuel headers items menu_only initial_selection s
  = Some (v, s') ->
  0 <= v < n.
Proof.
  intros Hmo Hs Hsel. unfold get_menu_selection.
  assert (Hloop : forall fuel l s0,
            Inv s0 -> 0 <= selected l < n ->
            chosen_item l < 0 \/ 0 <= chosen_item l < n ->
            menu_loop fuel menu_only l s0 = Some (v, s') -> 0 <= v < n).
  { clear fuel Hs. induction fuel as [|fuel IH]; intros l s0 Hs0 Hl Hc;
      cbn [menu_loop]; destruct (chosen_item l <? 0) eqn:E.
    - done.
    - intros [= <- _]. apply Z.ltb_ge in E. lia.
    - pose proof (loop_body_range menu_only l s0 Hmo Hs0 Hl Hc) as Hb.
      destruct (loop_body menu_only l s0) as [v0 s1|l1 s1].
      + intros [= <- _]. lia.
      + destruct Hb as (? & ? & ?). by apply IH.
    - intros [= <- _]. apply Z.ltb_ge in E. lia. }
  apply Hloop; [done|done|]. left. cbn [chosen_item]. lia.
Qed.

End Range.

Lemma scripted_WaitKey_items (s : Script) :
  menu_items s = 3 -> menu_items (WaitKey s).2 = 3.
Proof. intros Hs. cbn. by destruct (keys s). Qed.

Lemma scripted_SelectMenu_items (sel : Z) (s : Script) :
  menu_items s = 3 ->
  menu_items (SelectMenu sel s).2 = 3 /\ 0 <= (SelectMenu sel s).1 < 3.
Proof.
  intros Hs. split; [exact Hs|]. cbn. rewrite Hs.
  destruct (sel <? 0) eqn:E1; [lia|]. destruct (3 <=? sel) eqn:E2; lia.
Qed.

Lemma get_menu_selection_in_range_witness : 0 <= 1 < 3.
Proof.
  apply (get_menu_selection_in_range 3 (fun s => menu_items s = 3)
           scripted_WaitKey_items (fun k v s Hs => Hs) scripted_SelectMenu_items
           5 ["Android system recovery"]%string
           ["reboot"; "apply update"; "wipe data"]%string 1 0 lit_screen
           (MkScript [] true true 3 false []) 1).
  - lia.
  - reflexivity.
  - lia.
  - reflexivity.
Defined.

End MenuMore.

(** ** wipe_data *)


Section WipeFacts.
Context {S : Type} `{I : Menu.Interface S} `{D : Device S}.
Variable api_version : string.

Local Open Scope Z_scope.



End WipeFacts.


(** ** main: the path of the update package *)

Section UpdatePathFacts.
Variable malloc : nat -> list ascii.
Variable findPackageAndMountUsbDevice : cstring -> cstring.
Hypothesis length_malloc : forall n, length (malloc n) = n.

(** The compatibility rewrite of "CACHE:" never cuts a path: whatever the
    allocated block holds, a path "CACHE:" followed by [rest] becomes
    "/cache/" followed by [rest], all of it. *)
Theorem cache_root_path_whole (rest : cstring) :
  nul_free rest ->
  cache_root_path malloc (lit "CACHE:" ++ rest) = lit "/cache/" ++ rest.
Proof.
  intros Hn. unfold cache_root_path, strncmp_eq.
  assert (Hp : nul_free (lit "CACHE:" ++ rest)).
  { apply Forall_app. split; [repeat constructor|done]. }
  rewrite (cstr_whole _ Hp). unfold strlen. rewrite (cstr_whole _ Hp).
  change (take 6 (lit "CACHE:" ++ rest)) with (lit "CACHE:").
  change (take 6 (lit "CACHE:")) with (lit "CACHE:").
  rewrite bool_decide_eq_true_2 by done.
  change (drop 6 (lit "CACHE:" ++ rest)) with rest.
  set (len := length (lit "CACHE:" ++ rest) + 10).
  assert (Hlen : len = length rest + 16).
  { unfold len. rewrite length_app. cbn [length lit list_ascii_of_string]. lia. }
  rewrite cstr_strlcat; [|done|].
  - rewrite length_strlcpy, length_malloc.
    rewrite cstr_strlcpy; [|repeat constructor|rewrite length_malloc; lia].
    rewrite length_malloc. rewrite (take_ge (lit "/cache/")).
    + apply take_ge. rewrite length_app. cbn [length lit list_ascii_of_string]. lia.
    + cbn [length lit list_ascii_of_string]. lia.
  - apply strlen_strlcpy; [repeat constructor|rewrite length_malloc; lia].
Qed.

(** The path stored in [updatepath] always fits the flag of
    [finish_recovery]: a run of the path block of [main] that returns has
    stored a string of fewer than 128 bytes, so "success$path=" followed by
    it stays inside the 160 bytes of [strflag]; a path of 128 bytes or more
    is copied past the end of [updatepath]. *)
Theorem resolve_update_path_fits (update_package : cstring) (w : World) :
  match resolve_update_path malloc findPackageAndMountUsbDevice update_package w with
  | Done (p, w') =>
      updatepath w' = cstr p /\ length (updatepath w') < 128
      /\ strflag (updatepath w') = Done (flag_bytes (updatepath w'))
      /\ with_updatepath w' (updatepath w) = w
  | Undefined u => u = OutOfBounds
  end.
Proof.
  unfold resolve_update_path.
  set (p := if strncmp_eq 16 _ _ then _ else _).
  destruct (128 <=? strlen p) eqn:E; [done|]. apply Nat.leb_gt in E.
  cbn [with_updatepath updatepath]. unfold strlen in E.
  split; [done|]. split; [done|]. split.
  - apply strflag_fits. lia.
  - by destruct w.
Qed.

End UpdatePathFacts.

Lemma cache_root_path_whole_witness :
  cache_root_path (fun n => replicate n "x"%char) (lit "CACHE:" ++ lit "update.zip")
  = lit "/cache/" ++ lit "update.zip".
Proof.
  apply (cache_root_path_whole (fun n => replicate n "x"%char)).
  - intros n. apply length_replicate.
  - repeat constructor.
Defined.

(** ** From one run to the next *)

Lemma fopen_command_file_missing w t :
  mount_ok w = true -> files w !! COMMAND_FILE = None ->
  exists w', fopen_path COMMAND_FILE ModeR (with_trace w t) = (None, w').
Proof.
  intros Hm Hf. unfold fopen_path, ensure_path_mounted.
  cbn [mount_ok with_trace]. rewrite Hm.
  change (under_cache COMMAND_FILE) with true. cbn [negb Z.eqb].
  unfold fopen, visible. change (under_cache COMMAND_FILE) with true.
  cbn [cache_mounted emit with_trace with_mounted files]. rewrite Hf.
  by eexists.
Qed.

Section Session.
Context `{L : BcbLayout}.

(** A run that ends in [finish_recovery] leaves nothing for the next one:
    when the cache volume mounts and [bClearbootmessage] is not set, the next
    start with at most one live argument finds no argument in the control
    block and no command file, and [get_args] returns the argument vector
    it was given. *)
Theorem finished_recovery_leaves_no_arguments
    (send_intent : option cstring) (w w2 : World)
    (argv0 : list (option cstring)) :
  0 < recovery_size ->
  mount_ok w = true -> bClearbootmessage w = false ->
  (bAutoUpdateComplete w = true -> length (updatepath w) < 147) ->
  finish_recovery send_intent w = Done w2 ->
  length argv0 <= 1 ->
  exists w3, get_args argv0 w2 = Done (argv0, w3).
Proof.
  intros Hrs Hm Hclr Hfit Hfin Hargc.
  destruct (finish_recovery_mounted send_intent w Hm Hfit) as (t & Hw2 & _).
  rewrite Hfin in Hw2. injection Hw2 as Hw2.
  assert (Hbcb : bcb w2 = zero_message).
  { rewrite Hw2. cbn [upd bcb]. unfold finish_bcb. by rewrite Hclr. }
  assert (Hm2 : mount_ok w2 = true) by (rewrite Hw2; exact Hm).
  assert (Hf2 : files w2 !! COMMAND_FILE = None).
  { rewrite Hw2. cbn [upd files]. apply finish_files_command. }
  assert (Hh : head (recovery (bcb w2)) = Some NUL).
  { rewrite Hbcb. cbn [zero_message recovery]. unfold zeroed.
    destruct recovery_size; [lia|done]. }
  unfold get_args, get_bootloader_message.
  match goal with |- context [args_from_bcb ?b ?a ?w0] =>
    pose proof (args_from_bcb_frame b a w0) as [t1 Ht];
    pose proof (args_from_bcb_blank b a w0 Hh) as Ha;
    destruct (args_from_bcb b a w0) as [[argv1 boot1] w1]
  end.
  cbn [fst snd] in Ht, Ha. subst argv1 w1.
  unfold args_from_command_file. apply Nat.leb_le in Hargc. rewrite Hargc.
  match goal with |- context [fopen_path _ _ ?w0] =>
    assert (exists t0, w0 = with_trace w2 t0) as [t0 ->]
  end.
  { destruct (first_byte_set (status (bcb w2))), (first_byte_set (command (bcb w2)));
      by eexists. }
  destruct (fopen_command_file_missing w2 t0 Hm2 Hf2) as [w' ->].
  cbn [bind]. apply Nat.leb_le in Hargc.
  assert (Hd : drop 1 argv0 = []).
  { destruct argv0 as [|a [|b argv0]]; [done|done|simpl in Hargc; lia]. }
  rewrite Hd. cbn [append_arguments bind]. by eexists.
Qed.

End Session.

Lemma finished_recovery_leaves_no_arguments_witness :
  exists w3,
    get_args (L := aosp_layout) [Some (lit "/sbin/recovery")] finished_world
    = Done ([Some (lit "/sbin/recovery")], w3).
Proof.
  apply (finished_recovery_leaves_no_arguments (L := aosp_layout)
           (Some (lit "done")) logged_world finished_world).
  - simpl. lia.
  - reflexivity.
  - reflexivity.
  - discriminate.
  - vm_compute. reflexivity.
  - simpl. lia.
Defined.

(** ** update_directory: item 0 of the menu *)

Lemma strcmp_refl a : strcmp a a = 0%Z.
Proof.
  induction a as [|x a IH]; [done|]. cbn [strcmp]. by rewrite Ascii.eqb_refl.
Qed.

Lemma strcmp_antisym a : forall b, strcmp b a = (- strcmp a b)%Z.
Proof.
  induction a as [|x a IH]; intros [|y b]; cbn [strcmp]; try lia.
  rewrite (Ascii.eqb_sym y x). destruct (Ascii.eqb x y); [apply IH|lia].
Qed.

Lemma scan_directory_zips entries : forall dirs zips z,
  In z (scan_directory entries dirs zips).2 ->
  In z zips
  \/ exists de, In de entries /\ d_name de = z /\ d_kind de = DT_REG
                /\ is_zip_name z = true.
Proof.
  induction entries as [|de entries IH]; intros dirs zips z; cbn [scan_directory].
  - by left.
  - destruct (d_kind de) eqn:Ek.
    + destruct (_ || _); intros H; apply IH in H as [H|(de' & ? & ?)];
        [by left|right; exists de'; split; [by right|done]
        |by left|right; exists de'; split; [by right|done]].
    + destruct (is_zip_name (d_name de)) eqn:Ez; intros H;
        apply IH in H as [H|(de' & ? & ?)].
      * apply in_app_iff in H as [H|[<-|[]]]; [by left|].
        right. exists de. split; [by left|done].
      * right. exists de'. split; [by right|done].
      * by left.
      * right. exists de'. split; [by right|done].
    + intros H; apply IH in H as [H|(de' & ? & ?)];
        [by left|right; exists de'; split; [by right|done]].
Qed.

Lemma scan_directory_keeps entries : forall dirs zips z,
  In z zips -> In z (scan_directory entries dirs zips).2.
Proof.
  induction entries as [|de entries IH]; intros dirs zips z Hz;
    cbn [scan_directory]; [done|].
  destruct (d_kind de); [destruct (_ || _)|destruct (is_zip_name _)|];
    apply IH; try done. apply in_app_iff. by left.
Qed.

Lemma cstr_store_last buf :
  strlen buf < length buf ->
  cstr (store buf (strlen buf - 1) NUL) = take (strlen buf - 1) (cstr buf).
Proof.
  intros Hterm. destruct (cstr_split buf Hterm) as [junk Hb].
  unfold strlen. pose proof (cstr_nul_free buf) as Hs.
  rewrite Hb at 1. unfold store.
  destruct (cstr buf) as [|c s] using rev_ind; [done|].
  rewrite length_app. cbn [length].
  replace (length s + 1 - 1) with (length s) by lia.
  rewrite take_app_length, <- app_assoc. cbn [app].
  rewrite insert_app_r_alt by lia. rewrite Nat.sub_diag. cbn [insert list_insert].
  apply cstr_terminated. by apply Forall_app in Hs as [Hs _].
Qed.

Section DirectoryFacts.
Variable qsort : list cstring -> list cstring.

(** Item 0 of the menu is not always "../": when [qsort] puts the listed
    packages in the order of [strcmp] and one of them compares below "../"
    (a name that starts with '+' or '-', say), item 0 is a package of the
    directory and "../" stands at a later index.  Choosing item 0 then
    leaves the directory although a package is shown there, and choosing
    the entry "../" is taken for a subdirectory: the browser descends into
    the path followed by "/..". *)
Theorem update_directory_first_item
    (entries : list dirent) (z : cstring) (stack : list ascii) (path : cstring) :
  qsort (listed_packages entries) ≡ₚ listed_packages entries ->
  ascending (qsort (listed_packages entries)) ->
  In z (listed_packages entries) -> (strcmp z (lit "../") < 0)%Z ->
  length stack = PATH_MAX -> nul_free path -> length path + 4 < PATH_MAX ->
  exists first k,
    head (directory_menu qsort entries) = Some first
    /\ first <> lit "../"
    /\ (exists de, In de entries /\ d_name de = first /\ d_kind de = DT_REG
                   /\ is_zip_name first = true)
    /\ browse_item stack path (directory_menu qsort entries) 0 = Some GoUp
    /\ 0 < k /\ directory_menu qsort entries !! k = Some (lit "../")
    /\ browse_item stack path (directory_menu qsort entries) k
       = Some (Descend (path ++ lit "/..")).
Proof.
  intros Hperm Hasc Hz Hlt Hstack Hpath Hfit.
  assert (Hmenu : exists dirs,
            directory_menu qsort entries
            = qsort (listed_packages entries) ++ qsort dirs).
  { unfold directory_menu, listed_packages.
    destruct (scan_directory entries [] [lit "../"]) as [dirs zips]. by eexists. }
  destruct Hmenu as [dirs Hmenu]. rewrite Hmenu.
  assert (Hall : forall x, In x (qsort (listed_packages entries))
                           <-> In x (listed_packages entries)).
  { intros x. rewrite <- !list_elem_of_In. by rewrite Hperm. }
  set (sorted := qsort (listed_packages entries)) in *.
  assert (Hup : In (lit "../") sorted).
  { apply Hall, scan_directory_keeps. by left. }
  assert (Hzs : In z sorted) by (by apply Hall).
  destruct sorted as [|first rest] eqn:Es; [done|].
  assert (Hne : first <> lit "../").
  { intros ->. destruct Hzs as [<-|Hin].
    - rewrite strcmp_refl in Hlt. lia.
    - apply list_elem_of_In, list_elem_of_lookup in Hin as [i Hi].
      pose proof (Hasc 0 (S i) (lit "../") z ltac:(lia) eq_refl Hi) as H1.
      rewrite strcmp_antisym in H1. lia. }
  destruct Hup as [Hf|Hin]; [done|].
  apply list_elem_of_In, list_elem_of_lookup in Hin as [k Hk].
  exists first, (S k). split; [done|]. split; [done|]. split.
  { assert (Hin : In first (listed_packages entries)) by (apply Hall; by left).
    apply scan_directory_zips in Hin as [[Hf|[]]|Hde]; [done|exact Hde]. }
  assert (Hk' : ((first :: rest) ++ qsort dirs) !! S k = Some (lit "../")).
  { change (((first :: rest) ++ qsort dirs) !! S k)
      with ((rest ++ qsort dirs) !! k).
    by apply lookup_app_l_Some. }
  split; [done|]. split; [lia|]. split; [exact Hk'|].
  unfold browse_item. rewrite Hk'.
  cbn [Nat.eqb]. rewrite bool_decide_eq_true_2 by done.
  assert (H1 : strlen (strlcpy stack path) < length (strlcpy stack path)).
  { apply strlen_strlcpy; [done|]. rewrite Hstack. unfold PATH_MAX. lia. }
  assert (H2 : strlen (strlcat (strlcpy stack path) (lit "/"))
               < length (strlcat (strlcpy stack path) (lit "/"))).
  { apply strlen_strlcat; [repeat constructor|done]. }
  assert (H3 : strlen (strlcat (strlcat (strlcpy stack path) (lit "/")) (lit "../"))
               < length (strlcat (strlcat (strlcpy stack path) (lit "/")) (lit "../"))).
  { apply strlen_strlcat; [repeat constructor|done]. }
  assert (Hc : cstr (strlcat (strlcat (strlcpy stack path) (lit "/")) (lit "../"))
               = path ++ lit "/../").
  { rewrite cstr_strlcat; [|repeat constructor|done].
    rewrite cstr_strlcat; [|repeat constructor|done].
    rewrite cstr_strlcpy; [|done|rewrite Hstack; unfold PATH_MAX; lia].
    rewrite !length_strlcat, length_strlcpy, Hstack.
    rewrite !take_take_app, <- !app_assoc.
    rewrite (take_ge path) by (unfold PATH_MAX in *; lia).
    rewrite take_ge; [done|].
    rewrite !length_app. cbn [length lit list_ascii_of_string].
    unfold PATH_MAX in *. lia. }
  rewrite cstr_store_last by done. unfold strlen. rewrite Hc.
  do 2 f_equal. rewrite length_app. cbn [length lit list_ascii_of_string].
  replace (length path + 4 - 1) with (length path + 3) by lia.
  rewrite take_app_ge by lia.
  replace (length path + 3 - length path) with 3 by lia. reflexivity.
Qed.

End DirectoryFacts.

Lemma update_directory_first_item_witness :
  exists first k,
    head (directory_menu sort_two patch_directory) = Some first
    /\ first <> lit "../"
    /\ (exists de, In de patch_directory /\ d_name de = first
                   /\ d_kind de = DT_REG /\ is_zip_name first = true)
    /\ browse_item (replicate PATH_MAX "x"%char) (lit "/sdcard")
         (directory_menu sort_two patch_directory) 0 = Some GoUp
    /\ 0 < k
    /\ directory_menu sort_two patch_directory !! k = Some (lit "../")
    /\ browse_item (replicate PATH_MAX "x"%char) (lit "/sdcard")
         (directory_menu sort_two patch_directory) k
       = Some (Descend (lit "/sdcard" ++ lit "/..")).
Proof.
  apply (update_directory_first_item sort_two patch_directory (lit "+patch.zip")
           (replicate PATH_MAX "x"%char) (lit "/sdcard")).
  - vm_compute. apply perm_swap.
  - intros i j a b Hij Hi Hj.
    destruct i as [|[|i]], j as [|[|j]]; try lia; try done.
    vm_compute in Hi, Hj. injection Hi as <-. injection Hj as <-.
    vm_compute. discriminate.
  - vm_compute. tauto.
  - vm_compute. reflexivity.
  - apply length_replicate.
  - repeat constructor.
  - vm_compute. lia.
Defined.

(** ** The ext4 reader on a device that ends in the superblock *)

Module Ext4More.
Import Ext4.
Local Open Scope Z_scope.

Section Short.
Context `{E : Ext4Lib}.

(** A device that ends before the superblock does is refused after one seek
    and one short read: [read_ext] logs that it could not read all of the
    superblock and returns -1 without looking at a byte, and
    [get_fs_total_size] hands its caller the wrapped -1, the largest
    [size_t]. *)
Theorem read_ext_short_device (bytes : list Z) :
  0 < size_t_bits -> 0 < sizeof_sb ->
  Z.of_nat (length bytes) < 1024 + sizeof_sb ->
  let got := Z.of_nat (length bytes - 1024) in
  read_ext (Fd bytes 0 [])
  = (-1, Fd bytes (1024 + got)
           [IoSeek 1024; IoRead sizeof_sb got;
            IoLog "read_ext->failed to read all of superblock\n"])
  /\ get_fs_total_size (Some bytes) = 2 ^ size_t_bits - 1.
Proof.
  intros Hbits Hsb Hshort got.
  assert (Hrun : read_ext (Fd bytes 0 [])
                 = (-1, Fd bytes (1024 + got)
                          [IoSeek 1024; IoRead sizeof_sb got;
                           IoLog "read_ext->failed to read all of superblock\n"])).
  { unfold read_ext, lseek64, read.
    cbn [Z.ltb Z.compare fd_bytes fd_pos fd_io io_emit app].
    set (data := take (Z.to_nat sizeof_sb) (drop (Z.to_nat 1024) bytes)) in *.
    assert (Hlen : Z.of_nat (length data) = got).
    { unfold data, got. rewrite length_take, length_drop.
      change (Z.to_nat 1024) with 1024%nat. lia. }
    rewrite Hlen.
    assert (Hnn : (got <? 0) = false) by (apply Z.ltb_ge; unfold got; lia).
    assert (Hne : (got =? sizeof_sb) = false).
    { apply Z.eqb_neq. unfold got. lia. }
    rewrite Hnn, Hne. reflexivity. }
  split; [exact Hrun|].
  unfold get_fs_total_size. rewrite Hrun. cbn [fst].
  assert (Hmax : to_size_t (-1) = 2 ^ size_t_bits - 1).
  { unfold to_size_t, wrap_unsigned.
    assert (0 < 2 ^ size_t_bits) by (apply Z.pow_pos_nonneg; lia).
    replace (-1) with (2 ^ size_t_bits - 1 + (-1) * 2 ^ size_t_bits) by lia.
    rewrite Z.mod_add by lia. apply Z.mod_small. lia. }
  rewrite Hmax. destruct (_ <? 0); done.
Qed.

End Short.

Lemma read_ext_short_device_witness :
  read_ext (E := ext4_layout) (Fd (replicate 1500 7) 0 [])
  = (-1, Fd (replicate 1500 7) (1024 + 476)
           [IoSeek 1024; IoRead 1024 476;
            IoLog "read_ext->failed to read all of superblock\n"])
  /\ get_fs_total_size (E := ext4_layout) (Some (replicate 1500 7))
     = 2 ^ 32 - 1.
Proof.
  apply (read_ext_short_device (E := ext4_layout) (replicate 1500 7)).
  - reflexivity.
  - reflexivity.
  - rewrite length_replicate. reflexivity.
Defined.

End Ext4More.
